(** * Kotonoha annotation editor: history, gestures, erase and auto-layout

    A shallow embedding of the annotation editor of
    [frontend/src/App.js] (the [Editor] component) and the properties of
    its object collection, undo/redo stacks, resize and move gestures,
    stroke eraser and auto-layout mapper.

    Conventions of the embedding.

    - JavaScript numbers are modelled as exact rationals ([Q]); equalities
      between computed coordinates are stated with [==] ([Qeq]).  Rounding
      of IEEE doubles is outside the model.
    - A React state variable read inside a handler is the value of the
      render that created the handler; it does not change while the handler
      runs.  Handlers therefore take the captured values ([Render]) as an
      argument, separate from the store that [setBoxes (prev => ...)]
      updates.
    - A mutable ref used as a stack ([historyRef], [redoRef]) is a list
      whose head is the element pushed last. *)

From Stdlib Require Import List String Ascii Bool ZArith QArith Qminmax Qround Lia.
From Stdlib Require Import Lqa Qabs.
From Stdlib Require DecimalString DecimalN.
Import ListNotations.
Open Scope string_scope.
Open Scope Q_scope.
Open Scope list_scope.

(** ** Numbers *)

Module Js.

(** Truthiness of a number: every number but zero. *)
Definition truthy (a : Q) : bool := negb (Qeq_bool a 0).

(** [a || b] on numbers. *)
Definition or (a b : Q) : Q := if truthy a then a else b.

(** [a || b] where the field [a] may be absent. *)
Definition or_undef (a : option Q) (b : Q) : Q :=
  match a with
  | Some v => or v b
  | None => b
  end.

Definition max (a b : Q) : Q := Qmax a b.
Definition min (a b : Q) : Q := Qmin a b.

(** [Math.round]: the nearest integer, halves rounded up. *)
Definition round (a : Q) : Q := inject_Z (Qfloor (a + (1 # 2))).

(** [<=] as the boolean test of the source. *)
Definition leb (a b : Q) : bool := Qle_bool a b.
Definition ltb (a b : Q) : bool := negb (Qle_bool b a).

End Js.

(** ** The object collection *)

(** The [type] field of an annotation object.  Comment boxes made by
    [addBox] and [addGlyphBox] carry no [type] field ([NoType]). *)
Inductive BoxType : Set :=
| NoType | Text | Score | Image | Line | Arrow | Target | Draw.

Definition BoxType_eqb (a b : BoxType) : bool :=
  match a, b with
  | NoType, NoType | Text, Text | Score, Score | Image, Image
  | Line, Line | Arrow, Arrow | Target, Target | Draw, Draw => true
  | _, _ => false
  end.

Record Point : Set := { px : Q; py : Q }.

(** One annotation object.  A JavaScript object is open; the record has
    the fields the editor writes.  A numeric field an object of some kind
    does not carry reads as [0]; [fontSize], which the code tests with
    [typeof ... === 'number'], and [group] are options.  The field
    [points] of a score marker (its value) is [score]; [points] is the
    sample list of a stroke. *)
Record Box : Set := {
  id : string;
  type : BoxType;
  page : Z;
  x : Q; y : Q; w : Q; h : Q;
  ex : Q; ey : Q;
  fontSize : option Q;
  fontWeight : string;
  text : string;
  isEditing : bool;
  fixedHeight : bool;
  points : list Point;
  strokeWidth : Q;
  offsetX : Q; offsetY : Q;
  group : option string;
  score : Z;
  src : string
}.

Definition set_id (v : string) (b : Box) : Box :=
  {| id := v; type := type b; page := page b; x := x b; y := y b; w := w b;
     h := h b; ex := ex b; ey := ey b; fontSize := fontSize b;
     fontWeight := fontWeight b; text := text b; isEditing := isEditing b;
     fixedHeight := fixedHeight b; points := points b;
     strokeWidth := strokeWidth b; offsetX := offsetX b; offsetY := offsetY b;
     group := group b; score := score b; src := src b |}.

Definition set_page (v : Z) (b : Box) : Box :=
  {| id := id b; type := type b; page := v; x := x b; y := y b; w := w b;
     h := h b; ex := ex b; ey := ey b; fontSize := fontSize b;
     fontWeight := fontWeight b; text := text b; isEditing := isEditing b;
     fixedHeight := fixedHeight b; points := points b;
     strokeWidth := strokeWidth b; offsetX := offsetX b; offsetY := offsetY b;
     group := group b; score := score b; src := src b |}.

Definition set_x (v : Q) (b : Box) : Box :=
  {| id := id b; type := type b; page := page b; x := v; y := y b; w := w b;
     h := h b; ex := ex b; ey := ey b; fontSize := fontSize b;
     fontWeight := fontWeight b; text := text b; isEditing := isEditing b;
     fixedHeight := fixedHeight b; points := points b;
     strokeWidth := strokeWidth b; offsetX := offsetX b; offsetY := offsetY b;
     group := group b; score := score b; src := src b |}.

Definition set_y (v : Q) (b : Box) : Box :=
  {| id := id b; type := type b; page := page b; x := x b; y := v; w := w b;
     h := h b; ex := ex b; ey := ey b; fontSize := fontSize b;
     fontWeight := fontWeight b; text := text b; isEditing := isEditing b;
     fixedHeight := fixedHeight b; points := points b;
     strokeWidth := strokeWidth b; offsetX := offsetX b; offsetY := offsetY b;
     group := group b; score := score b; src := src b |}.

Definition set_w (v : Q) (b : Box) : Box :=
  {| id := id b; type := type b; page := page b; x := x b; y := y b; w := v;
     h := h b; ex := ex b; ey := ey b; fontSize := fontSize b;
     fontWeight := fontWeight b; text := text b; isEditing := isEditing b;
     fixedHeight := fixedHeight b; points := points b;
     strokeWidth := strokeWidth b; offsetX := offsetX b; offsetY := offsetY b;
     group := group b; score := score b; src := src b |}.

Definition set_h (v : Q) (b : Box) : Box :=
  {| id := id b; type := type b; page := page b; x := x b; y := y b; w := w b;
     h := v; ex := ex b; ey := ey b; fontSize := fontSize b;
     fontWeight := fontWeight b; text := text b; isEditing := isEditing b;
     fixedHeight := fixedHeight b; points := points b;
     strokeWidth := strokeWidth b; offsetX := offsetX b; offsetY := offsetY b;
     group := group b; score := score b; src := src b |}.

Definition set_ex (v : Q) (b : Box) : Box :=
  {| id := id b; type := type b; page := page b; x := x b; y := y b; w := w b;
     h := h b; ex := v; ey := ey b; fontSize := fontSize b;
     fontWeight := fontWeight b; text := text b; isEditing := isEditing b;
     fixedHeight := fixedHeight b; points := points b;
     strokeWidth := strokeWidth b; offsetX := offsetX b; offsetY := offsetY b;
     group := group b; score := score b; src := src b |}.

Definition set_ey (v : Q) (b : Box) : Box :=
  {| id := id b; type := type b; page := page b; x := x b; y := y b; w := w b;
     h := h b; ex := ex b; ey := v; fontSize := fontSize b;
     fontWeight := fontWeight b; text := text b; isEditing := isEditing b;
     fixedHeight := fixedHeight b; points := points b;
     strokeWidth := strokeWidth b; offsetX := offsetX b; offsetY := offsetY b;
     group := group b; score := score b; src := src b |}.

Definition set_fontSize (v : option Q) (b : Box) : Box :=
  {| id := id b; type := type b; page := page b; x := x b; y := y b; w := w b;
     h := h b; ex := ex b; ey := ey b; fontSize := v;
     fontWeight := fontWeight b; text := text b; isEditing := isEditing b;
     fixedHeight := fixedHeight b; points := points b;
     strokeWidth := strokeWidth b; offsetX := offsetX b; offsetY := offsetY b;
     group := group b; score := score b; src := src b |}.

Definition set_fontWeight (v : string) (b : Box) : Box :=
  {| id := id b; type := type b; page := page b; x := x b; y := y b; w := w b;
     h := h b; ex := ex b; ey := ey b; fontSize := fontSize b;
     fontWeight := v; text := text b; isEditing := isEditing b;
     fixedHeight := fixedHeight b; points := points b;
     strokeWidth := strokeWidth b; offsetX := offsetX b; offsetY := offsetY b;
     group := group b; score := score b; src := src b |}.

Definition set_fixedHeight (v : bool) (b : Box) : Box :=
  {| id := id b; type := type b; page := page b; x := x b; y := y b; w := w b;
     h := h b; ex := ex b; ey := ey b; fontSize := fontSize b;
     fontWeight := fontWeight b; text := text b; isEditing := isEditing b;
     fixedHeight := v; points := points b;
     strokeWidth := strokeWidth b; offsetX := offsetX b; offsetY := offsetY b;
     group := group b; score := score b; src := src b |}.

Definition set_offset (vx vy : Q) (b : Box) : Box :=
  {| id := id b; type := type b; page := page b; x := x b; y := y b; w := w b;
     h := h b; ex := ex b; ey := ey b; fontSize := fontSize b;
     fontWeight := fontWeight b; text := text b; isEditing := isEditing b;
     fixedHeight := fixedHeight b; points := points b;
     strokeWidth := strokeWidth b; offsetX := vx; offsetY := vy;
     group := group b; score := score b; src := src b |}.

(** [b.type === 'draw'] *)
Definition is_draw (b : Box) : bool := BoxType_eqb (type b) Draw.

(** [arr.findIndex(x => x.id === k)]; [None] is the [-1] of the source. *)
Fixpoint findIndex (k : string) (l : list Box) : option nat :=
  match l with
  | [] => None
  | b :: r => if String.eqb (id b) k then Some O
              else option_map S (findIndex k r)
  end.

(** [arr[i] = nb] on a copy of the array, for an index in range. *)
Fixpoint assign (i : nat) (nb : Box) (l : list Box) : list Box :=
  match l, i with
  | [], _ => []
  | _ :: r, O => nb :: r
  | b :: r, S j => b :: assign j nb r
  end.

(** [ids.includes(k)] *)
Definition includes (k : string) (ids : list string) : bool :=
  existsb (String.eqb k) ids.

(** ** History *)

(** [JSON.parse(JSON.stringify(boxes))]: every object is rebuilt field by
    field, the sample points included. *)
Definition json_clone_point (p : Point) : Point := {| px := px p; py := py p |}.

Definition json_clone_box (b : Box) : Box :=
  {| id := id b; type := type b; page := page b; x := x b; y := y b; w := w b;
     h := h b; ex := ex b; ey := ey b; fontSize := fontSize b;
     fontWeight := fontWeight b; text := text b; isEditing := isEditing b;
     fixedHeight := fixedHeight b; points := map json_clone_point (points b);
     strokeWidth := strokeWidth b; offsetX := offsetX b; offsetY := offsetY b;
     group := group b; score := score b; src := src b |}.

Definition json_clone (l : list Box) : list Box := map json_clone_box l.

(** The values of the state variables a render's closures capture. *)
Record Render : Set := {
  boxes : list Box;
  selectedIds : list string
}.

(** The store: React state as functional updates see it, the two history
    refs and the clipboard slot [window.__BOX_CLIPBOARD__].  [selStamp]
    counts the calls of [setSelectedIds] with a new array: React compares
    state by identity, so an effect that depends on [selectedIds] runs
    again exactly when the stamp moved. *)
Record Editor : Set := {
  st_boxes : list Box;
  st_selectedIds : list string;
  selStamp : nat;
  historyRef : list (list Box);
  redoRef : list (list Box);
  clipboard : list Box
}.

(** The render of the committed state: what a handler attached in JSX
    (toolbar buttons, pointer handlers of the boxes) captures. *)
Definition render (st : Editor) : Render :=
  {| boxes := st_boxes st; selectedIds := st_selectedIds st |}.

(** [setBoxes(prev => f prev)] *)
Definition setBoxes (f : list Box -> list Box) (st : Editor) : Editor :=
  {| st_boxes := f (st_boxes st); st_selectedIds := st_selectedIds st;
     selStamp := selStamp st; historyRef := historyRef st;
     redoRef := redoRef st; clipboard := clipboard st |}.

(** [setSelectedIds(ids)] with a freshly built array. *)
Definition setSelectedIds (ids : list string) (st : Editor) : Editor :=
  {| st_boxes := st_boxes st; st_selectedIds := ids;
     selStamp := S (selStamp st); historyRef := historyRef st;
     redoRef := redoRef st; clipboard := clipboard st |}.

(** [pushHistory] (App.js 1948-1950): a clone of the captured collection
    goes on the undo stack and the redo stack is emptied. *)
Definition pushHistory (r : Render) (st : Editor) : Editor :=
  {| st_boxes := st_boxes st; st_selectedIds := st_selectedIds st;
     selStamp := selStamp st;
     historyRef := json_clone (boxes r) :: historyRef st;
     redoRef := [];
     clipboard := clipboard st |}.

(** Undo, as written twice in the source (key listener, App.js 1976-1977,
    and toolbar button, App.js 2844):
    [const prev = historyRef.current.pop();
     if (prev) { redoRef.current.push(clone(boxes)); setBoxes(prev); }]. *)
Definition undo (r : Render) (st : Editor) : Editor :=
  match historyRef st with
  | [] => st
  | prev :: rest =>
      {| st_boxes := prev; st_selectedIds := st_selectedIds st;
         selStamp := selStamp st;
         historyRef := rest;
         redoRef := json_clone (boxes r) :: redoRef st;
         clipboard := clipboard st |}
  end.

(** Redo, the mirror image (App.js 1973-1974 and 2845). *)
Definition redo (r : Render) (st : Editor) : Editor :=
  match redoRef st with
  | [] => st
  | next :: rest =>
      {| st_boxes := next; st_selectedIds := st_selectedIds st;
         selStamp := selStamp st;
         historyRef := json_clone (boxes r) :: historyRef st;
         redoRef := rest;
         clipboard := clipboard st |}
  end.

(** The toolbar buttons are rebuilt by every render. *)
Definition toolbarUndo (st : Editor) : Editor := undo (render st) st.
Definition toolbarRedo (st : Editor) : Editor := redo (render st) st.

(** ** The page surfaces and pointer events *)

(** [getBoundingClientRect()] *)
Record Rect : Set := { left : Q; top : Q; width : Q; height : Q }.

Definition bottom (r : Rect) : Q := top r + height r.
Definition right (r : Rect) : Q := left r + width r.

(** One [img.page-image] of the page container: its [data-page-index],
    its rectangle, its client and natural sizes, and the rectangle of its
    [.page-wrap] (or parent element) when there is one. *)
Record PageImage : Set := {
  dataPageIndex : Z;
  rect : Rect;
  clientWidth : Q; clientHeight : Q;
  naturalWidth : Q; naturalHeight : Q;
  wrapRect : option Rect
}.

(** [pageRef.current]: whether the container is mounted, its scroll
    position, and its page images in document order. *)
Record Dom : Set := {
  mounted : bool;
  scrollLeft : Q; scrollTop : Q;
  imgs : list PageImage
}.

(** A pointer event, read through [getClientXY]. *)
Record PointerEvent : Set := {
  clientX : Q; clientY : Q;
  pointerId : option Z;
  shiftKey : bool; metaKey : bool; ctrlKey : bool
}.

(** The guard of the window listeners:
    [pointerId !== null && typeof ev.pointerId === 'number' &&
     ev.pointerId !== pointerId]. *)
Definition other_pointer (captured : option Z) (ev : PointerEvent) : bool :=
  match captured, pointerId ev with
  | Some p, Some q => negb (Z.eqb p q)
  | _, _ => false
  end.

(** [imgs.find(el => Number(el.getAttribute('data-page-index')) === idx)] *)
Definition find_image (idx : Z) (l : list PageImage) : option PageImage :=
  find (fun el => Z.eqb (dataPageIndex el) idx) l.

(** ** Resize gesture ([onResizeDown]) *)

Inductive Corner : Set := TL | TR | BL | BR | L | R.

(** What the [move] and [up] listeners of one resize gesture capture. *)
Record ResizeGesture : Set := {
  rz_id : string;
  rz_corner : Corner;
  rz_startX : Q; rz_startY : Q;
  rz_pointerId : option Z;
  rz_startBox : Box
}.

(** Pointer down on a handle (App.js 1792-1805): history is pushed, then
    the start box is read from the store; no listener is installed when
    the id is unknown. *)
Definition onResizeDown (r : Render) (e : PointerEvent) (k : string)
    (corner : Corner) (st : Editor) : Editor * option ResizeGesture :=
  let st1 := pushHistory r st in
  match findIndex k (st_boxes st1) with
  | None => (st1, None)
  | Some idx0 =>
      match nth_error (st_boxes st1) idx0 with
      | None => (st1, None)
      | Some startBox =>
          (st1, Some {| rz_id := k; rz_corner := corner;
                        rz_startX := clientX e; rz_startY := clientY e;
                        rz_pointerId := pointerId e;
                        rz_startBox := startBox |})
      end
  end.

(** The image an arrow is bounded by: the one of the arrow's page, or
    else the first page image. *)
Definition arrow_image (dom : Dom) (pageIdx : Z) : option PageImage :=
  if mounted dom then
    match find_image pageIdx (imgs dom) with
    | Some el => Some el
    | None => hd_error (imgs dom)
    end
  else None.

(** [Math.max(1, startBox.h || 3)] *)
Definition line_thickness (startBox : Box) : Q :=
  Js.max 1 (Js.or (h startBox) 3).

(** Arrow branch: the dragged endpoint follows the pointer inside the
    page image. *)
Definition resize_arrow (dom : Dom) (g : ResizeGesture) (ev : PointerEvent)
    (b : Box) : option Box :=
  match arrow_image dom (page (rz_startBox g)) with
  | None => None
  | Some imgEl =>
      let r := rect imgEl in
      let cx := Js.max 0 (Js.min (clientX ev - left r) (width r)) in
      let cy := Js.max 0 (Js.min (clientY ev - top r) (height r)) in
      Some match rz_corner g with
           | TL | L => set_y cy (set_x cx b)
           | BR | R => set_ey cy (set_ex cx b)
           | TR | BL => b
           end
  end.

(** Line branch: the length follows the horizontal delta, the thickness
    is kept. *)
Definition resize_line (g : ResizeGesture) (dx : Q) (b : Box) : Box :=
  let startBox := rz_startBox g in
  let thickness := line_thickness startBox in
  let '(nx, nw) :=
    match rz_corner g with
    | L | TL | BL => (x startBox + dx, w startBox - dx)
    | R | TR | BR => (x startBox, w startBox + dx)
    end in
  let ny := y startBox in
  let nh := thickness in
  set_h nh (set_w (Js.max 10 nw) (set_y (Js.max 0 ny) (set_x (Js.max 0 nx) b))).

(** [nx, ny, nw, nh] of the generic branch, by handle. *)
Definition requested (g : ResizeGesture) (dx dy : Q) : Q * Q * Q * Q :=
  let s := rz_startBox g in
  match rz_corner g with
  | BR => (x s, y s, w s + dx, h s + dy)
  | TR => (x s, y s + dy, w s + dx, h s - dy)
  | BL => (x s + dx, y s, w s - dx, h s + dy)
  | TL => (x s + dx, y s + dy, w s - dx, h s - dy)
  | L => (x s + dx, y s, w s - dx, h s)
  | R => (x s, y s, w s + dx, h s)
  end.

Definition is_corner (c : Corner) : bool :=
  match c with TL | TR | BL | BR => true | L | R => false end.

(** [!startBox.type || startBox.type === 'text'] *)
Definition isTextBox (b : Box) : bool :=
  match type b with NoType | Text => true | _ => false end.

(** The scale of a corner drag: the larger of the two requested scale
    factors, each taken after the minimum sizes. *)
Definition startW (g : ResizeGesture) : Q := Js.max 1 (w (rz_startBox g)).
Definition startH (g : ResizeGesture) : Q := Js.max 1 (h (rz_startBox g)).

Definition scale_x (g : ResizeGesture) (dx dy : Q) : Q :=
  let '(_, _, nw, _) := requested g dx dy in Js.max 80 nw / startW g.

Definition scale_y (g : ResizeGesture) (dx dy : Q) : Q :=
  let '(_, _, _, nh) := requested g dx dy in Js.max 40 nh / startH g.

Definition corner_scale (g : ResizeGesture) (dx dy : Q) : Q :=
  Js.max (scale_x g dx dy) (scale_y g dx dy).

(** Generic branch (text, score, image, target boxes). *)
Definition resize_generic (g : ResizeGesture) (dx dy : Q) (b : Box) : Box :=
  let startBox := rz_startBox g in
  let corner := rz_corner g in
  let '(nx, ny, nw, nh) := requested g dx dy in
  if isTextBox startBox && negb (is_corner corner) then
    let b1 := set_h (h startBox) (set_y (y startBox)
                (set_w (Js.max 80 nw) (set_x (Js.max 0 nx) b))) in
    match fontSize startBox with
    | Some f => set_fontSize (Some f) b1
    | None => b1
    end
  else
    let b1 := set_y (Js.max 0 ny) (set_x (Js.max 0 nx) b) in
    let nw := Js.max 80 nw in
    let nh := Js.max 40 nh in
    if is_corner corner then
      let s := corner_scale g dx dy in
      let newW := Js.max 80 (startW g * s) in
      let newH := Js.max 40 (startH g * s) in
      let b2 := match corner with
                | TL | BL => set_x (Js.max 0 (x startBox + (startW g - newW))) b1
                | _ => b1
                end in
      let b3 := match corner with
                | TL | TR => set_y (Js.max 0 (y startBox + (startH g - newH))) b2
                | _ => b2
                end in
      let b4 := set_h newH (set_w newW b3) in
      match type startBox with
      | Image => b4
      | _ => set_fontSize
               (Some (Js.max 8 (Js.round (Js.or_undef (fontSize startBox) 16 * s))))
               b4
      end
    else set_h nh (set_w nw b1).

(** The updater [move] hands to [setBoxes] (App.js 1812-1895). *)
Definition resize_update (dom : Dom) (g : ResizeGesture) (ev : PointerEvent)
    (p2 : list Box) : list Box :=
  let dx := clientX ev - rz_startX g in
  let dy := clientY ev - rz_startY g in
  match findIndex (rz_id g) p2 with
  | None => p2
  | Some j =>
      match nth_error p2 j with
      | None => p2
      | Some b =>
          match type (rz_startBox g) with
          | Arrow =>
              match resize_arrow dom g ev b with
              | None => p2
              | Some b' => assign j b' p2
              end
          | Line => assign j (resize_line g dx b) p2
          | _ => assign j (resize_generic g dx dy b) p2
          end
      end
  end.

(** The [pointermove] listener of a resize gesture. *)
Definition resize_move (dom : Dom) (g : ResizeGesture) (ev : PointerEvent)
    (st : Editor) : Editor :=
  if other_pointer (rz_pointerId g) ev then st
  else setBoxes (resize_update dom g ev) st.

(** The [pointerup] listener (App.js 1897-1916): after a corner drag the
    height of a box that has a text area is fitted to the measured content
    ([textRefs.current[id].scrollHeight]); an edge drag skips it.
    The result tells whether the gesture ended. *)
Definition resize_up (textRefs : string -> option Q) (g : ResizeGesture)
    (ev : PointerEvent) (st : Editor) : Editor * bool :=
  if other_pointer (rz_pointerId g) ev then (st, false)
  else if is_corner (rz_corner g) then
    match textRefs (rz_id g) with
    | Some sh =>
        (setBoxes (map (fun b => if String.eqb (id b) (rz_id g)
                                 then set_h (Js.max 40 (sh + 4)) b else b)) st,
         true)
    | None => (st, true)
    end
  else (st, true).

(** ** Placing and deleting objects *)

(** [viewportPos(defX, defY)] *)
Definition viewportPos (dom : Dom) (defX defY : Q) : Q * Q :=
  if mounted dom then
    (Js.max 0 (Js.or (scrollLeft dom) 0 + defX),
     Js.max 0 (Js.or (scrollTop dom) 0 + defY))
  else (defX, defY).

(** The [opts] argument of [addBox] and [addScoreMarker]. *)
Record Opts : Set := {
  select : bool;
  edit : bool;
  o_fontSize : option Q;
  o_fixedHeight : bool;
  o_page : option Z;
  o_x : option Q; o_y : option Q; o_w : option Q; o_h : option Q
}.

(** The default [{ select: true, edit: false, fontSize: null,
    fixedHeight: false }]. *)
Definition default_opts : Opts :=
  {| select := true; edit := false; o_fontSize := None;
     o_fixedHeight := false; o_page := None;
     o_x := None; o_y := None; o_w := None; o_h := None |}.

Definition or_default {A : Type} (o : option A) (d : A) : A :=
  match o with Some v => v | None => d end.

Section Placing.

(** The page container, the current page index, and the text sanitizer
    (a chain of regular-expression replacements on the comment text). *)
Variable dom : Dom.
Variable current : Z.
Variable sanitizeReviewText : string -> string.

(** [addBox(text, opts)] (App.js 1208-1230); [nid] is the id the call
    generates from the clock and the random source. *)
Definition addBox (r : Render) (nid : string) (txt : string) (opts : Opts)
    (st : Editor) : Editor :=
  let st1 := pushHistory r st in
  let vp := viewportPos dom 40 40 in
  let initFont :=
    match o_fontSize opts with
    | Some f => if Js.truthy f then f else 14
    | None => 14
    end in
  let newBox :=
    {| id := nid; type := NoType;
       page := or_default (o_page opts) current;
       x := or_default (o_x opts) (fst vp);
       y := or_default (o_y opts) (snd vp);
       w := or_default (o_w opts) 240;
       h := or_default (o_h opts) 100;
       ex := 0; ey := 0;
       fontSize := Some initFont; fontWeight := "bold";
       text := sanitizeReviewText txt;
       isEditing := edit opts; fixedHeight := o_fixedHeight opts;
       points := []; strokeWidth := 0; offsetX := 0; offsetY := 0;
       group := None; score := 0%Z; src := "" |} in
  let st2 := setBoxes (fun prev => prev ++ [newBox]) st1 in
  if select opts then setSelectedIds [nid] st2 else st2.

(** [addScoreMarker(points, opts)]; the value is
    [parseInt(points || 1, 10)]. *)
Definition addScoreMarker (r : Render) (nid : string) (pts : Z) (opts : Opts)
    (st : Editor) : Editor :=
  let st1 := pushHistory r st in
  let vp := viewportPos dom 60 60 in
  let newMarker :=
    {| id := nid; type := Score;
       page := or_default (o_page opts) current;
       x := or_default (o_x opts) (fst vp);
       y := or_default (o_y opts) (snd vp);
       w := 60; h := 30; ex := 0; ey := 0;
       fontSize := Some 18; fontWeight := "bold"; text := "";
       isEditing := false; fixedHeight := false;
       points := []; strokeWidth := 0; offsetX := 0; offsetY := 0;
       group := None; score := (if Z.eqb pts 0 then 1 else pts)%Z; src := "" |} in
  let st2 := setBoxes (fun prev => prev ++ [newMarker]) st1 in
  if select opts then setSelectedIds [nid] st2 else st2.

(** [addLineBox()] *)
Definition addLineBox (r : Render) (nid : string) (st : Editor) : Editor :=
  let st1 := pushHistory r st in
  let vp := viewportPos dom 80 120 in
  let newBox :=
    {| id := nid; type := Line; page := current;
       x := fst vp; y := snd vp; w := 240; h := 3; ex := 0; ey := 0;
       fontSize := None; fontWeight := ""; text := "";
       isEditing := false; fixedHeight := false;
       points := []; strokeWidth := 0; offsetX := 0; offsetY := 0;
       group := None; score := 0%Z; src := "" |} in
  setSelectedIds [nid] (setBoxes (fun prev => prev ++ [newBox]) st1).

(** [addArrow()] *)
Definition addArrow (r : Render) (nid : string) (st : Editor) : Editor :=
  let st1 := pushHistory r st in
  let vp := viewportPos dom 100 100 in
  let newBox :=
    {| id := nid; type := Arrow; page := current;
       x := fst vp; y := snd vp; w := 0; h := 0;
       ex := fst vp + 140; ey := snd vp;
       fontSize := None; fontWeight := ""; text := "";
       isEditing := false; fixedHeight := false;
       points := []; strokeWidth := 3; offsetX := 0; offsetY := 0;
       group := None; score := 0%Z; src := "" |} in
  setSelectedIds [nid] (setBoxes (fun prev => prev ++ [newBox]) st1).

End Placing.

(** [removeSelected()] (App.js 1929) *)
Definition removeSelected (r : Render) (st : Editor) : Editor :=
  setBoxes (filter (fun b => negb (includes (id b) (selectedIds r))))
           (pushHistory r st).

(** ** Move gesture ([onPointerDownBox]) *)

(** The start coordinates recorded for one selected object: the offset of
    a stroke, both endpoints of an arrow, the origin of a box.  An
    endpoint that was not recorded reads as [0], as [st.ex ?? 0] does. *)
Record Start : Set := { s_x : Q; s_y : Q; s_ex : Q; s_ey : Q }.

Definition start_of (b : Box) : Start :=
  match type b with
  | Draw => {| s_x := Js.or (offsetX b) 0; s_y := Js.or (offsetY b) 0;
               s_ex := 0; s_ey := 0 |}
  | Arrow => {| s_x := x b; s_y := y b; s_ex := ex b; s_ey := ey b |}
  | _ => {| s_x := x b; s_y := y b; s_ex := 0; s_ey := 0 |}
  end.

(** The object [starts], keyed by id; a later assignment to the same key
    replaces the earlier one, so the list is kept newest first. *)
Definition make_starts (bs : list Box) (sel : list string)
  : list (string * Start) :=
  fold_left (fun m b => if includes (id b) sel then (id b, start_of b) :: m
                        else m) bs [].

Fixpoint lookup_start (k : string) (m : list (string * Start)) : option Start :=
  match m with
  | [] => None
  | (k', v) :: r => if String.eqb k' k then Some v else lookup_start k r
  end.

(** What the [move] and [up] listeners of one move gesture capture. *)
Record MoveGesture : Set := {
  mv_sel : list string;
  mv_starts : list (string * Start);
  mv_startX : Q; mv_startY : Q;
  mv_pointerId : option Z
}.

(** [boxes.find(b => b.id === k)] *)
Definition find_box (k : string) (l : list Box) : option Box :=
  find (fun b => String.eqb (id b) k) l.

(** The ids of the objects of a group. *)
Definition grouped (gid : string) (bs : list Box) : list string :=
  map id (filter (fun b => match group b with
                           | Some g' => String.eqb g' gid
                           | None => false
                           end) bs).

(** Pointer down on an object (App.js 1650-1692).  A stroke is only
    selected.  Otherwise history is pushed, the selection is settled (the
    whole group of a grouped object), and, unless a resize is running or
    the container is gone, the start coordinates are recorded and the
    listeners installed.  [setSelectedIds] receives the old array itself
    when the object was already selected. *)
Definition onPointerDownBox (r : Render) (dom : Dom) (resizing : bool)
    (e : PointerEvent) (k : string) (st : Editor) : Editor * option MoveGesture :=
  let multi := shiftKey e || metaKey e || ctrlKey e in
  let target := find_box k (boxes r) in
  let kept := includes k (selectedIds r) in
  let baseSel := if kept then selectedIds r
                 else if multi then selectedIds r ++ [k] else [k] in
  let select_in (fresh : bool) (sel : list string) (s : Editor) :=
    if fresh then setSelectedIds sel s else s in
  match target with
  | Some t =>
      if is_draw t then (select_in (negb kept) baseSel st, None)
      else
        let st1 := pushHistory r st in
        let regroup :=
          if multi then None
          else match group t with
               | Some gid =>
                   if String.eqb gid "" then None
                   else let grp := grouped gid (boxes r) in
                        if (2 <=? List.length grp)%nat then Some grp else None
               | None => None
               end in
        let currentSel := or_default regroup baseSel in
        let fresh := match regroup with Some _ => true | None => negb kept end in
        let st2 := select_in fresh currentSel st1 in
        if resizing || negb (mounted dom) then (st2, None)
        else (st2, Some {| mv_sel := currentSel;
                           mv_starts := make_starts (boxes r) currentSel;
                           mv_startX := clientX e; mv_startY := clientY e;
                           mv_pointerId := pointerId e |})
  | None =>
      let st1 := pushHistory r st in
      let st2 := select_in (negb kept) baseSel st1 in
      if resizing || negb (mounted dom) then (st2, None)
      else (st2, Some {| mv_sel := baseSel;
                         mv_starts := make_starts (boxes r) baseSel;
                         mv_startX := clientX e; mv_startY := clientY e;
                         mv_pointerId := pointerId e |})
  end.

(** One turn of the loop over the selection in the [move] updater
    (App.js 1702-1720).
    [None] is the exception of reading a coordinate of a start record
    that does not exist. *)
Definition move_one (starts : list (string * Start)) (dx dy : Q)
    (arr : list Box) (bid : string) : option (list Box) :=
  match findIndex bid arr with
  | None => Some arr
  | Some i =>
      match nth_error arr i with
      | None => Some arr
      | Some nb =>
          match type nb with
          | Draw => Some arr
          | Arrow =>
              match lookup_start bid starts with
              | None => None
              | Some st =>
                  Some (assign i
                    (set_ey (Js.max 0 (s_ey st + dy))
                      (set_ex (Js.max 0 (s_ex st + dx))
                        (set_y (Js.max 0 (s_y st + dy))
                          (set_x (Js.max 0 (s_x st + dx)) nb)))) arr)
              end
          | _ =>
              match lookup_start bid starts with
              | None => None
              | Some st =>
                  Some (assign i
                    (set_y (Js.max 0 (s_y st + dy))
                      (set_x (Js.max 0 (s_x st + dx)) nb)) arr)
              end
          end
      end
  end.

Fixpoint move_loop (starts : list (string * Start)) (dx dy : Q)
    (sel : list string) (arr : list Box) : option (list Box) :=
  match sel with
  | [] => Some arr
  | bid :: rest =>
      match move_one starts dx dy arr bid with
      | None => None
      | Some arr' => move_loop starts dx dy rest arr'
      end
  end.

(** The updater [move] hands to [setBoxes]; an update that throws is
    dropped. *)
Definition move_update (g : MoveGesture) (ev : PointerEvent)
    (p2 : list Box) : list Box :=
  let dx := clientX ev - mv_startX g in
  let dy := clientY ev - mv_startY g in
  or_default (move_loop (mv_starts g) dx dy (mv_sel g) p2) p2.

(** The [pointermove] listener of a move gesture. *)
Definition move_move (g : MoveGesture) (ev : PointerEvent) (st : Editor)
  : Editor :=
  if other_pointer (mv_pointerId g) ev then st
  else setBoxes (move_update g ev) st.

(** The page image under the release point (vertical test only). *)
Definition drop_image (ev : PointerEvent) (l : list PageImage)
  : option PageImage :=
  find (fun el => Js.leb (top (rect el)) (clientY ev)
                  && Js.leb (clientY ev) (bottom (rect el))) l.

(** One turn of the loop over the selection in the [up] updater of the
    combined view (App.js 1755-1779). *)
Definition drop_one (dom : Dom) (starts : list (string * Start)) (dx dy : Q)
    (targetImg : PageImage) (prev next : list Box) (bid : string)
  : option (list Box) :=
  match findIndex bid next with
  | None => Some next
  | Some boxIndex =>
      match nth_error next boxIndex, find_box bid prev with
      | None, _ => Some next
      | Some _, None => None
      | Some nb, Some originalBox =>
          if is_draw originalBox then Some next
          else
            match lookup_start bid starts with
            | None => None
            | Some startBox =>
                let targetPage := dataPageIndex targetImg in
                if Z.eqb (page originalBox) targetPage then
                  Some (assign boxIndex
                          (set_y (Js.max 0 (s_y startBox + dy))
                             (set_x (Js.max 0 (s_x startBox + dx)) nb)) next)
                else
                  match find_image (page originalBox) (imgs dom) with
                  | None => Some next
                  | Some originalImg =>
                      let newX := Js.max 0 (s_x startBox + dx) in
                      let newY := Js.max 0 (top (rect originalImg) + s_y startBox
                                             + dy - top (rect targetImg)) in
                      Some (assign boxIndex
                              (set_y newY (set_x newX (set_page targetPage nb)))
                              next)
                  end
            end
      end
  end.

Fixpoint drop_loop (dom : Dom) (starts : list (string * Start)) (dx dy : Q)
    (targetImg : PageImage) (prev : list Box) (sel : list string)
    (next : list Box) : option (list Box) :=
  match sel with
  | [] => Some next
  | bid :: rest =>
      match drop_one dom starts dx dy targetImg prev next bid with
      | None => None
      | Some next' => drop_loop dom starts dx dy targetImg prev rest next'
      end
  end.

(** The updater [up] hands to [setBoxes]; an update that throws is
    dropped. *)
Definition drop_update (dom : Dom) (g : MoveGesture) (ev : PointerEvent)
    (targetImg : PageImage) (prev : list Box) : list Box :=
  let dx := clientX ev - mv_startX g in
  let dy := clientY ev - mv_startY g in
  or_default (drop_loop dom (mv_starts g) dx dy targetImg prev (mv_sel g) prev)
             prev.

(** The [pointerup] listener of a move gesture: in the combined view the
    moved objects are re-based on the page under the release point. *)
Definition move_up (combinePages : bool) (dom : Dom) (g : MoveGesture)
    (ev : PointerEvent) (st : Editor) : Editor * bool :=
  if other_pointer (mv_pointerId g) ev then (st, false)
  else if combinePages && mounted dom then
    match drop_image ev (imgs dom) with
    | None => (st, true)
    | Some targetImg =>
        (setBoxes (drop_update dom g ev targetImg) st, true)
    end
  else (st, true).

(** ** Keyboard shortcuts ([onKey]) *)

Record KeyEvent : Set := {
  key : string;
  k_shiftKey : bool; k_metaKey : bool; k_ctrlKey : bool
}.

(** [String(e.key).toLowerCase()], on the letters of the shortcuts. *)
Definition lower_ascii (c : ascii) : ascii :=
  let n := nat_of_ascii c in
  if ((65 <=? n) && (n <=? 90))%nat then ascii_of_nat (n + 32) else c.

Fixpoint toLowerCase (s : string) : string :=
  match s with
  | EmptyString => EmptyString
  | String c r => String (lower_ascii c) (toLowerCase r)
  end.

(** [toggleBold()] *)
Definition toggleBold (r : Render) (st : Editor) : Editor :=
  match selectedIds r with
  | [] => st
  | _ =>
      setBoxes (map (fun b =>
                  if includes (id b) (selectedIds r)
                  then set_fontWeight
                         (if String.eqb (fontWeight b) "bold" then "normal"
                          else "bold") b
                  else b)) st
  end.

(** Copy: a clone of the selected objects goes to the clipboard slot. *)
Definition copySelection (r : Render) (st : Editor) : Editor :=
  {| st_boxes := st_boxes st; st_selectedIds := st_selectedIds st;
     selStamp := selStamp st; historyRef := historyRef st;
     redoRef := redoRef st;
     clipboard := json_clone (filter (fun b => includes (id b) (selectedIds r))
                                     (boxes r)) |}.

(** One pasted clone: a new id and a shift by 20; a stroke is shifted
    through its offset, an arrow at both endpoints. *)
Definition paste_clone (nid : string) (b : Box) : Box :=
  let off := 20 in
  let nb := set_id nid (json_clone_box b) in
  match type nb with
  | Draw => set_offset (Js.or (offsetX nb) 0 + off) (Js.or (offsetY nb) 0 + off) nb
  | Arrow => set_ey (ey nb + off) (set_ex (ex nb + off)
               (set_y (y nb + off) (set_x (x nb + off) nb)))
  | _ => set_y (Js.or (y nb) 0 + off) (set_x (Js.or (x nb) 0 + off) nb)
  end.

(** [clip.map(b => ...)]; [fresh i] is the id generated for the [i]-th
    clone. *)
Fixpoint paste_clones (fresh : nat -> string) (i : nat) (clip : list Box)
  : list Box :=
  match clip with
  | [] => []
  | b :: rest => paste_clone (fresh i) b :: paste_clones fresh (S i) rest
  end.

(** Paste. *)
Definition paste (fresh : nat -> string) (st : Editor) : Editor :=
  match clipboard st with
  | [] => st
  | clip =>
      let cloned := paste_clones fresh O clip in
      setSelectedIds (map id cloned)
        (setBoxes (fun prev => prev ++ cloned) st)
  end.

(** The arrow keys: the selected objects move by one step. *)
Definition nudge (r : Render) (e : KeyEvent) (st : Editor) : Editor :=
  let step := if k_shiftKey e then 10 else 1 in
  setBoxes (map (fun b =>
    if negb (includes (id b) (selectedIds r)) then b
    else if String.eqb (key e) "ArrowUp" then set_y (Js.max 0 (y b - step)) b
    else if String.eqb (key e) "ArrowDown" then set_y (y b + step) b
    else if String.eqb (key e) "ArrowLeft" then set_x (Js.max 0 (x b - step)) b
    else if String.eqb (key e) "ArrowRight" then set_x (x b + step) b
    else b)) st.

(** The [keydown] listener (App.js 1954-2025).  [placing] is [placeMode],
    [inTextarea] whether a text area has the focus; [r] is the render the
    listener was created in. *)
Definition onKey (r : Render) (fresh : nat -> string)
    (placing inTextarea : bool) (e : KeyEvent) (st : Editor) : Editor :=
  let cmd := k_metaKey e || k_ctrlKey e in
  let k := toLowerCase (key e) in
  if String.eqb (key e) "Escape" && placing then st
  else if inTextarea then st
  else match selectedIds r with
       | [] => st
       | _ =>
           if cmd && String.eqb k "b" then toggleBold r st
           else if cmd && String.eqb k "z" then
             if k_shiftKey e then redo r st else undo r st
           else if cmd && String.eqb k "c" then copySelection r st
           else if cmd && String.eqb k "v" then paste fresh st
           else if String.eqb (key e) "Delete" || String.eqb (key e) "Backspace"
           then removeSelected r st
           else nudge r e st
       end.

(** The undo and redo shortcuts, as the listener tests them. *)
Definition undo_shortcut (e : KeyEvent) : bool :=
  (k_metaKey e || k_ctrlKey e) && String.eqb (toLowerCase (key e)) "z"
  && negb (k_shiftKey e).

Definition redo_shortcut (e : KeyEvent) : bool :=
  (k_metaKey e || k_ctrlKey e) && String.eqb (toLowerCase (key e)) "z"
  && k_shiftKey e.

(** ** The session: events and the keyboard effect *)

(** The [keydown] listener is installed by an effect whose dependency
    array is [[selectedIds]] (App.js 1953-2028): it is replaced by one
    built in the current render only when the selection array changed,
    and otherwise keeps the render it was created in.  [keyStamp] is the
    selection stamp that render saw.  [moving] and [resizing] are the
    window listeners of the gesture under way (one of each kind at a
    time), [resizingRef] is the ref of that name. *)
Record Session : Set := {
  store : Editor;
  keyRender : Render;
  keyStamp : nat;
  moving : option MoveGesture;
  resizing : option ResizeGesture;
  resizingRef : bool
}.

(** Mounting the editor on a store. *)
Definition mount (st : Editor) : Session :=
  {| store := st; keyRender := render st; keyStamp := selStamp st;
     moving := None; resizing := None; resizingRef := false |}.

(** After an event React renders the new state and runs the effects whose
    dependencies changed. *)
Definition commit (st : Editor) (mv : option MoveGesture)
    (rz : option ResizeGesture) (rref : bool) (s : Session) : Session :=
  if Nat.eqb (selStamp st) (keyStamp s) then
    {| store := st; keyRender := keyRender s; keyStamp := keyStamp s;
       moving := mv; resizing := rz; resizingRef := rref |}
  else
    {| store := st; keyRender := render st; keyStamp := selStamp st;
       moving := mv; resizing := rz; resizingRef := rref |}.

Inductive Event : Set :=
| PointerDownBox (e : PointerEvent) (k : string)
| ResizeDown (e : PointerEvent) (k : string) (corner : Corner)
| PointerMove (ev : PointerEvent)
| PointerUp (ev : PointerEvent)
| KeyDown (placing inTextarea : bool) (e : KeyEvent)
| ClickUndo
| ClickRedo
| ClickRemoveSelected.

Section Stepping.

Variable dom : Dom.
Variable combinePages : bool.
Variable textRefs : string -> option Q.
Variable fresh : nat -> string.

(** One event of the session.  Handlers attached in JSX read the current
    render; the key listener reads [keyRender]; the window listeners of a
    gesture read what the gesture captured. *)
Definition step (s : Session) (ev : Event) : Session :=
  let st := store s in
  match ev with
  | PointerDownBox e k =>
      let '(st', g) := onPointerDownBox (render st) dom (resizingRef s) e k st in
      commit st' (match g with Some _ => g | None => moving s end)
             (resizing s) (resizingRef s) s
  | ResizeDown e k corner =>
      let '(st', g) := onResizeDown (render st) e k corner st in
      commit st' (moving s) (match g with Some _ => g | None => resizing s end)
             true s
  | PointerMove e =>
      let st1 := match moving s with
                 | Some g => move_move g e st
                 | None => st
                 end in
      let st2 := match resizing s with
                 | Some g => resize_move dom g e st1
                 | None => st1
                 end in
      commit st2 (moving s) (resizing s) (resizingRef s) s
  | PointerUp e =>
      let '(st1, mv) :=
        match moving s with
        | Some g => let '(st', ended) := move_up combinePages dom g e st in
                    (st', if ended then None else Some g)
        | None => (st, None)
        end in
      let '(st2, rz, rref) :=
        match resizing s with
        | Some g => let '(st', ended) := resize_up textRefs g e st1 in
                    (st', if ended then None else Some g,
                     if ended then false else resizingRef s)
        | None => (st1, None, resizingRef s)
        end in
      commit st2 mv rz rref s
  | KeyDown placing inTextarea e =>
      commit (onKey (keyRender s) fresh placing inTextarea e st)
             (moving s) (resizing s) (resizingRef s) s
  | ClickUndo =>
      commit (toolbarUndo st) (moving s) (resizing s) (resizingRef s) s
  | ClickRedo =>
      commit (toolbarRedo st) (moving s) (resizing s) (resizingRef s) s
  | ClickRemoveSelected =>
      commit (removeSelected (render st) st) (moving s) (resizing s)
             (resizingRef s) s
  end.

Definition run (s : Session) (evs : list Event) : Session :=
  fold_left step evs s.

End Stepping.

(** ** Stroke cache and eraser *)

(** The per-page cache of strokes: an effect rebuilds it from the
    collection whenever the collection changes, copying the sample points
    (App.js 1022-1036). *)
Definition cache_copy (b : Box) : Box :=
  {| id := id b; type := type b; page := page b; x := x b; y := y b; w := w b;
     h := h b; ex := ex b; ey := ey b; fontSize := fontSize b;
     fontWeight := fontWeight b; text := text b; isEditing := isEditing b;
     fixedHeight := fixedHeight b; points := map json_clone_point (points b);
     strokeWidth := strokeWidth b; offsetX := offsetX b; offsetY := offsetY b;
     group := group b; score := score b; src := src b |}.

Definition StrokeCache : Set := Z -> list Box.

Definition build_cache (bs : list Box) : StrokeCache :=
  fun pageIdx =>
    map cache_copy (filter (fun b => is_draw b && Z.eqb (page b) pageIdx) bs).

(** The erase radius and its square. *)
Definition rad : Q := 12.
Definition rad2 : Q := rad * rad.

(** Whether some sample of the stroke, shifted by the stroke's offset,
    lies within the radius of [(ex0, ey0)]. *)
Definition intersects (ex0 ey0 : Q) (stroke : Box) : bool :=
  let offX := Js.or (offsetX stroke) 0 in
  let offY := Js.or (offsetY stroke) 0 in
  existsb (fun p =>
             let dx := (px p + offX) - ex0 in
             let dy := (py p + offY) - ey0 in
             Js.leb (dx * dx + dy * dy) rad2)
          (points stroke).

(** [eraseStrokeAt(pageIdx, x, y)] (App.js 958-980): the new cache, the
    new store and the returned flag. *)
Definition eraseStrokeAt (cache : StrokeCache) (pageIdx : Z) (ex0 ey0 : Q)
    (st : Editor) : StrokeCache * Editor * bool :=
  let strokes := cache pageIdx in
  match strokes with
  | [] => (cache, st, false)
  | _ =>
      let kept := filter (fun s => negb (intersects ex0 ey0 s)) strokes in
      let removedIds := map id (filter (intersects ex0 ey0) strokes) in
      match removedIds with
      | [] => (cache, st, false)
      | _ =>
          (fun p => if Z.eqb p pageIdx then kept else cache p,
           setBoxes (filter (fun b => negb (is_draw b && includes (id b) removedIds))) st,
           true)
      end
  end.

(** One erase step on a store whose cache is the one the effect built
    from it. *)
Definition erase_at (pageIdx : Z) (ex0 ey0 : Q) (st : Editor) : Editor :=
  snd (fst (eraseStrokeAt (build_cache (st_boxes st)) pageIdx ex0 ey0 st)).

(** ** Suggestions of the layout service *)

(** One entry of [data.placements]: coordinates in the pixel space of the
    source raster of its page, whose size is [page_w] by [page_h]. *)
Record Placement : Set := {
  p_type : string;
  p_page : Z;
  p_x : Q; p_y : Q; p_w : Q; p_h : Q;
  page_w : Q; page_h : Q;
  p_text : string;
  p_qid : option string;
  ctype : string;
  p_points : option Z;
  confidence : option Q
}.

(** [r.width || img.clientWidth || img.naturalWidth || 1] over
    [p.page_w || 1], and the same vertically. *)
Definition scaleX (img : PageImage) (p : Placement) : Q :=
  Js.or (width (rect img)) (Js.or (clientWidth img) (Js.or (naturalWidth img) 1))
  / Js.or (page_w p) 1.

Definition scaleY (img : PageImage) (p : Placement) : Q :=
  Js.or (height (rect img)) (Js.or (clientHeight img) (Js.or (naturalHeight img) 1))
  / Js.or (page_h p) 1.

(** The offset of a page image inside its wrapper. *)
Definition offX (img : PageImage) : Q :=
  left (rect img) - left (or_default (wrapRect img) (rect img)).
Definition offY (img : PageImage) : Q :=
  top (rect img) - top (or_default (wrapRect img) (rect img)).

(** One overlay rectangle of [fetchSpatialRects]. *)
Record SpatialRect : Set := {
  sr_page : Z;
  sr_left : Q; sr_top : Q; sr_width : Q; sr_height : Q;
  sr_text : string;
  sr_confidence : option Q
}.

Definition spatial_rect (img : PageImage) (p : Placement) : SpatialRect :=
  {| sr_page := p_page p;
     sr_left := offX img + Js.or (p_x p) 0 * scaleX img p;
     sr_top := offY img + Js.or (p_y p) 0 * scaleY img p;
     sr_width := Js.or (p_w p) 0 * scaleX img p;
     sr_height := Js.or (p_h p) 0 * scaleY img p;
     sr_text := p_text p;
     sr_confidence := confidence p |}.

(** The loop of [fetchSpatialRects] (App.js 2346-2364): a suggestion whose
    page has no image is left out. *)
Definition spatial_rects (dom : Dom) (placements : list Placement)
  : list SpatialRect :=
  if mounted dom then
    flat_map (fun p => match find_image (p_page p) (imgs dom) with
                       | Some img => [spatial_rect img p]
                       | None => []
                       end) placements
  else [].

(** ** Auto-layout ([runAutoLayout]) *)

(** Keys of a JavaScript object are enumerated with the canonical array
    indices first, in increasing order, then the other strings in the
    order of their creation. *)
Definition digit_of (c : ascii) : option N :=
  let n := N_of_ascii c in
  if ((48 <=? n) && (n <=? 57))%N then Some (n - 48)%N else None.

Fixpoint digits_value (s : string) (acc : N) : option N :=
  match s with
  | EmptyString => Some acc
  | String c r =>
      match digit_of c with
      | Some d => digits_value r (acc * 10 + d)%N
      | None => None
      end
  end.

Definition array_index (s : string) : option N :=
  match s with
  | EmptyString => None
  | String c r =>
      if Ascii.eqb c "0" && negb (String.eqb r "") then None
      else match digits_value s 0%N with
           | Some n => if (n <? 4294967295)%N then Some n else None
           | None => None
           end
  end.

Section Entries.

Variable V : Type.

Fixpoint insert_index (n : N) (kv : string * V) (l : list (N * (string * V)))
  : list (N * (string * V)) :=
  match l with
  | [] => [(n, kv)]
  | (m, kv') :: r => if (n <? m)%N then (n, kv) :: l
                     else (m, kv') :: insert_index n kv r
  end.

(** [Object.entries(o)] of an object whose keys were created in the order
    of the list [o]. *)
Definition object_entries (o : list (string * V)) : list (string * V) :=
  let indexed :=
    fold_left (fun acc kv => match array_index (fst kv) with
                             | Some n => insert_index n kv acc
                             | None => acc
                             end) o [] in
  map snd indexed
  ++ filter (fun kv => match array_index (fst kv) with
                       | Some _ => false
                       | None => true
                       end) o.

Fixpoint object_get (k : string) (o : list (string * V)) : option V :=
  match o with
  | [] => None
  | (k', v) :: r => if String.eqb k' k then Some v else object_get k r
  end.

(** [o[k] = v]: an existing key keeps its place. *)
Fixpoint object_set (k : string) (v : V) (o : list (string * V))
  : list (string * V) :=
  match o with
  | [] => [(k, v)]
  | (k', v') :: r => if String.eqb k' k then (k, v) :: r
                     else (k', v') :: object_set k v r
  end.

End Entries.

Arguments object_entries {V} o.
Arguments object_get {V} k o.
Arguments object_set {V} k v o.

(** An entry of [firstCommentTopByQ]. *)
Record TopPos : Set := { tp_idx : Z; tp_y : Q; tp_offX : Q }.

(** [setBoxes(prev => prev.map(b => b.id === k ? f b : b))] *)
Definition update_by_id (k : string) (f : Box -> Box) (l : list Box) : list Box :=
  map (fun b => if String.eqb (id b) k then f b else b) l.

(** The state of the run between two suggestions: the store, the number
    of ids generated so far, the top-most comment of every question and
    the ids placed. *)
Record LayoutRun : Set := {
  lr_store : Editor;
  lr_count : nat;
  lr_tops : list (string * TopPos);
  lr_placed : list string
}.

Definition auto_opts : Opts :=
  {| select := false; edit := false; o_fontSize := None;
     o_fixedHeight := false; o_page := None;
     o_x := None; o_y := None; o_w := None; o_h := None |}.

Section AutoLayout.

Variable dom : Dom.
Variable current : Z.
Variable sanitizeReviewText : string -> string.
(** The label [awarded/max] of a question, read from the review. *)
Variable label : string -> string.
(** [fresh n] is the [n]-th id generated during the run. *)
Variable fresh : nat -> string.
(** The render [runAutoLayout] was created in. *)
Variable r : Render.

(** The image of the page a suggestion names. *)
Definition resolve (p : Placement) : option PageImage :=
  if mounted dom then find_image (p_page p) (imgs dom) else None.

(** Where the comment of a suggestion goes: to the right of the detected
    region, clamped into the page. *)
Definition comment_xy (img : PageImage) (p : Placement) : Q * Q :=
  let margin := 8 in
  let bx := Js.or (p_x p) 0 * scaleX img p in
  let by_ := Js.or (p_y p) 0 * scaleY img p in
  let bw := Js.or (p_w p) 0 * scaleX img p in
  let x0 := offX img + bx + Js.max 12 (bw + margin) in
  let y0 := offY img + by_ in
  let maxX := Js.or (width (rect img)) 0 - 20 in
  let maxY := Js.or (height (rect img)) 0 - 20 in
  (Js.max 0 (Js.min x0 maxX), Js.max 0 (Js.min y0 maxY)).

(** The body of [placements.forEach] (App.js 2188-2230). *)
Definition place_one (run : LayoutRun) (p : Placement) : LayoutRun :=
  if negb (String.eqb (p_type p) "text") then run
  else
    match resolve p with
    | None => run
    | Some img =>
        let idx := p_page p in
        let '(x1, y1) := comment_xy img p in
        let nid := fresh (lr_count run) in
        let st1 := addBox dom current sanitizeReviewText r nid (p_text p)
                          auto_opts (lr_store run) in
        let st2 := setBoxes (update_by_id nid (fun b =>
                     set_h 100 (set_w 360 (set_y y1 (set_x x1 (set_page idx b))))))
                     st1 in
        let tops :=
          match p_qid p with
          | Some qid =>
              if String.eqb qid "" then lr_tops run
              else match object_get qid (lr_tops run) with
                   | Some cur =>
                       if Js.ltb y1 (tp_y cur)
                       then object_set qid {| tp_idx := idx; tp_y := y1;
                                              tp_offX := offX img |} (lr_tops run)
                       else lr_tops run
                   | None => object_set qid {| tp_idx := idx; tp_y := y1;
                                               tp_offX := offX img |} (lr_tops run)
                   end
          | None => lr_tops run
          end in
        match (if String.eqb (ctype p) "score" then p_points p else None) with
        | Some pts =>
            let fs := 18 in
            let markerH := Js.round (fs * (16 # 10)) in
            let sx := Js.max 0 (x1 - 64) in
            let sy := Js.max 0 (y1 + 100 - markerH) in
            let sid := fresh (S (lr_count run)) in
            let st3 := addScoreMarker dom current r sid pts auto_opts st2 in
            let st4 := setBoxes (update_by_id sid (fun b =>
                         set_fontSize (Some fs)
                           (set_y sy (set_x sx (set_page idx b))))) st3 in
            {| lr_store := st4; lr_count := S (S (lr_count run));
               lr_tops := tops; lr_placed := lr_placed run ++ [nid; sid] |}
        | None =>
            {| lr_store := st2; lr_count := S (lr_count run);
               lr_tops := tops; lr_placed := lr_placed run ++ [nid] |}
        end
    end.

(** The body of the loop over [Object.entries(firstCommentTopByQ)]
    (App.js 2235-2246). *)
Definition place_label (run : LayoutRun) (e : string * TopPos) : LayoutRun :=
  let '(qid, pos) := e in
  let y1 := Js.max 0 (tp_y pos - 26) in
  let x1 := Js.max 0 (Js.or (tp_offX pos) 0 + 20) in
  let nid := fresh (lr_count run) in
  let st1 := addBox dom current sanitizeReviewText r nid (label qid)
                    auto_opts (lr_store run) in
  let st2 := setBoxes (update_by_id nid (fun b =>
               set_fixedHeight true (set_fontSize (Some 16)
                 (set_h 24 (set_w 120 (set_y y1 (set_x x1
                   (set_page (tp_idx pos) b)))))))) st1 in
  {| lr_store := st2; lr_count := S (lr_count run);
     lr_tops := lr_tops run; lr_placed := lr_placed run ++ [nid] |}.

(** [runAutoLayout], from the reply of the layout service on
    (App.js 2178-2247). *)
Definition runAutoLayout (placements : list Placement) (st : Editor)
  : LayoutRun :=
  match placements with
  | [] => {| lr_store := st; lr_count := O; lr_tops := []; lr_placed := [] |}
  | _ =>
      let run0 := {| lr_store := pushHistory r st; lr_count := O;
                     lr_tops := []; lr_placed := [] |} in
      let run1 := fold_left place_one placements run0 in
      fold_left place_label (object_entries (lr_tops run1)) run1
  end.

End AutoLayout.

(** ** Predicates of the statements *)

(** An object that differs from another at most in its endpoint
    coordinates [x], [y], [ex], [ey]. *)
Definition same_but_endpoints (b b' : Box) : Prop :=
  b' = set_ey (ey b') (set_ex (ex b') (set_y (y b') (set_x (x b') b))).

(** A stroke of page [pageIdx] that the erase point touches. *)
Definition hit (pageIdx : Z) (ex0 ey0 : Q) (b : Box) : bool :=
  is_draw b && Z.eqb (page b) pageIdx && intersects ex0 ey0 b.

(** What identifies a stroke and gives it its shape: none of it differs
    between the two objects. *)
Definition stroke_data_kept (b b' : Box) : Prop :=
  id b' = id b /\ type b' = type b /\ points b' = points b /\
  strokeWidth b' = strokeWidth b /\
  offsetX b' = offsetX b /\ offsetY b' = offsetY b.

(** The same, and a stroke is not touched at all. *)
Definition stroke_untouched (b b' : Box) : Prop :=
  stroke_data_kept b b' /\ (is_draw b = true -> b' = b).

(** The same, and an object the operation does not address is not touched
    at all. *)
Definition kept_outside (addressed : Box -> bool) (b b' : Box) : Prop :=
  stroke_data_kept b b' /\ (addressed b = false -> b' = b).

(** A pasted clone has the kind, the sample points and the width of the
    clipboard object it was made from. *)
Definition clone_of (c c' : Box) : Prop :=
  type c' = type c /\ points c' = points c /\ strokeWidth c' = strokeWidth c.

(** Whether [runAutoLayout] finds the page image of a suggestion, whether
    it places the suggestion (a text entry with a page image), and
    whether the suggestion carries a score. *)
Definition resolvable (dom : Dom) (p : Placement) : bool :=
  match resolve dom p with Some _ => true | None => false end.

Definition placeable (dom : Dom) (p : Placement) : bool :=
  String.eqb (p_type p) "text" && resolvable dom p.

Definition scored (p : Placement) : bool :=
  String.eqb (ctype p) "score"
  && match p_points p with Some _ => true | None => false end.

(** Kind and text of an object, and what a suggestion and a question
    label add to the collection, by kind and text. *)
Definition kind_text (b : Box) : BoxType * string := (type b, text b).

Definition created (dom : Dom) (san : string -> string) (p : Placement)
  : list (BoxType * string) :=
  if placeable dom p then
    (NoType, san (p_text p)) :: (if scored p then [(Score, "")] else [])
  else [].

Definition label_created (san label : string -> string) (e : string * TopPos)
  : BoxType * string :=
  (NoType, san (label (fst e))).

(** What a run has done so far, relative to the store [st] it started
    from and the render [r] it captured: the objects appended, by kind
    and text and by id; one snapshot of the captured collection per
    object, on top of the one pushed at the start; an empty redo stack
    and the selection of the start. *)
Definition run_adds (r : Render) (st : Editor) (run : LayoutRun)
    (added : list (BoxType * string)) : Prop :=
  map kind_text (st_boxes (lr_store run))
  = map kind_text (st_boxes st) ++ added /\
  map id (st_boxes (lr_store run)) = map id (st_boxes st) ++ lr_placed run /\
  historyRef (lr_store run)
  = repeat (boxes r) (S (List.length (lr_placed run))) ++ historyRef st /\
  redoRef (lr_store run) = [] /\
  st_selectedIds (lr_store run) = st_selectedIds st.

(** ** Sample data *)

Module Sample.

Definition identity (s : string) : string := s.

Definition fresh (n : nat) : string :=
  match n with
  | O => "n_0" | 1%nat => "n_1" | 2%nat => "n_2" | 3%nat => "n_3"
  | _ => "n_4"
  end.

Definition no_text_area (k : string) : option Q := None.

(** An unmounted container, and a single rendered page of 800 by 1000
    whose image sits 10 pixels inside its wrapper. *)
Definition no_dom : Dom :=
  {| mounted := false; scrollLeft := 0; scrollTop := 0; imgs := [] |}.

Definition page0 : PageImage :=
  {| dataPageIndex := 0;
     rect := {| left := 10; top := 10; width := 800; height := 1000 |};
     clientWidth := 800; clientHeight := 1000;
     naturalWidth := 1600; naturalHeight := 2000;
     wrapRect := Some {| left := 0; top := 0; width := 820; height := 1020 |} |}.

Definition one_page : Dom :=
  {| mounted := true; scrollLeft := 0; scrollTop := 0; imgs := [page0] |}.

Definition empty_store : Editor :=
  {| st_boxes := []; st_selectedIds := []; selStamp := 0;
     historyRef := []; redoRef := []; clipboard := [] |}.

(** A pointer event of pointer 1 without modifiers. *)
Definition at_ (cx cy : Q) : PointerEvent :=
  {| clientX := cx; clientY := cy; pointerId := Some 1%Z;
     shiftKey := false; metaKey := false; ctrlKey := false |}.

Definition ctrl (k : string) (shift : bool) : KeyEvent :=
  {| key := k; k_shiftKey := shift; k_metaKey := false; k_ctrlKey := true |}.

(** The comment box of the scenario: 240 by 100 at (40, 40) on page 0. *)
Definition place_at_40_40 : Opts :=
  {| select := true; edit := false; o_fontSize := None;
     o_fixedHeight := false; o_page := Some 0%Z;
     o_x := Some 40; o_y := Some 40; o_w := None; o_h := None |}.

Definition with_comment : Editor :=
  addBox no_dom 0 identity (render empty_store) "b_1" "+5 correct"
         place_at_40_40 empty_store.

Definition comment : Box :=
  {| id := "b_1"; type := NoType; page := 0; x := 40; y := 40;
     w := 240; h := 100; ex := 0; ey := 0;
     fontSize := Some 14; fontWeight := "bold"; text := "+5 correct";
     isEditing := false; fixedHeight := false;
     points := []; strokeWidth := 0; offsetX := 0; offsetY := 0;
     group := None; score := 0%Z; src := "" |}.

(** A line of thickness 3 from x = 5 to x = 105. *)
Definition line : Box :=
  {| id := "ln_1"; type := Line; page := 0; x := 5; y := 50;
     w := 100; h := 3; ex := 0; ey := 0;
     fontSize := None; fontWeight := ""; text := "";
     isEditing := false; fixedHeight := false;
     points := []; strokeWidth := 0; offsetX := 0; offsetY := 0;
     group := None; score := 0%Z; src := "" |}.

Definition arrow : Box :=
  {| id := "ar_1"; type := Arrow; page := 0; x := 100; y := 100;
     w := 0; h := 0; ex := 240; ey := 100;
     fontSize := None; fontWeight := ""; text := "";
     isEditing := false; fixedHeight := false;
     points := []; strokeWidth := 3; offsetX := 0; offsetY := 0;
     group := None; score := 0%Z; src := "" |}.

(** The stroke of the scenario: three samples on page 0. *)
Definition stroke : Box :=
  {| id := "d_1"; type := Draw; page := 0; x := 0; y := 0;
     w := 0; h := 0; ex := 0; ey := 0;
     fontSize := None; fontWeight := ""; text := "";
     isEditing := false; fixedHeight := false;
     points := [ {| px := 0; py := 0 |}; {| px := 10; py := 0 |};
                 {| px := 10; py := 10 |} ];
     strokeWidth := 3; offsetX := 0; offsetY := 0;
     group := None; score := 0%Z; src := "" |}.

(** A second stroke, far from the first. *)
Definition far_stroke : Box :=
  {| id := "d_2"; type := Draw; page := 0; x := 0; y := 0;
     w := 0; h := 0; ex := 0; ey := 0;
     fontSize := None; fontWeight := ""; text := "";
     isEditing := false; fixedHeight := false;
     points := [ {| px := 300; py := 300 |} ];
     strokeWidth := 3; offsetX := 0; offsetY := 0;
     group := None; score := 0%Z; src := "" |}.

Definition store_of (bs : list Box) (sel : list string) : Editor :=
  {| st_boxes := bs; st_selectedIds := sel; selStamp := 0;
     historyRef := []; redoRef := []; clipboard := [] |}.

(** The gesture a pointer-down at [(cx, cy)] on a handle of [b] starts. *)
Definition grab (b : Box) (corner : Corner) (cx cy : Q) : ResizeGesture :=
  {| rz_id := id b; rz_corner := corner; rz_startX := cx; rz_startY := cy;
     rz_pointerId := Some 1%Z; rz_startBox := b |}.

(** A suggestion that covers the whole source raster of page 0, 1240 by
    1754 pixels. *)
Definition whole_page : Placement :=
  {| p_type := "text"; p_page := 0; p_x := 0; p_y := 0;
     p_w := 1240; p_h := 1754; page_w := 1240; page_h := 1754;
     p_text := "ok"; p_qid := None; ctype := "comment";
     p_points := None; confidence := None |}.

(** A store whose clipboard holds the comment box, after a copy. *)
Definition after_copy : Editor :=
  copySelection {| boxes := [comment]; selectedIds := ["b_1"] |}
                (store_of [comment] ["b_1"]).

(** The comment box after a move by (10, 20). *)
Definition moved_comment : Box := set_y 60 (set_x 50 comment).

(** Pointer down on the comment box, a drag by (10, 20), release. *)
Definition drag_comment : list Event :=
  [PointerDownBox (at_ 100 100) "b_1"; PointerMove (at_ 110 120);
   PointerUp (at_ 110 120)].

Definition session (evs : list Event) : Session :=
  run one_page false no_text_area fresh (mount (store_of [comment] [])) evs.

Definition key_undo : Event := KeyDown false false (ctrl "z" false).
Definition key_redo : Event := KeyDown false false (ctrl "z" true).
Definition key_delete : Event :=
  KeyDown false false
    {| key := "Delete"; k_shiftKey := false; k_metaKey := false;
       k_ctrlKey := false |}.

Definition key_copy : Event := KeyDown false false (ctrl "c" false).
Definition key_paste : Event := KeyDown false false (ctrl "v" false).

(** Drag the comment box, undo with the toolbar button, copy. *)
Definition before_paste : Session :=
  session (drag_comment ++ [ClickUndo; key_copy]).

(** Suggestions: a comment on page 0, a comment on a page that has no
    image, an entry of type score on page 0, and a score-type comment of
    question 1 on page 0. *)
Definition on_page0 : Placement :=
  {| p_type := "text"; p_page := 0; p_x := 100; p_y := 200;
     p_w := 300; p_h := 80; page_w := 1600; page_h := 2000;
     p_text := "good"; p_qid := None; ctype := "comment";
     p_points := None; confidence := None |}.

Definition on_page7 : Placement :=
  {| p_type := "text"; p_page := 7; p_x := 100; p_y := 200;
     p_w := 300; p_h := 80; page_w := 1600; page_h := 2000;
     p_text := "lost"; p_qid := None; ctype := "comment";
     p_points := None; confidence := None |}.

Definition score_entry : Placement :=
  {| p_type := "score"; p_page := 0; p_x := 100; p_y := 200;
     p_w := 300; p_h := 80; page_w := 1600; page_h := 2000;
     p_text := ""; p_qid := None; ctype := "score";
     p_points := Some 2%Z; confidence := None |}.

Definition scored_comment : Placement :=
  {| p_type := "text"; p_page := 0; p_x := 100; p_y := 600;
     p_w := 300; p_h := 80; page_w := 1600; page_h := 2000;
     p_text := "+2"; p_qid := Some "1"; ctype := "score";
     p_points := Some 2%Z; confidence := None |}.

Definition label (qid : string) : string := "2/5".

(** An auto-layout run on the empty collection of [one_page]. *)
Definition layout (ps : list Placement) : LayoutRun :=
  runAutoLayout one_page 0 identity label fresh (render empty_store) ps
                empty_store.

End Sample.

(** ** Predicates of the further properties *)

(** A pasted clone: the clipboard object under another id, shifted by 20
    in both directions; a stroke through its offset, an arrow at both
    endpoints. *)
Definition shifted_clone (c c' : Box) : Prop :=
  match type c with
  | Draw =>
      c' = set_offset (offsetX c') (offsetY c') (set_id (id c') c) /\
      offsetX c' == offsetX c + 20 /\ offsetY c' == offsetY c + 20
  | Arrow =>
      c' = set_ey (ey c') (set_ex (ex c') (set_y (y c') (set_x (x c')
             (set_id (id c') c)))) /\
      x c' == x c + 20 /\ y c' == y c + 20 /\
      ex c' == ex c + 20 /\ ey c' == ey c + 20
  | _ =>
      c' = set_y (y c') (set_x (x c') (set_id (id c') c)) /\
      x c' == x c + 20 /\ y c' == y c + 20
  end.

(** An object that differs from another at most in [x], respectively in
    [y]. *)
Definition same_but_x (b b' : Box) : Prop := b' = set_x (x b') b.
Definition same_but_y (b b' : Box) : Prop := b' = set_y (y b') b.

(** A key event without the command modifiers. *)
Definition plain_key (k : string) (shift : bool) : KeyEvent :=
  {| key := k; k_shiftKey := shift; k_metaKey := false; k_ctrlKey := false |}.

(** Where a move event puts one object: at its start coordinates plus the
    pointer delta, not below 0; a stroke, and an object without a start
    record, stay. *)
Definition moved (starts : list (string * Start)) (dx dy : Q) (b : Box) : Box :=
  match type b, lookup_start (id b) starts with
  | Draw, _ => b
  | _, None => b
  | Arrow, Some st =>
      set_ey (Js.max 0 (s_ey st + dy))
        (set_ex (Js.max 0 (s_ex st + dx))
          (set_y (Js.max 0 (s_y st + dy))
            (set_x (Js.max 0 (s_x st + dx)) b)))
  | _, Some st =>
      set_y (Js.max 0 (s_y st + dy)) (set_x (Js.max 0 (s_x st + dx)) b)
  end.

Definition move_elem (starts : list (string * Start)) (dx dy : Q)
    (sel : list string) (b : Box) : Box :=
  if includes (id b) sel then moved starts dx dy b else b.

(** Two objects with the same id and kind. *)
Definition same_key (b b' : Box) : Prop := id b' = id b /\ type b' = type b.


(** An object none of whose coordinates is negative, a collection of such
    objects, and a session all of whose collections are such: the one of
    the store, the snapshots of both stacks, the clipboard, the one the
    key listener captured and the start box of a resize under way. *)
Definition nonneg (b : Box) : Prop :=
  0 <= x b /\ 0 <= y b /\ 0 <= ex b /\ 0 <= ey b.

Definition store_nonneg (st : Editor) : Prop :=
  Forall nonneg (st_boxes st) /\
  Forall (Forall nonneg) (historyRef st) /\
  Forall (Forall nonneg) (redoRef st) /\
  Forall nonneg (clipboard st).

Definition session_nonneg (s : Session) : Prop :=
  store_nonneg (store s) /\
  Forall nonneg (boxes (keyRender s)) /\
  match resizing s with
  | Some g => nonneg (rz_startBox g)
  | None => True
  end.



(** Where the release of a move gesture over the page image [targetImg]
    puts one object in the combined view: on its own page at its start
    coordinates plus the pointer delta; from another page, whose image is
    [originalImg], on the target page, its [y] re-based from the top of
    the one image to the top of the other; nothing below 0.  A stroke, an
    object without a start record and an object whose page has no image
    stay. *)
Definition dropped (dom : Dom) (starts : list (string * Start)) (dx dy : Q)
    (targetImg : PageImage) (b : Box) : Box :=
  if is_draw b then b
  else
    match lookup_start (id b) starts with
    | None => b
    | Some startBox =>
        if Z.eqb (page b) (dataPageIndex targetImg) then
          set_y (Js.max 0 (s_y startBox + dy))
                (set_x (Js.max 0 (s_x startBox + dx)) b)
        else
          match find_image (page b) (imgs dom) with
          | None => b
          | Some originalImg =>
              set_y (Js.max 0 (top (rect originalImg) + s_y startBox + dy
                               - top (rect targetImg)))
                    (set_x (Js.max 0 (s_x startBox + dx))
                           (set_page (dataPageIndex targetImg) b))
          end
    end.

Definition drop_elem (dom : Dom) (starts : list (string * Start)) (dx dy : Q)
    (targetImg : PageImage) (sel : list string) (b : Box) : Box :=
  if includes (id b) sel then dropped dom starts dx dy targetImg b else b.

(** A second page image, 1000 pixels below the first. *)
Definition page_below (img : PageImage) (idx : Z) : PageImage :=
  {| dataPageIndex := idx;
     rect := {| left := left (rect img); top := top (rect img) + 1000;
                width := width (rect img); height := height (rect img) |};
     clientWidth := clientWidth img; clientHeight := clientHeight img;
     naturalWidth := naturalWidth img; naturalHeight := naturalHeight img;
     wrapRect := None |}.



(** ** Drawing and erasing on the page (the pointer handlers of the page
    view) *)

Definition set_isEditing (v : bool) (b : Box) : Box :=
  {| id := id b; type := type b; page := page b; x := x b; y := y b; w := w b;
     h := h b; ex := ex b; ey := ey b; fontSize := fontSize b;
     fontWeight := fontWeight b; text := text b; isEditing := v;
     fixedHeight := fixedHeight b; points := points b;
     strokeWidth := strokeWidth b; offsetX := offsetX b; offsetY := offsetY b;
     group := group b; score := score b; src := src b |}.

Definition set_points (v : list Point) (b : Box) : Box :=
  {| id := id b; type := type b; page := page b; x := x b; y := y b; w := w b;
     h := h b; ex := ex b; ey := ey b; fontSize := fontSize b;
     fontWeight := fontWeight b; text := text b; isEditing := isEditing b;
     fixedHeight := fixedHeight b; points := v;
     strokeWidth := strokeWidth b; offsetX := offsetX b; offsetY := offsetY b;
     group := group b; score := score b; src := src b |}.

(** [detectInputDevice(ev)] on a pointer event, which carries
    [pointerType] and no [touches]. *)
Inductive Device : Set := Pen | Touch | Mouse.

Definition detectInputDevice (pointerType : string) : Device :=
  if String.eqb pointerType "" then Mouse
  else if String.eqb pointerType "pen" then Pen
  else if String.eqb pointerType "touch" then Touch
  else Mouse.

(** A pointer event on the page view: position, pointer id and
    modifiers, the pointer type and the pressure when it is a number. *)
Record PagePointer : Set := {
  pp_event : PointerEvent;
  pointerType : string;
  pressure : option Q
}.

(** [drawingRef.current] *)
Inductive Mode : Set := ModeDraw | ModeErase.

Record Drawing : Set := {
  active : bool;
  mode : option Mode;
  dr_page : option Z
}.

(** One entry of [drawQueueRef.current]. *)
Record Segment : Set := {
  sg_page : Z;
  sg_from : option Point;
  sg_to : Point;
  sg_width : Q
}.

(** The store and the refs the page handlers work on; [painted] is the
    log of the segments a frame callback has painted on a canvas. *)
Record Pad : Set := {
  pad_store : Editor;
  strokeCacheRef : StrokeCache;
  activePointerRef : option Z;
  drawingRef : Drawing;
  activeStrokeRef : option Box;
  drawQueueRef : list Segment;
  drawFrameRef : bool;
  painted : list Segment
}.

Definition with_store (st : Editor) (cache : StrokeCache) (p : Pad) : Pad :=
  {| pad_store := st; strokeCacheRef := cache;
     activePointerRef := activePointerRef p; drawingRef := drawingRef p;
     activeStrokeRef := activeStrokeRef p; drawQueueRef := drawQueueRef p;
     drawFrameRef := drawFrameRef p; painted := painted p |}.

Definition with_pointer (v : option Z) (p : Pad) : Pad :=
  {| pad_store := pad_store p; strokeCacheRef := strokeCacheRef p;
     activePointerRef := v; drawingRef := drawingRef p;
     activeStrokeRef := activeStrokeRef p; drawQueueRef := drawQueueRef p;
     drawFrameRef := drawFrameRef p; painted := painted p |}.

Definition with_drawing (v : Drawing) (p : Pad) : Pad :=
  {| pad_store := pad_store p; strokeCacheRef := strokeCacheRef p;
     activePointerRef := activePointerRef p; drawingRef := v;
     activeStrokeRef := activeStrokeRef p; drawQueueRef := drawQueueRef p;
     drawFrameRef := drawFrameRef p; painted := painted p |}.

Definition with_stroke (v : option Box) (p : Pad) : Pad :=
  {| pad_store := pad_store p; strokeCacheRef := strokeCacheRef p;
     activePointerRef := activePointerRef p; drawingRef := drawingRef p;
     activeStrokeRef := v; drawQueueRef := drawQueueRef p;
     drawFrameRef := drawFrameRef p; painted := painted p |}.

(** [queueDrawSegment(page, from, to, width)] (App.js 896-899): the
    segment is queued and [scheduleDrawFlush] requests a frame unless one
    is pending. *)
Definition queueDrawSegment (pg : Z) (from : option Point) (to : Point)
    (width : Q) (p : Pad) : Pad :=
  {| pad_store := pad_store p; strokeCacheRef := strokeCacheRef p;
     activePointerRef := activePointerRef p; drawingRef := drawingRef p;
     activeStrokeRef := activeStrokeRef p;
     drawQueueRef := drawQueueRef p
                     ++ [{| sg_page := pg; sg_from := from; sg_to := to;
                            sg_width := width |}];
     drawFrameRef := true; painted := painted p |}.

(** The mounted editor of a store: nothing under way, the cache as the
    effect built it. *)
Definition pad_of (st : Editor) : Pad :=
  {| pad_store := st; strokeCacheRef := build_cache (st_boxes st);
     activePointerRef := None;
     drawingRef := {| active := false; mode := None; dr_page := None |};
     activeStrokeRef := None; drawQueueRef := []; drawFrameRef := false;
     painted := [] |}.

(** The first page image that contains the point of the event. *)
Definition image_at (ev : PointerEvent) (l : list PageImage)
  : option PageImage :=
  find (fun el => Js.leb (left (rect el)) (clientX ev)
                  && Js.leb (clientX ev) (right (rect el))
                  && Js.leb (top (rect el)) (clientY ev)
                  && Js.leb (clientY ev) (bottom (rect el))) l.

(** The stroke width of a new stroke (App.js 1415-1418). *)
Definition stroke_width (strokeWidth0 : Q) (device : Device)
    (pressure0 : option Q) : Q :=
  let pressure1 := Js.or (or_default pressure0 0) 0 in
  let base := Js.max 1 strokeWidth0 in
  let pressureFactor :=
    match device with
    | Pen => (4 # 10) + pressure1 * (16 # 10)
    | _ => 1
    end in
  Js.max 1 (base * pressureFactor).

(** [points[points.length - 1]]: [None] is [undefined]. *)
Fixpoint last_point (l : list Point) : option Point :=
  match l with
  | [] => None
  | a :: r => match r with [] => Some a | _ => last_point r end
  end.

(** [Math.max(0, Math.min(pt - origin, extent))] *)
Definition clamp_into (v origin extent : Q) : Q :=
  Js.max 0 (Js.min (v - origin) extent).

Section Drawing.

(** The page container, the canvases by page index (their rectangles),
    the modes of the toolbar, the stroke width setting, the current page
    and whether a placing mode is on. *)
Variable dom : Dom.
Variable canvasRefs : Z -> option Rect.
Variable drawMode eraserMode : bool.
Variable strokeWidth0 : Q.
Variable current : Z.
Variable placing : bool.

(** The rendered page images: none when the container is not mounted. *)
Definition page_images : list PageImage :=
  if mounted dom then imgs dom else [].

(** [handlePagePointerDown] (App.js 1377-1435); [nid] is the id generated
    for a new stroke. *)
Definition handlePagePointerDown (nid : string) (e : PagePointer) (p : Pad)
  : Pad :=
  let ev := pp_event e in
  let deviceType := detectInputDevice (pointerType e) in
  if drawMode || eraserMode then
    match deviceType with
    | Touch => with_pointer None p
    | _ =>
        let st1 := pushHistory (render (pad_store p)) (pad_store p) in
        let p1 := with_store st1 (strokeCacheRef p) p in
        match image_at ev page_images with
        | None => p1
        | Some imgEl =>
            let r := rect imgEl in
            let tpi := dataPageIndex imgEl in
            let p2 := with_pointer (pointerId ev) p1 in
            let x0 := clientX ev - left r in
            let y0 := clientY ev - top r in
            if drawMode then
              let sw := stroke_width strokeWidth0 deviceType (pressure e) in
              let stroke :=
                {| id := nid; type := Draw; page := tpi; x := 0; y := 0;
                   w := 0; h := 0; ex := 0; ey := 0;
                   fontSize := None; fontWeight := ""; text := "";
                   isEditing := false; fixedHeight := false;
                   points := [ {| px := x0; py := y0 |} ];
                   strokeWidth := sw; offsetX := 0; offsetY := 0;
                   group := None; score := 0%Z; src := "" |} in
              queueDrawSegment tpi None {| px := x0; py := y0 |} sw
                (with_drawing {| active := true; mode := Some ModeDraw;
                                 dr_page := Some tpi |}
                   (with_stroke (Some stroke) p2))
            else
              let '(cache', st', _) :=
                eraseStrokeAt (strokeCacheRef p2) tpi x0 y0 (pad_store p2) in
              with_drawing {| active := true; mode := Some ModeErase;
                              dr_page := Some tpi |}
                (with_store st' cache' p2)
        end
    end
  else
    let p1 := with_pointer None p in
    if placing then p1
    else
      with_store
        (setBoxes (map (set_isEditing false))
                  (setSelectedIds [] (pad_store p1)))
        (strokeCacheRef p1) p1.

(** The guard of the move and release handlers:
    [pointerId !== null && activePointerRef.current !== null &&
     pointerId !== activePointerRef.current]. *)
Definition foreign_pointer (ev : PointerEvent) (p : Pad) : bool :=
  match pointerId ev, activePointerRef p with
  | Some q, Some a => negb (Z.eqb q a)
  | _, _ => false
  end.

(** [handlePagePointerMove] (App.js 1437-1472) *)
Definition handlePagePointerMove (e : PagePointer) (p : Pad) : Pad :=
  let ev := pp_event e in
  if foreign_pointer ev p then p
  else if negb (active (drawingRef p)) then p
  else
    match mode (drawingRef p) with
    | Some ModeDraw =>
        match activeStrokeRef p with
        | None => p
        | Some stroke =>
            match canvasRefs (page stroke) with
            | None => p
            | Some rc =>
                let x1 := clamp_into (clientX ev) (left rc) (width rc) in
                let y1 := clamp_into (clientY ev) (top rc) (height rc) in
                let last := last_point (points stroke) in
                let near :=
                  match last with
                  | Some l =>
                      let dx := x1 - px l in
                      let dy := y1 - py l in
                      Js.ltb (dx * dx + dy * dy) (2 * 2)
                  | None => false
                  end in
                if near then p
                else
                  queueDrawSegment (page stroke) last {| px := x1; py := y1 |}
                    (Js.or (strokeWidth stroke) strokeWidth0)
                    (with_stroke
                       (Some (set_points
                                (points stroke ++ [ {| px := x1; py := y1 |} ])
                                stroke)) p)
            end
        end
    | Some ModeErase =>
        let pageIdx := or_default (dr_page (drawingRef p)) current in
        match canvasRefs pageIdx with
        | None => p
        | Some rc =>
            let x1 := clamp_into (clientX ev) (left rc) (width rc) in
            let y1 := clamp_into (clientY ev) (top rc) (height rc) in
            let '(cache', st', _) :=
              eraseStrokeAt (strokeCacheRef p) pageIdx x1 y1 (pad_store p) in
            with_store st' cache' p
        end
    | None => p
    end.

(** [handlePagePointerUp] (App.js 1474-1502), also bound to
    [pointercancel]. *)
Definition handlePagePointerUp (e : PagePointer) (p : Pad) : Pad :=
  let ev := pp_event e in
  if foreign_pointer ev p then p
  else
    let p1 :=
      match mode (drawingRef p) with
      | Some ModeDraw =>
          let p' :=
            match activeStrokeRef p with
            | Some stroke =>
                match points stroke with
                | [] => p
                | _ =>
                    with_store
                      (setBoxes (fun prev => prev ++ [stroke]) (pad_store p))
                      (fun pg => if Z.eqb pg (page stroke)
                                 then strokeCacheRef p pg ++ [stroke]
                                 else strokeCacheRef p pg)
                      p
                end
            | None => p
            end in
          with_stroke None p'
      | _ => p
      end in
    with_drawing {| active := false; mode := None; dr_page := None |}
      (with_pointer None p1).

(** The frame callback of [scheduleDrawFlush] (App.js 868-892): the
    queue is emptied and every segment whose page has a canvas is
    painted. *)
Definition drawFrame (p : Pad) : Pad :=
  {| pad_store := pad_store p; strokeCacheRef := strokeCacheRef p;
     activePointerRef := activePointerRef p; drawingRef := drawingRef p;
     activeStrokeRef := activeStrokeRef p;
     drawQueueRef := [];
     drawFrameRef := false;
     painted := painted p
                ++ filter (fun s => match canvasRefs (sg_page s) with
                                    | Some _ => true
                                    | None => false
                                    end) (drawQueueRef p) |}.

(** The events of the page view and a run of them; [fresh n] is the id
    generated for the stroke the [n]-th event starts. *)
Inductive PadEvent : Set :=
| PageDown (e : PagePointer)
| PageMove (e : PagePointer)
| PageUp (e : PagePointer)
| Frame.

Definition pad_step (nid : string) (p : Pad) (ev : PadEvent) : Pad :=
  match ev with
  | PageDown e => handlePagePointerDown nid e p
  | PageMove e => handlePagePointerMove e p
  | PageUp e => handlePagePointerUp e p
  | Frame => drawFrame p
  end.

End Drawing.

(** The polyline of a stroke as the segments its samples are queued
    with: a dot for the first sample, then one segment per further
    sample. *)
Fixpoint segments_from (pg : Z) (width : Q) (prev : option Point)
    (pts : list Point) : list Segment :=
  match pts with
  | [] => []
  | q :: rest =>
      {| sg_page := pg; sg_from := prev; sg_to := q; sg_width := width |}
      :: segments_from pg width (Some q) rest
  end.

(** The squared distance of two samples. *)
Definition dist2 (a b : Point) : Q :=
  (px b - px a) * (px b - px a) + (py b - py a) * (py b - py a).

(** Consecutive samples are at least [2] apart. *)
Fixpoint spaced (pts : list Point) : Prop :=
  match pts with
  | [] => True
  | a :: rest =>
      match rest with
      | [] => True
      | b :: _ => 2 * 2 <= dist2 a b /\ spaced rest
      end
  end.

(** A sample inside a rectangle of the given size. *)
Definition inside (rc : Rect) (q : Point) : Prop :=
  0 <= px q /\ px q <= width rc /\ 0 <= py q /\ py q <= height rc.



(** A run of page events; [fresh n] is the id generated by the [n]-th
    event. *)
Fixpoint pad_run (dom : Dom) (canvasRefs : Z -> option Rect)
    (drawMode eraserMode : bool) (strokeWidth0 : Q) (current : Z)
    (placing : bool) (fresh : nat -> string) (n : nat) (p : Pad)
    (evs : list PadEvent) : Pad :=
  match evs with
  | [] => p
  | ev :: rest =>
      pad_run dom canvasRefs drawMode eraserMode strokeWidth0 current placing
        fresh (S n)
        (pad_step dom canvasRefs drawMode eraserMode strokeWidth0 current
                  placing (fresh n) p ev)
        rest
  end.

(** A stroke under way: the active stroke [nid] of page [pg] and width
    [sw], pressed at [first]; its further samples lie inside the canvas
    [rc] and consecutive samples are at least 2 apart; the segments
    queued since the press join its samples; the store is [st], the
    cache [cache], the captured pointer [ptr]. *)
Definition sampling (rc : Rect) (nid : string) (pg : Z) (sw : Q)
    (first : Point) (queue0 : list Segment) (st : Editor)
    (cache : StrokeCache) (ptr : option Z) (p : Pad) : Prop :=
  exists s rest,
    activeStrokeRef p = Some s /\
    id s = nid /\ type s = Draw /\ page s = pg /\ strokeWidth s = sw /\
    offsetX s = 0 /\ offsetY s = 0 /\
    points s = first :: rest /\
    Forall (inside rc) rest /\
    spaced (points s) /\
    drawQueueRef p = queue0 ++ segments_from pg sw None (points s) /\
    pad_store p = st /\
    strokeCacheRef p = cache /\
    drawingRef p = {| active := true; mode := Some ModeDraw;
                      dr_page := Some pg |} /\
    activePointerRef p = ptr.

(** The cache is the one the effect builds from the collection. *)
Definition cache_synced (p : Pad) : Prop :=
  forall pg, strokeCacheRef p pg = build_cache (st_boxes (pad_store p)) pg.

(** A mouse event of pointer 1 at a point of the viewport. *)
Definition mouse_at (cx cy : Q) : PagePointer :=
  {| pp_event := {| clientX := cx; clientY := cy; pointerId := Some 1%Z;
                    shiftKey := false; metaKey := false; ctrlKey := false |};
     pointerType := "mouse"; pressure := Some (1 # 2) |}.

(** The canvas of page 0 of the sample page, and no other. *)
Definition canvas_of (img : PageImage) (pg : Z) : option Rect :=
  if Z.eqb pg (dataPageIndex img) then Some (rect img) else None.



(** Every segment that waits in the queue has a frame requested for it. *)
Definition queue_served (p : Pad) : Prop :=
  drawQueueRef p <> [] -> drawFrameRef p = true.

(** What the page handlers keep true of the ids, [n] ids having been
    generated: the ids of the collection are unique, each of them is one
    of [ids0] or was generated; the cache is the one of the collection;
    a stroke under way is a stroke, its id was generated and is not in
    the collection yet. *)
Definition pad_ids_ok (fresh : nat -> string) (ids0 : list string) (n : nat)
    (p : Pad) : Prop :=
  NoDup (map id (st_boxes (pad_store p))) /\
  cache_synced p /\
  (forall k, In k (map id (st_boxes (pad_store p))) ->
             In k ids0 \/ exists i, (i < n)%nat /\ k = fresh i) /\
  match activeStrokeRef p with
  | Some s =>
      is_draw s = true /\ (exists i, (i < n)%nat /\ id s = fresh i) /\
      ~ In (id s) (map id (st_boxes (pad_store p)))
  | None => True
  end.



(** What a handler does to the queue: nothing, or one segment is queued
    and a frame requested; it paints nothing. *)
Definition queue_step (p p' : Pad) : Prop :=
  painted p' = painted p /\
  ((drawQueueRef p' = drawQueueRef p /\ drawFrameRef p' = drawFrameRef p) \/
   (exists sg, drawQueueRef p' = drawQueueRef p ++ [sg]) /\
   drawFrameRef p' = true).



(** Ids that differ from each other: [d] followed by [n] strokes. *)
Fixpoint tally (n : nat) : string :=
  match n with
  | O => EmptyString
  | S k => String "i" (tally k)
  end.

Definition stroke_id (n : nat) : string := String "d" (tally n).



(** ** Placing by a click on the page ([handlePageClick]) *)

(** One comment of a question of the review. *)
Record Comment : Set := {
  c_text : string;
  c_type : string;
  c_points : option Z
}.

(** [placeMode]: the kind and what the handler reads of the payload.  The
    labels of [qscore] and [bulk] are the string [awarded/max] built from
    the payload. *)
Inductive PlaceMode : Set :=
| PlaceText (edit0 : bool) (fontSize0 : option Q)
| PlaceScore (pts : option Z)
| PlaceLine
| PlaceArrow
| PlaceGlyph (glyph : option string) (size : option Q)
| PlaceLineX
| PlaceCombo (txt : string) (pts : option Z)
| PlaceImage (src0 : option string) (sign : bool)
| PlaceQScore (lbl : string)
| PlaceBulk (lbl : string) (comments : list Comment)
| PlaceOther.

(** The multiplication sign, U+00D7, in UTF-8. *)
Definition cross : string :=
  String (ascii_of_nat 195) (String (ascii_of_nat 151) EmptyString).

(** A call of [addImageBox] whose image has not loaded yet. *)
Record ImageRequest : Set := {
  ir_id : string;
  ir_src : string;
  ir_sign : bool;
  ir_coords : option (Q * Q);
  ir_page : option Z
}.

(** The state of the loop of the [bulk] branch: the store, the number of
    ids generated, the running [curY] and the ids placed. *)
Record Bulk : Set := {
  bk_store : Editor;
  bk_count : nat;
  bk_curY : Q;
  bk_placed : list string
}.

Section Clicking.

Variable dom : Dom.
Variable current : Z.
Variable sanitizeReviewText : string -> string.
Variable stripTargetFromText : string -> string.
(** [blank t] is [!(t && t.trim())]. *)
Variable blank : string -> bool.
Variable drawMode eraserMode : bool.
(** The render the handler was created in, and the ids it generates. *)
Variable r : Render.
Variable fresh : nat -> string.

(** [setBoxes(prev => prev.map(b => b.id===id ? {...b, page, x, y} : b))] *)
Definition put_at (tpi : Z) (x0 y0 : Q) (k : string) (st : Editor) : Editor :=
  setBoxes (update_by_id k (fun b => set_y y0 (set_x x0 (set_page tpi b)))) st.

Definition plain_box (nid : string) (ty : BoxType) (pg : Z) (x0 y0 w0 h0 : Q)
  : Box :=
  {| id := nid; type := ty; page := pg; x := x0; y := y0; w := w0; h := h0;
     ex := 0; ey := 0; fontSize := None; fontWeight := ""; text := "";
     isEditing := false; fixedHeight := false;
     points := []; strokeWidth := 0; offsetX := 0; offsetY := 0;
     group := None; score := 0%Z; src := "" |}.

Definition glyph_box (nid : string) (ty : BoxType) (pg : Z) (x0 y0 w0 h0 fz : Q)
    (g : string) (grp : option string) : Box :=
  {| id := nid; type := ty; page := pg; x := x0; y := y0; w := w0; h := h0;
     ex := 0; ey := 0; fontSize := Some fz; fontWeight := "bold"; text := g;
     isEditing := false; fixedHeight := false;
     points := []; strokeWidth := 0; offsetX := 0; offsetY := 0;
     group := grp; score := 0%Z; src := "" |}.

Definition set_group (v : option string) (b : Box) : Box :=
  {| id := id b; type := type b; page := page b; x := x b; y := y b; w := w b;
     h := h b; ex := ex b; ey := ey b; fontSize := fontSize b;
     fontWeight := fontWeight b; text := text b; isEditing := isEditing b;
     fixedHeight := fixedHeight b; points := points b;
     strokeWidth := strokeWidth b; offsetX := offsetX b; offsetY := offsetY b;
     group := v; score := score b; src := src b |}.

Definition opts_at (pg : Z) (x0 y0 : Q) (w0 h0 : option Q) (fs : option Q)
    (fixed sel : bool) : Opts :=
  {| select := sel; edit := false; o_fontSize := fs; o_fixedHeight := fixed;
     o_page := Some pg; o_x := Some x0; o_y := Some y0; o_w := w0; o_h := h0 |}.

(** The height of a score marker next to a comment:
    [Math.round(18 * 1.6)]. *)
Definition markerH : Q := Js.round (18 * (16 # 10)).

(** One turn of the loop over the comments of the [bulk] branch
    (App.js 1599-1617). *)
Definition bulk_one (tpi : Z) (x0 : Q) (bk : Bulk) (c : Comment) : Bulk :=
  let boxH := 64 in
  let margin := 6 in
  let txt := stripTargetFromText (sanitizeReviewText (c_text c)) in
  let bk1 :=
    if blank txt then bk
    else
      let tid := fresh (bk_count bk) in
      {| bk_store := addBox dom current sanitizeReviewText r tid txt
                       (opts_at tpi x0 (bk_curY bk) (Some 360) (Some boxH)
                                None true false)
                       (bk_store bk);
         bk_count := S (bk_count bk);
         bk_curY := bk_curY bk;
         bk_placed := bk_placed bk ++ [tid] |} in
  let pts := if String.eqb (c_type c) "score"
             then Some (or_default (c_points c) 1%Z) else None in
  match pts with
  | Some v =>
      let sid := fresh (bk_count bk1) in
      {| bk_store := addScoreMarker dom current r sid v
                       (opts_at tpi (x0 + 4) (bk_curY bk + boxH + 2) None None
                                None false false)
                       (bk_store bk1);
         bk_count := S (bk_count bk1);
         bk_curY := bk_curY bk + (boxH + markerH + margin);
         bk_placed := bk_placed bk1 ++ [sid] |}
  | None =>
      {| bk_store := bk_store bk1; bk_count := bk_count bk1;
         bk_curY := bk_curY bk + (boxH + margin);
         bk_placed := bk_placed bk1 |}
  end.

(** [handlePageClick] (App.js 1505-1626): the new store, the new
    [placeMode] and the image whose load [addImageBox] waits for. *)
Definition handlePageClick (placeMode : option PlaceMode) (e : PointerEvent)
    (st : Editor) : Editor * option PlaceMode * option ImageRequest :=
  match placeMode with
  | None => (st, placeMode, None)
  | Some pm =>
      if drawMode || eraserMode then (st, placeMode, None)
      else
        let st0 := pushHistory r st in
        match image_at e (if mounted dom then imgs dom else []) with
        | None => (st0, None, None)
        | Some imgEl =>
            let rc := rect imgEl in
            let tpi := dataPageIndex imgEl in
            let x0 := clamp_into (clientX e) (left rc) (width rc) in
            let y0 := clamp_into (clientY e) (top rc) (height rc) in
            match pm with
            | PlaceText edit0 fontSize0 =>
                let nid := fresh O in
                let opts :=
                  {| select := true; edit := edit0;
                     o_fontSize := Some (Js.or (or_default fontSize0 0) 14);
                     o_fixedHeight := false; o_page := None;
                     o_x := None; o_y := None; o_w := None; o_h := None |} in
                (put_at tpi x0 y0 nid
                   (addBox dom current sanitizeReviewText r nid "" opts st0),
                 None, None)
            | PlaceScore pts =>
                let nid := fresh O in
                let v := match pts with
                         | Some n => if Z.eqb n 0 then 1%Z else n
                         | None => 1%Z
                         end in
                (setSelectedIds [nid]
                   (put_at tpi x0 y0 nid
                      (addScoreMarker dom current r nid v auto_opts st0)),
                 None, None)
            | PlaceLine =>
                let nid := fresh O in
                let newBox := plain_box nid Line tpi (Js.max 0 (x0 - 100)) y0
                                        200 3 in
                (setSelectedIds [nid]
                   (setBoxes (fun prev => prev ++ [newBox]) st0),
                 None, None)
            | PlaceArrow =>
                let nid := fresh O in
                let newBox :=
                  {| id := nid; type := Arrow; page := tpi; x := x0; y := y0;
                     w := 0; h := 0;
                     ex := Js.min (width rc) (x0 + 140); ey := y0;
                     fontSize := None; fontWeight := ""; text := "";
                     isEditing := false; fixedHeight := false;
                     points := []; strokeWidth := 3;
                     offsetX := 0; offsetY := 0;
                     group := None; score := 0%Z; src := "" |} in
                (setSelectedIds [nid]
                   (setBoxes (fun prev => prev ++ [newBox]) st0),
                 None, None)
            | PlaceGlyph glyph size =>
                let g := match glyph with
                         | Some s => if String.eqb s "" then cross else s
                         | None => cross
                         end in
                let sz := Js.or (or_default size 0) 40 in
                let nid := fresh O in
                let adjX := Js.max 0 (x0 - Js.round (sz / 2)) in
                let adjY := Js.max 0 (y0 - Js.round (sz / 2)) in
                let newBox := glyph_box nid NoType tpi adjX adjY (sz * 2)
                                        (sz * 2) sz g None in
                (setSelectedIds [nid]
                   (setBoxes (fun prev => prev ++ [newBox]) st0),
                 None, None)
            | PlaceLineX =>
                let gid := fresh O in
                let lineId := fresh 1 in
                let w0 := 200 in
                let h0 := 3 in
                let lx := Js.max 0 (x0 - Js.round (w0 / 2)) in
                let ly := y0 in
                let line := set_group (Some gid)
                              (plain_box lineId Line tpi lx ly w0 h0) in
                let xId := fresh 2 in
                let fz := 40 in
                let baselineRatio := 93 # 100 in
                let glyph := glyph_box xId Text tpi (lx + w0 - 18)
                               (ly - Js.round (fz * baselineRatio)) 40 40 fz
                               cross (Some gid) in
                (setSelectedIds [lineId; xId]
                   (setBoxes (fun prev => prev ++ [line; glyph]) st0),
                 None, None)
            | PlaceCombo txt pts =>
                let points0 := match pts with
                               | Some n => if Z.eqb n 0 then None else Some n
                               | None => None
                               end in
                let boxH := 100 in
                let '(st1, ids1, n1) :=
                  if blank txt then (st0, [], O)
                  else
                    let tid := fresh O in
                    (put_at tpi x0 y0 tid
                       (addBox dom current sanitizeReviewText r tid txt
                               auto_opts st0),
                     [tid], 1%nat) in
                let '(st2, ids2) :=
                  match points0 with
                  | Some v =>
                      let sx := Js.max 0 (x0 - 64) in
                      let sy := Js.max 0 (y0 + boxH - markerH) in
                      let sid := fresh n1 in
                      (addScoreMarker dom current r sid v
                         (opts_at tpi sx sy None None None false false) st1,
                       ids1 ++ [sid])
                  | None => (st1, ids1)
                  end in
                (match ids2 with
                 | [] => st2
                 | _ => setSelectedIds ids2 st2
                 end, None, None)
            | PlaceImage src0 sign =>
                match src0 with
                | Some s =>
                    if String.eqb s "" then (st0, None, None)
                    else (pushHistory r st0, None,
                          Some {| ir_id := fresh O; ir_src := s;
                                  ir_sign := sign;
                                  ir_coords := Some (x0, y0);
                                  ir_page := Some tpi |})
                | None => (st0, None, None)
                end
            | PlaceQScore lbl =>
                let tid := fresh O in
                (setSelectedIds [tid]
                   (addBox dom current sanitizeReviewText r tid lbl
                           (opts_at tpi x0 y0 (Some 120) (Some 28) (Some 16)
                                    true true) st0),
                 None, None)
            | PlaceBulk lbl comments =>
                let margin := 6 in
                let tid := fresh O in
                let bk0 :=
                  {| bk_store := addBox dom current sanitizeReviewText r tid lbl
                                   (opts_at tpi x0 y0 (Some 360) (Some 28)
                                            (Some 16) true false) st0;
                     bk_count := 1%nat;
                     bk_curY := y0 + (28 + margin);
                     bk_placed := [tid] |} in
                let bk := fold_left (bulk_one tpi x0) comments bk0 in
                (match bk_placed bk with
                 | [] => bk_store bk
                 | _ => setSelectedIds (bk_placed bk) (bk_store bk)
                 end, None, None)
            | PlaceOther => (st0, None, None)
            end
        end
  end.

(** The [onload] handler of [addImageBox] (App.js 1254-1291) for an image
    of [iw] by [ih] pixels. *)
Definition image_onload (req : ImageRequest) (iw ih : Q) (st : Editor)
  : Editor :=
  let scale0 := Js.min (Js.min (220 / iw) (220 / ih)) 1 in
  let scale := if ir_sign req then scale0 * (1 / 3) else scale0 * (15 # 10) in
  let w1 := Js.max 40 (Js.round (iw * scale)) in
  let h1 := Js.max 40 (Js.round (ih * scale)) in
  let '(x0, y0) := or_default (ir_coords req) (40, 40) in
  let vw := if mounted dom
            then match imgs dom with el :: _ => clientWidth el | [] => 0 end
            else 0 in
  let vh := if mounted dom
            then match imgs dom with el :: _ => clientHeight el | [] => 0 end
            else 0 in
  let '(x1, y1) :=
    if ir_sign req && Js.truthy vw then
      (Js.max 0 (vw - w1 - 40 - 55), Js.max 0 (Js.round (vh * (18 # 100))))
    else if match ir_coords req with None => true | Some _ => false end
            && negb (ir_sign req) && mounted dom then
      (Js.max 0 (Js.or (scrollLeft dom) 0 + 24),
       Js.max 0 (Js.or (scrollTop dom) 0 + 48))
    else (x0, y0) in
  let newBox :=
    {| id := ir_id req; type := Image;
       page := or_default (ir_page req) current;
       x := x1; y := y1; w := w1; h := h1; ex := 0; ey := 0;
       fontSize := None; fontWeight := ""; text := "";
       isEditing := false; fixedHeight := false;
       points := []; strokeWidth := 0; offsetX := 0; offsetY := 0;
       group := None; score := 0%Z; src := ir_src req |} in
  setSelectedIds [ir_id req] (setBoxes (fun prev => prev ++ [newBox]) st).

(** [addLineXSet()] (App.js 1339-1352); [gid], [lineId] and [xId] are the
    ids it generates. *)
Definition addLineXSet (gid lineId xId : string) (st : Editor) : Editor :=
  let st1 := pushHistory r st in
  let vp := viewportPos dom 80 160 in
  let x0 := fst vp in
  let y0 := snd vp in
  let w0 := 200 in
  let h0 := 3 in
  let line := set_group (Some gid) (plain_box lineId Line current x0 y0 w0 h0) in
  let fz := 25 in
  let glyph := glyph_box xId Text current (x0 + w0 - 18)
                 (y0 - Js.round (fz / 2) - 17) 40 40 fz cross (Some gid) in
  setSelectedIds [lineId; xId]
    (setBoxes (fun prev => prev ++ [line; glyph]) st1).

(** [addGlyphBox(glyph, size)] (App.js 1316-1324) *)
Definition addGlyphBox (nid : string) (glyph : string) (size : Q)
    (st : Editor) : Editor :=
  let st1 := pushHistory r st in
  let vp := viewportPos dom 60 60 in
  let newBox := glyph_box nid NoType current (fst vp) (snd vp) 80 80 size glyph
                          None in
  setSelectedIds [nid] (setBoxes (fun prev => prev ++ [newBox]) st1).

(** [addTargetMarker(targetText)] (App.js 1367-1374): no history is
    pushed. *)
Definition addTargetMarker (nid : string) (targetText : string) (st : Editor)
  : Editor :=
  if String.eqb targetText "" then st
  else
    let newBox :=
      {| id := nid; type := Target; page := current; x := 24; y := 24;
         w := 140; h := 28; ex := 0; ey := 0;
         fontSize := Some 14; fontWeight := "bold"; text := targetText;
         isEditing := false; fixedHeight := false;
         points := []; strokeWidth := 0; offsetX := 0; offsetY := 0;
         group := None; score := 0%Z; src := "" |} in
    setSelectedIds [nid] (setBoxes (fun prev => prev ++ [newBox]) st).

End Clicking.



(** Objects stacked downwards from [top]: each begins at or below the
    bottom ([y + h]) of the one before, the first at or below [top]. *)
Fixpoint stacked (top : Q) (l : list Box) : Prop :=
  match l with
  | [] => True
  | b :: rest => top <= y b /\ stacked (y b + h b) rest
  end.

(** The bottom of the last object of a stack that starts at [top]. *)
Definition bottom_of (top : Q) (l : list Box) : Q :=
  fold_left (fun _ b => y b + h b) l top.

(** What a click in placing mode adds: the collection grows by [added]
    at its end; [k] further snapshots of the captured collection lie on
    top of the one the click pushed; the redo stack is empty. *)
Definition click_adds (r : Render) (st st' : Editor) (added : list Box)
    (k : nat) : Prop :=
  st_boxes st' = st_boxes st ++ added /\
  historyRef st' = repeat (boxes r) (S k) ++ historyRef st /\
  redoRef st' = [] /\
  clipboard st' = clipboard st.



(** The loop of the [bulk] branch: what it has added so far, stacked
    downwards from [top] and ending above the running [curY]. *)
Definition bulk_state (r : Render) (tpi : Z) (st0 : Editor) (top : Q)
    (bk : Bulk) (added : list Box) (k : nat) : Prop :=
  click_adds r st0 (bk_store bk) added k /\
  Forall (fun b => page b = tpi) added /\
  bk_placed bk = map id added /\
  stacked top added /\
  bottom_of top added <= bk_curY bk /\
  st_selectedIds (bk_store bk) = st_selectedIds st0.



(** An object moved by a delta, not below 0. *)
Definition moved_by (dx dy : Q) (b : Box) : Box :=
  set_y (Js.max 0 (y b + dy)) (set_x (Js.max 0 (x b + dx)) b).



(** ** The effect that fits the height of a box to its content *)

(** [Math.max(32, hEl + 4)] with [hEl = Math.max(0, measured)]. *)
Definition desired_height (measured : Q) : Q :=
  Js.max 32 (Js.max 0 measured + 4).

(** One object under the updater of the effect (App.js 1157-1166), with
    the flag that tells whether it was replaced.  [renderRefs k] is the
    height [el.scrollHeight || el.offsetHeight || 0] measured on the
    element rendered for the object [k], when there is one. *)
Definition fit_height (renderRefs : string -> option Q) (b : Box)
  : Box * bool :=
  match type b with
  | Image => (b, false)
  | _ =>
      if fixedHeight b then (b, false)
      else
        match renderRefs (id b) with
        | None => (b, false)
        | Some measured =>
            let desired := desired_height measured in
            if Js.ltb 1 (Qabs (h b - desired)) then (set_h desired b, true)
            else (b, false)
        end
  end.

(** The updater: the new collection and whether it is a new array
    ([changed ? next : prev]). *)
Definition autoHeight (renderRefs : string -> option Q) (prev : list Box)
  : list Box * bool :=
  let fitted := map (fit_height renderRefs) prev in
  if existsb snd fitted then (map fst fitted, true) else (prev, false).

(** An object that differs from another at most in its height. *)
Definition same_but_h (b b' : Box) : Prop := b' = set_h (h b') b.



(** ** Font controls and selection by click *)

(** [changeFontSize(delta)] (App.js 1932-1935) *)
Definition changeFontSize (r : Render) (delta : Q) (st : Editor) : Editor :=
  match selectedIds r with
  | [] => st
  | _ =>
      setBoxes (map (fun b =>
                  if includes (id b) (selectedIds r)
                  then set_fontSize
                         (Some (Js.max 8 (Js.or_undef (fontSize b) 16 + delta))) b
                  else b)) st
  end.

(** [setFontSize(size)] (App.js 1936-1940); [n] is [parseInt(size, 10)],
    [None] when it is not a number. *)
Definition setFontSize (r : Render) (n : option Z) (st : Editor) : Editor :=
  match selectedIds r with
  | [] => st
  | _ =>
      match n with
      | None => st
      | Some v =>
          setBoxes (map (fun b =>
                      if includes (id b) (selectedIds r)
                      then set_fontSize (Some (Js.max 8 (inject_Z v))) b
                      else b)) st
      end
  end.

(** [selectOnly(id)], [toggleSelect(id)] and [clearSelection()]
    (App.js 1639-1648), and the click handler of an object, which picks
    one of the first two by the modifier keys. *)
Definition selectOnly (k : string) (st : Editor) : Editor :=
  setSelectedIds [k] st.

Definition toggleSelect (k : string) (st : Editor) : Editor :=
  setSelectedIds
    (if includes k (st_selectedIds st)
     then filter (fun x => negb (String.eqb x k)) (st_selectedIds st)
     else st_selectedIds st ++ [k])
    st.

Definition clearSelection (st : Editor) : Editor := setSelectedIds [] st.

Definition onClickBox (e : PointerEvent) (k : string) (st : Editor) : Editor :=
  if shiftKey e || metaKey e || ctrlKey e then toggleSelect k st
  else selectOnly k st.

(** The font size of an object is the one of another, as numbers. *)
Definition same_font (b b' : Box) : Prop :=
  b' = set_fontSize (fontSize b') b /\
  match fontSize b, fontSize b' with
  | Some f, Some f' => f' == f
  | None, None => True
  | _, _ => False
  end.

(** What a font control does to one object: nothing when it is not
    selected, and otherwise nothing but a font size of at least 8. *)
Definition font_set (sel : list string) (b b' : Box) : Prop :=
  (includes (id b) sel = false -> b' = b) /\
  (includes (id b) sel = true ->
   exists f, b' = set_fontSize (Some f) b /\ 8 <= f).



(** A click on an object as an event of the session: the handler of the
    current render runs, then the effects of the commit. *)
Definition clickBox (e : PointerEvent) (k : string) (s : Session) : Session :=
  commit (onClickBox e k (store s)) (moving s) (resizing s) (resizingRef s) s.

(** A press on the page outside of every object, with no tool and no
    placing mode on, as an event of the session. *)
Definition pressPage (dom : Dom) (e : PagePointer) (s : Session) : Session :=
  commit (pad_store (handlePagePointerDown dom false false 0 false ""
                       e (pad_of (store s))))
         (moving s) (resizing s) (resizingRef s) s.



(** Key events as events of the session: the two flags say whether a
    placing mode is on and whether a text area has the focus. *)
Definition key_events (ks : list (bool * bool * KeyEvent)) : list Event :=
  map (fun k => KeyDown (fst (fst k)) (snd (fst k)) (snd k)) ks.



(** ** The answer list: pages of the table *)

(** [Array.prototype.slice] with integer bounds: a negative bound counts
    from the end, both are clamped into the array. *)
Definition slice {A : Type} (s e : Z) (l : list A) : list A :=
  let len := Z.of_nat (List.length l) in
  let k := if (s <? 0)%Z then Z.max (len + s) 0 else Z.min s len in
  let fin := if (e <? 0)%Z then Z.max (len + e) 0 else Z.min e len in
  firstn (Z.to_nat (fin - k)) (skipn (Z.to_nat k) l).

(** The pager of the answer list (App.js 309-312, 407, 415-417):
    [visibleAnswers] is the filtered list, [pageSize] and [page] are
    state. *)
Section Paging.

Variable A : Type.
Variable visibleAnswers : list A.
Variable pageSize : Z.

Definition totalPages : Z :=
  Z.max 1 (Qceiling (inject_Z (Z.of_nat (List.length visibleAnswers))
                     / inject_Z pageSize)).

Definition pageClamped (page : Z) : Z := Z.min (Z.max 1 page) totalPages.

Definition startIdx (page : Z) : Z := ((pageClamped page - 1) * pageSize)%Z.

Definition pagedAnswers (page : Z) : list A :=
  slice (startIdx page) (startIdx page + pageSize) visibleAnswers.

(** The counter [n 件中 a–b 件]. *)
Definition shownFrom (page : Z) : Z :=
  match visibleAnswers with
  | [] => 0%Z
  | _ => (startIdx page + 1)%Z
  end.

Definition shownTo (page : Z) : Z :=
  Z.min (startIdx page + pageSize) (Z.of_nat (List.length visibleAnswers)).

(** The buttons: [setPage(p => Math.max(1, p-1))] and
    [setPage(p => Math.min(totalPages, p+1))], disabled at the ends. *)
Definition prevDisabled (page : Z) : bool := (pageClamped page <=? 1)%Z.
Definition nextDisabled (page : Z) : bool := (totalPages <=? pageClamped page)%Z.

Definition clickPrev (page : Z) : Z :=
  if prevDisabled page then page else Z.max 1 (page - 1).

Definition clickNext (page : Z) : Z :=
  if nextDisabled page then page else Z.min totalPages (page + 1).

End Paging.

Arguments totalPages {A}.
Arguments pageClamped {A}.
Arguments startIdx {A}.
Arguments pagedAnswers {A}.
Arguments shownFrom {A}.
Arguments shownTo {A}.
Arguments prevDisabled {A}.
Arguments nextDisabled {A}.
Arguments clickPrev {A}.
Arguments clickNext {A}.

(** The pages of the table, first to last. *)
Definition all_pages {A : Type} (l : list A) (pageSize : Z) : list (list A) :=
  map (fun p => pagedAnswers l pageSize (Z.of_nat p))
      (seq 1 (Z.to_nat (totalPages l pageSize))).


(** ** Export: laying the captured pages out in the PDF *)

(** A captured page: the canvas handed back by the capture, with the
    image data read from it. *)
Record Canvas : Type := {
  cv_data : string;
  cv_width : Q;
  cv_height : Q
}.

(** The calls made on the PDF document. *)
Inductive PdfCall : Type :=
| AddPage
| AddImage (imgData : string) (x y w h : Q).

(** One round of [canvases.forEach] in [exportClientPDF]
    (App.js 2110-2121). *)
Definition placeCanvas (pageWidth pageHeight : Q) (idx : nat) (cv : Canvas)
  : list PdfCall :=
  let iw := cv_width cv in
  let ih := cv_height cv in
  let scale := Js.min (pageWidth / iw) (pageHeight / ih) in
  let w := iw * scale in
  let h := ih * scale in
  (match idx with O => [] | S _ => [AddPage] end)
  ++ [AddImage (cv_data cv) 0 0 w h].

Fixpoint placeFrom (pageWidth pageHeight : Q) (idx : nat)
    (canvases : list Canvas) : list PdfCall :=
  match canvases with
  | [] => []
  | cv :: rest =>
      placeCanvas pageWidth pageHeight idx cv
      ++ placeFrom pageWidth pageHeight (S idx) rest
  end.

Definition placeCanvases (pageWidth pageHeight : Q) (canvases : list Canvas)
  : list PdfCall :=
  placeFrom pageWidth pageHeight 0 canvases.

(** The pages of the document after a sequence of calls: a new document
    has one page, [addPage] appends a page and makes it the current one,
    [addImage] draws on the current page. *)
Fixpoint pdf_pages (calls : list PdfCall) (done : list (list PdfCall))
    (cur : list PdfCall) : list (list PdfCall) :=
  match calls with
  | [] => done ++ [cur]
  | AddPage :: rest => pdf_pages rest (done ++ [cur]) []
  | c :: rest => pdf_pages rest done (cur ++ [c])
  end.

(** A page that holds the capture [cv] alone, at the top left corner,
    scaled as a whole to fit the page and to touch one of its far sides. *)
Definition fits_page (pageWidth pageHeight : Q) (cv : Canvas)
    (pg : list PdfCall) : Prop :=
  exists w h,
    pg = [AddImage (cv_data cv) 0 0 w h] /\
    0 < w /\ w <= pageWidth /\ 0 < h /\ h <= pageHeight /\
    w * cv_height cv == h * cv_width cv /\
    (w == pageWidth \/ h == pageHeight).


(** ** The editing time as text *)

(** [String(n)] for a whole number [n >= 0]: its decimal digits. *)
Definition decimal (n : Z) : string :=
  DecimalString.NilZero.string_of_uint (N.to_uint (Z.to_N n)).

Fixpoint repeat_char (c : ascii) (n : nat) : string :=
  match n with
  | O => EmptyString
  | S k => String c (repeat_char c k)
  end.

(** [s.padStart(len, c)] with a fill string of one character. *)
Definition padStart (len : nat) (c : ascii) (s : string) : string :=
  repeat_char c (len - String.length s) ++ s.

(** [Number.MAX_SAFE_INTEGER]: up to it JavaScript holds the whole
    numbers exactly and writes them in digits. *)
Definition MAX_SAFE_INTEGER : Z := 9007199254740991.

(** [formatSeconds] (App.js 20-26) on a whole number of seconds, for
    which [parseInt(total || 0, 10)] is the number itself. *)
Definition formatSeconds (total : Z) : string :=
  let s := Z.max 0 total in
  let hh := padStart 2 "0" (decimal (s / 3600)) in
  let mm := padStart 2 "0" (decimal ((s mod 3600) / 60)) in
  let ss := padStart 2 "0" (decimal (s mod 60)) in
  hh ++ ":" ++ mm ++ ":" ++ ss.

(** Reading a time back: the fields between the colons as decimal
    numbers. *)
Fixpoint fields (s : string) : list string :=
  match s with
  | EmptyString => [EmptyString]
  | String c r =>
      if Ascii.eqb c ":" then EmptyString :: fields r
      else match fields r with
           | f :: fs => String c f :: fs
           | [] => [String c EmptyString]
           end
  end.

Definition number_of (s : string) : option Z :=
  match DecimalString.NilZero.uint_of_string s with
  | Some d => Some (Z.of_N (N.of_uint d))
  | None => None
  end.

Definition seconds_of (s : string) : option Z :=
  match map number_of (fields s) with
  | [Some h; Some m; Some sec] =>
      if ((m <? 60) && (sec <? 60))%Z
      then Some (h * 3600 + m * 60 + sec)%Z
      else None
  | _ => None
  end.

Fixpoint no_colon (s : string) : Prop :=
  match s with
  | EmptyString => True
  | String c r => Ascii.eqb c ":" = false /\ no_colon r
  end.



(** ** The preview next to the pointer *)

(** [computePopoverPosAtMouse] (App.js 199-210); [innerWidth] and
    [innerHeight] are those of the window. *)
Definition computePopoverPosAtMouse (innerWidth innerHeight cx cy : Q)
  : Q * Q :=
  let vw := Js.or innerWidth 1200 in
  let vh := Js.or innerHeight 800 in
  let W := 240 in
  let H := 300 in
  let x := Js.min (vw - W - 8) (Js.max 8 (cx + 12)) in
  let y := Js.min (vh - H - 8) (Js.max 8 (cy + 12)) in
  (x, y).



(** ** Painting the strokes *)

(** The calls made on the 2D context of a page canvas. *)
Inductive CtxCall : Set :=
| ClearRect
| LineCap (v : string)
| LineJoin (v : string)
| StrokeStyle (v : string)
| FillStyle (v : string)
| LineWidth (v : Q)
| BeginPath
| Arc (cx cy radius : Q)
| Fill
| MoveTo (vx vy : Q)
| LineTo (vx vy : Q)
| StrokePath.

(** [drawStrokeOnContext(ctx, stroke)] (App.js 901-926), [ctx] being
    there. *)
Definition drawStrokeOnContext (stroke : Box) : list CtxCall :=
  match points stroke with
  | [] => []
  | p0 :: rest =>
      let offX := Js.or (offsetX stroke) 0 in
      let offY := Js.or (offsetY stroke) 0 in
      let width := Js.or (strokeWidth stroke) 3 in
      let setup := [LineCap "round"; LineJoin "round"; StrokeStyle "#ff4141";
                    LineWidth width] in
      match rest with
      | [] =>
          setup ++ [FillStyle "#ff4141"; BeginPath;
                    Arc (px p0 + offX) (py p0 + offY) (width / 2); Fill]
      | _ =>
          setup ++ [BeginPath; MoveTo (px p0 + offX) (py p0 + offY)]
                ++ map (fun p => LineTo (px p + offX) (py p + offY)) rest
                ++ [StrokePath]
      end
  end.

(** [renderPageCanvas(pageIdx)] (App.js 928-940): nothing without a
    canvas; otherwise the canvas is cleared, the strokes of the cache are
    painted and, above them, the stroke under way when it is on this
    page. *)
Definition renderPageCanvas (canvasRefs : Z -> option Rect)
    (cache : StrokeCache) (active : option Box) (pageIdx : Z)
  : list CtxCall :=
  match canvasRefs pageIdx with
  | None => []
  | Some _ =>
      ClearRect
      :: flat_map drawStrokeOnContext (cache pageIdx)
      ++ match active with
         | Some stroke =>
             if Z.eqb (page stroke) pageIdx then drawStrokeOnContext stroke
             else []
         | None => []
         end
  end.

(** The places a sequence of calls paints at: the centre of a dot, the
    start and the corners of a path. *)
Definition vertices (calls : list CtxCall) : list (Q * Q) :=
  flat_map (fun c => match c with
                     | Arc vx vy _ | MoveTo vx vy | LineTo vx vy => [(vx, vy)]
                     | _ => []
                     end) calls.

(** The line widths a sequence of calls sets. *)
Definition widths (calls : list CtxCall) : list Q :=
  flat_map (fun c => match c with LineWidth v => [v] | _ => [] end) calls.

(** The samples of a stroke where they are on the page: shifted by the
    offset of the stroke. *)
Definition placed_points (stroke : Box) : list (Q * Q) :=
  map (fun p => (px p + Js.or (offsetX stroke) 0,
                 py p + Js.or (offsetY stroke) 0)) (points stroke).

(** Whether a place is within the erase radius of the point. *)
Definition near (ex0 ey0 : Q) (v : Q * Q) : bool :=
  Js.leb ((fst v - ex0) * (fst v - ex0) + (snd v - ey0) * (snd v - ey0)) rad2.

(** The second place is the first one moved by [(dx, dy)]. *)
Definition shifted_by (dx dy : Q) (v v' : Q * Q) : Prop :=
  fst v' == fst v + dx /\ snd v' == snd v + dy.


(** * Properties *)

Lemma BoxType_eqb_eq a b : BoxType_eqb a b = true <-> a = b.
Proof. destruct a, b; simpl; split; intro E; congruence. Qed.

(** ** Facts about cloning *)

Lemma json_clone_point_id p : json_clone_point p = p.
Proof. destruct p; reflexivity. Qed.

Lemma json_clone_box_id b : json_clone_box b = b.
Proof.
  destruct b; unfold json_clone_box; simpl.
  f_equal. induction points0 as [|p ps IH]; simpl; [reflexivity|].
  now rewrite json_clone_point_id, IH.
Qed.

Lemma json_clone_id l : json_clone l = l.
Proof.
  induction l as [|b l IH]; simpl; [reflexivity|].
  now rewrite json_clone_box_id, IH.
Qed.

(** ** Undo and redo on an empty stack *)

Lemma undo_empty r st : historyRef st = [] -> undo r st = st.
Proof. unfold undo; intros ->; reflexivity. Qed.

Lemma redo_empty r st : redoRef st = [] -> redo r st = st.
Proof. unfold redo; intros ->; reflexivity. Qed.

Lemma toLowerCase_z_not_b s :
  String.eqb (toLowerCase s) "z" = true -> String.eqb (toLowerCase s) "b" = false.
Proof.
  intros E. apply String.eqb_eq in E. rewrite E. reflexivity.
Qed.

Lemma onKey_undo r fresh placing ta e st :
  undo_shortcut e = true ->
  onKey r fresh placing ta e st = st \/ onKey r fresh placing ta e st = undo r st.
Proof.
  unfold undo_shortcut, onKey. intros E.
  apply andb_prop in E as [E Es]. apply andb_prop in E as [Ec Ez].
  destruct (String.eqb (key e) "Escape" && placing); [now left|].
  destruct ta; [now left|].
  destruct (selectedIds r); [now left|].
  rewrite Ec, (toLowerCase_z_not_b _ Ez), Ez. simpl.
  apply negb_true_iff in Es. rewrite Es. now right.
Qed.

Lemma onKey_redo r fresh placing ta e st :
  redo_shortcut e = true ->
  onKey r fresh placing ta e st = st \/ onKey r fresh placing ta e st = redo r st.
Proof.
  unfold redo_shortcut, onKey. intros E.
  apply andb_prop in E as [E Es]. apply andb_prop in E as [Ec Ez].
  destruct (String.eqb (key e) "Escape" && placing); [now left|].
  destruct ta; [now left|].
  destruct (selectedIds r); [now left|].
  rewrite Ec, (toLowerCase_z_not_b _ Ez), Ez. simpl.
  rewrite Es. now right.
Qed.

(** C10.  Undo on an empty undo stack and redo on an empty redo stack
    change nothing: the collection, the selection and both stacks are the
    ones before, whether the toolbar button or the keyboard shortcut
    (from whatever render the listener captured) is used. *)
Theorem undo_redo_on_empty_stack_is_noop (st : Editor) :
  (historyRef st = [] ->
   toolbarUndo st = st /\
   forall r fresh placing ta e,
     undo_shortcut e = true -> onKey r fresh placing ta e st = st) /\
  (redoRef st = [] ->
   toolbarRedo st = st /\
   forall r fresh placing ta e,
     redo_shortcut e = true -> onKey r fresh placing ta e st = st).
Proof.
  split; intros H0; split.
  - now apply undo_empty.
  - intros r fresh placing ta e E.
    destruct (onKey_undo r fresh placing ta e st E) as [-> | ->];
      [reflexivity | now apply undo_empty].
  - now apply redo_empty.
  - intros r fresh placing ta e E.
    destruct (onKey_redo r fresh placing ta e st E) as [-> | ->];
      [reflexivity | now apply redo_empty].
Qed.

Lemma undo_redo_on_empty_stack_witness :
  let s := Sample.store_of [Sample.comment] ["b_1"] in
  toolbarUndo s = s /\ toolbarRedo s = s /\
  onKey (render s) Sample.fresh false false (Sample.ctrl "z" false) s = s /\
  onKey (render s) Sample.fresh false false (Sample.ctrl "Z" true) s = s.
Proof.
  intros s.
  destruct (undo_redo_on_empty_stack_is_noop s) as [Hu Hr].
  destruct (Hu eq_refl) as [Hu1 Hu2].
  destruct (Hr eq_refl) as [Hr1 Hr2].
  split; [exact Hu1|].
  split; [exact Hr1|].
  split; [apply Hu2 | apply Hr2]; reflexivity.
Defined.

(** ** Resizing *)


(** *** Arithmetic of [Math.max] and of [||] *)

Lemma max_ge_l a b : a <= Js.max a b.
Proof. apply Q.le_max_l. Qed.

Lemma max_ge_r a b : b <= Js.max a b.
Proof. apply Q.le_max_r. Qed.

Lemma max_of_le a b : a <= b -> Js.max a b == b.
Proof. intros H; unfold Js.max; now apply Q.max_r. Qed.

Lemma max_cases a b : Js.max a b == a \/ Js.max a b == b.
Proof.
  unfold Js.max. destruct (Q.max_spec a b) as [[_ E] | [_ E]]; auto.
Qed.

Lemma truthy_false a : Js.truthy a = false -> a == 0.
Proof.
  unfold Js.truthy. intros H. apply negb_false_iff in H.
  now apply Qeq_bool_iff.
Qed.

Lemma truthy_true a : ~ a == 0 -> Js.truthy a = true.
Proof.
  unfold Js.truthy. intros H. apply negb_true_iff.
  destruct (Qeq_bool a 0) eqn:E; [|reflexivity].
  apply Qeq_bool_iff in E. contradiction.
Qed.

Lemma or_of_nonzero a b : ~ a == 0 -> Js.or a b = a.
Proof. intros H. unfold Js.or. now rewrite truthy_true. Qed.

Lemma or_zero a : Js.or a 0 == a.
Proof.
  unfold Js.or. destruct (Js.truthy a) eqn:E; [reflexivity|].
  symmetry. now apply truthy_false.
Qed.

(** *** Assignment at an index *)

Lemma assign_length i nb l : List.length (assign i nb l) = List.length l.
Proof.
  revert i; induction l as [|b l IH]; intros [|i]; simpl; auto.
Qed.

Lemma assign_Forall2 (R : Box -> Box -> Prop) i b nb l :
  (forall c, R c c) -> nth_error l i = Some b -> R b nb ->
  Forall2 R l (assign i nb l).
Proof.
  intros Hrefl. revert i; induction l as [|c l IH]; intros [|i]; simpl;
    try discriminate.
  - intros [= ->] Hr. constructor; [exact Hr|].
    clear IH. induction l; constructor; auto.
  - intros Hn Hr. constructor; [apply Hrefl | now apply IH].
Qed.

Lemma Forall2_refl_on (R : Box -> Box -> Prop) l :
  (forall c, R c c) -> Forall2 R l l.
Proof. intros H; induction l; constructor; auto. Qed.

(** The relations between an object before and after an operation are
    reflexive; [unchanged] closes the goals where the collection is
    returned as it is. *)
Create HintDb frame.

Ltac unchanged := apply Forall2_refl_on; auto with frame.

Lemma assign_nth i nb l b :
  nth_error l i = Some b -> nth_error (assign i nb l) i = Some nb.
Proof.
  revert i; induction l as [|c l IH]; intros [|i]; simpl; try discriminate; auto.
Qed.

(** *** Corner drags of a generic box *)

Lemma resize_update_generic dom g ev p2 j b :
  type (rz_startBox g) <> Arrow -> type (rz_startBox g) <> Line ->
  findIndex (rz_id g) p2 = Some j -> nth_error p2 j = Some b ->
  resize_update dom g ev p2
  = assign j (resize_generic g (clientX ev - rz_startX g)
                               (clientY ev - rz_startY g) b) p2.
Proof.
  intros Ha Hl Hj Hb. unfold resize_update. rewrite Hj, Hb.
  destruct (type (rz_startBox g)); try reflexivity; contradiction.
Qed.

Lemma corner_drag_size g dx dy b :
  is_corner (rz_corner g) = true ->
  w (resize_generic g dx dy b) = Js.max 80 (startW g * corner_scale g dx dy) /\
  h (resize_generic g dx dy b) = Js.max 40 (startH g * corner_scale g dx dy).
Proof.
  intros Hc. unfold resize_generic.
  destruct (requested g dx dy) as [[[nx ny] nw] nh].
  rewrite Hc. rewrite andb_false_r.
  destruct (rz_corner g); try discriminate;
    destruct (type (rz_startBox g)); split; reflexivity.
Qed.

Lemma corner_drag_font g dx dy b :
  is_corner (rz_corner g) = true ->
  fontSize (resize_generic g dx dy b)
  = match type (rz_startBox g) with
    | Image => fontSize b
    | _ => Some (Js.max 8 (Js.round (Js.or_undef (fontSize (rz_startBox g)) 16
                                     * corner_scale g dx dy)))
    end.
Proof.
  intros Hc. unfold resize_generic.
  destruct (requested g dx dy) as [[[nx ny] nw] nh].
  rewrite Hc. rewrite andb_false_r.
  destruct (rz_corner g); try discriminate;
    destruct (type (rz_startBox g)); reflexivity.
Qed.

Lemma corner_scale_is_larger g dx dy :
  scale_x g dx dy <= corner_scale g dx dy /\
  scale_y g dx dy <= corner_scale g dx dy /\
  (corner_scale g dx dy == scale_x g dx dy \/
   corner_scale g dx dy == scale_y g dx dy).
Proof.
  unfold corner_scale. repeat split.
  - apply max_ge_l.
  - apply max_ge_r.
  - apply max_cases.
Qed.




(** *** Lines and arrows *)

Lemma same_but_endpoints_refl b : same_but_endpoints b b.
Proof. destruct b; reflexivity. Qed.

#[local] Hint Resolve same_but_endpoints_refl : frame.

Lemma resize_arrow_endpoints dom g ev b b' :
  resize_arrow dom g ev b = Some b' -> same_but_endpoints b b'.
Proof.
  unfold resize_arrow. destruct (arrow_image dom _); [|discriminate].
  intros [= <-]. destruct b; destruct (rz_corner g); reflexivity.
Qed.

Lemma line_thickness_ge_1 b : 1 <= line_thickness b.
Proof. apply max_ge_l. Qed.

Lemma resize_line_height g dx b :
  h (resize_line g dx b) = line_thickness (rz_startBox g).
Proof.
  unfold resize_line. destruct (rz_corner g); reflexivity.
Qed.

Lemma line_thickness_of_thick b : 1 <= h b -> line_thickness b == h b.
Proof.
  intros H. unfold line_thickness.
  assert (Hnz : ~ h b == 0).
  { intros E. rewrite E in H. apply Qle_not_lt in H. now apply H. }
  rewrite (or_of_nonzero _ _ Hnz). now apply max_of_le.
Qed.

Lemma resize_line_left g dx b :
  (rz_corner g = L \/ rz_corner g = TL \/ rz_corner g = BL) ->
  x (resize_line g dx b) = Js.max 0 (x (rz_startBox g) + dx) /\
  w (resize_line g dx b) = Js.max 10 (w (rz_startBox g) - dx).
Proof.
  unfold resize_line. intros [-> | [-> | ->]]; split; reflexivity.
Qed.

Lemma resize_line_width_min g dx b : 10 <= w (resize_line g dx b).
Proof.
  unfold resize_line. destruct (rz_corner g); simpl; apply max_ge_l.
Qed.




(** ** Projection of a suggestion onto the page surface *)

Lemma scaleX_rendered img p :
  ~ width (rect img) == 0 -> 0 < page_w p ->
  scaleX img p = width (rect img) / page_w p.
Proof.
  intros Hs Hp. unfold scaleX.
  rewrite (or_of_nonzero (width (rect img))) by exact Hs.
  rewrite (or_of_nonzero (page_w p)); [reflexivity|].
  intros E. rewrite E in Hp. now apply Qlt_irrefl in Hp.
Qed.

Lemma scaleY_rendered img p :
  ~ height (rect img) == 0 -> 0 < page_h p ->
  scaleY img p = height (rect img) / page_h p.
Proof.
  intros Hs Hp. unfold scaleY.
  rewrite (or_of_nonzero (height (rect img))) by exact Hs.
  rewrite (or_of_nonzero (page_h p)); [reflexivity|].
  intros E. rewrite E in Hp. now apply Qlt_irrefl in Hp.
Qed.

Lemma pos_nonzero a : 0 < a -> ~ a == 0.
Proof. intros H E. rewrite E in H. now apply Qlt_irrefl in H. Qed.



(** ** Erasing strokes *)

Lemma cache_copy_id b : cache_copy b = b.
Proof. exact (json_clone_box_id b). Qed.

Lemma map_cache_copy l : map cache_copy l = l.
Proof.
  induction l as [|b l IH]; simpl; [reflexivity|].
  now rewrite cache_copy_id, IH.
Qed.

Lemma includes_In k ids : includes k ids = true <-> In k ids.
Proof.
  unfold includes. rewrite existsb_exists. split.
  - intros (k' & Hin & E). apply String.eqb_eq in E. now subst.
  - intros Hin. exists k. split; [exact Hin | apply String.eqb_refl].
Qed.

Lemma NoDup_ids_unique (l : list Box) a b :
  NoDup (map id l) -> In a l -> In b l -> id a = id b -> a = b.
Proof.
  induction l as [|c l IH]; simpl; [contradiction|].
  intros Hnd [-> | Ha] [-> | Hb] E; inversion Hnd as [|? ? Hnotin Hnd']; subst.
  - reflexivity.
  - exfalso. apply Hnotin. rewrite E. now apply in_map.
  - exfalso. apply Hnotin. rewrite <- E. now apply in_map.
  - now apply IH.
Qed.

Lemma filter_all_false {A} (f : A -> bool) l :
  (forall a, In a l -> f a = false) -> filter (fun a => negb (f a)) l = l.
Proof.
  intros H. induction l as [|a l IH]; simpl; [reflexivity|].
  rewrite (H a) by now left. simpl. f_equal. apply IH.
  intros b Hb. apply H. now right.
Qed.

Lemma filter_nil_all_false {A} (f : A -> bool) l :
  filter f l = [] -> forall a, In a l -> f a = false.
Proof.
  intros H a Ha. destruct (f a) eqn:E; [|reflexivity].
  assert (Hin : In a (filter f l)) by (apply filter_In; auto).
  rewrite H in Hin. contradiction.
Qed.

Lemma erase_at_boxes st pageIdx ex0 ey0 :
  NoDup (map id (st_boxes st)) ->
  st_boxes (erase_at pageIdx ex0 ey0 st)
  = filter (fun b => negb (hit pageIdx ex0 ey0 b)) (st_boxes st).
Proof.
  intros Hnd. unfold erase_at, eraseStrokeAt, build_cache.
  rewrite map_cache_copy.
  set (on_page := fun b => is_draw b && Z.eqb (page b) pageIdx).
  destruct (filter on_page (st_boxes st)) as [|s0 strokes0] eqn:Hstrokes.
  - simpl. symmetry. apply filter_all_false. intros b Hb.
    unfold hit. fold (on_page b).
    rewrite (filter_nil_all_false on_page _ Hstrokes b Hb). reflexivity.
  - rewrite <- Hstrokes.
    destruct (map id (filter (intersects ex0 ey0) (filter on_page (st_boxes st))))
      as [|i0 ids0] eqn:Hids.
    + simpl. symmetry. apply filter_all_false. intros b Hb.
      unfold hit. fold (on_page b).
      destruct (on_page b) eqn:Hon; [|reflexivity]. simpl.
      apply map_eq_nil in Hids.
      apply (filter_nil_all_false _ _ Hids b).
      apply filter_In. auto.
    + rewrite <- Hids. simpl.
      apply filter_ext_in. intros b Hb. f_equal.
      unfold hit. fold (on_page b).
      destruct (includes (id b) _) eqn:Hinc.
      * apply includes_In in Hinc. apply in_map_iff in Hinc.
        destruct Hinc as (s & Eid & Hs).
        apply filter_In in Hs as [Hs Hint].
        apply filter_In in Hs as [Hs Hon].
        assert (s = b) by (eapply NoDup_ids_unique; eauto). subst s.
        rewrite Hint, Hon. unfold on_page in Hon.
        apply andb_prop in Hon as [Hd _]. rewrite Hd. reflexivity.
      * rewrite andb_false_r.
        destruct (on_page b) eqn:Hon; [|reflexivity]. simpl.
        destruct (intersects ex0 ey0 b) eqn:Hint; [|reflexivity].
        exfalso.
        assert (Hin : In (id b) (map id (filter (intersects ex0 ey0)
                                          (filter on_page (st_boxes st))))).
        { apply in_map. apply filter_In. split; [|exact Hint].
          apply filter_In. auto. }
        apply includes_In in Hin. congruence.
Qed.

Lemma erase_at_noop st pageIdx ex0 ey0 :
  (forall b, In b (st_boxes st) -> hit pageIdx ex0 ey0 b = false) ->
  erase_at pageIdx ex0 ey0 st = st.
Proof.
  intros Hno. unfold erase_at, eraseStrokeAt, build_cache.
  rewrite map_cache_copy.
  set (on_page := fun b => is_draw b && Z.eqb (page b) pageIdx).
  destruct (filter on_page (st_boxes st)) as [|s0 strokes0] eqn:Hstrokes;
    [reflexivity|].
  rewrite <- Hstrokes.
  destruct (filter (intersects ex0 ey0) (filter on_page (st_boxes st)))
    as [|s ss] eqn:Hrem; [reflexivity|].
  exfalso.
  assert (Hs : In s (filter (intersects ex0 ey0) (filter on_page (st_boxes st))))
    by (rewrite Hrem; now left).
  apply filter_In in Hs as [Hs Hint]. apply filter_In in Hs as [Hs Hon].
  specialize (Hno s Hs). unfold hit in Hno. fold (on_page s) in Hno.
  rewrite Hon, Hint in Hno. discriminate.
Qed.

Lemma erase_at_frame st pageIdx ex0 ey0 :
  st_selectedIds (erase_at pageIdx ex0 ey0 st) = st_selectedIds st /\
  historyRef (erase_at pageIdx ex0 ey0 st) = historyRef st /\
  redoRef (erase_at pageIdx ex0 ey0 st) = redoRef st /\
  clipboard (erase_at pageIdx ex0 ey0 st) = clipboard st.
Proof.
  unfold erase_at, eraseStrokeAt.
  destruct (build_cache (st_boxes st) pageIdx); [repeat split|].
  destruct (map id _); repeat split.
Qed.

Lemma intersects_spec ex0 ey0 b :
  intersects ex0 ey0 b = true <->
  exists p, In p (points b) /\
            (px p + offsetX b - ex0) * (px p + offsetX b - ex0)
            + (py p + offsetY b - ey0) * (py p + offsetY b - ey0) <= 12 * 12.
Proof.
  unfold intersects. rewrite existsb_exists.
  split; intros (p & Hp & H); exists p; (split; [exact Hp|]).
  - apply Qle_bool_iff in H. rewrite !or_zero in H. exact H.
  - apply Qle_bool_iff. rewrite !or_zero. exact H.
Qed.

(** C4.  One erase step at a point of a page removes from the collection
    exactly the strokes of that page with a sample, shifted by the
    stroke's offset, within distance 12 of the point (the boundary
    included); a stroke goes as a whole and every other object stays, in
    order and unchanged; selection, history and clipboard are untouched;
    when no stroke is touched the store is left as it is.  Objects are
    told apart by their ids, which are unique in the collection. *)
Theorem erase_removes_exactly_touched_strokes :
  forall (st : Editor) (pageIdx : Z) (ex0 ey0 : Q),
    NoDup (map id (st_boxes st)) ->
    st_boxes (erase_at pageIdx ex0 ey0 st)
    = filter (fun b => negb (hit pageIdx ex0 ey0 b)) (st_boxes st) /\
    (forall b, hit pageIdx ex0 ey0 b = true <->
               type b = Draw /\ page b = pageIdx /\
               exists p, In p (points b) /\
                 (px p + offsetX b - ex0) * (px p + offsetX b - ex0)
                 + (py p + offsetY b - ey0) * (py p + offsetY b - ey0)
                 <= 12 * 12) /\
    st_selectedIds (erase_at pageIdx ex0 ey0 st) = st_selectedIds st /\
    historyRef (erase_at pageIdx ex0 ey0 st) = historyRef st /\
    redoRef (erase_at pageIdx ex0 ey0 st) = redoRef st /\
    ((forall b, In b (st_boxes st) -> hit pageIdx ex0 ey0 b = false) ->
     erase_at pageIdx ex0 ey0 st = st).
Proof.
  intros st pageIdx ex0 ey0 Hnd.
  destruct (erase_at_frame st pageIdx ex0 ey0) as (Hs & Hh & Hr & _).
  split; [now apply erase_at_boxes|].
  split.
  { intros b. unfold hit, is_draw.
    rewrite !andb_true_iff, BoxType_eqb_eq, Z.eqb_eq, intersects_spec.
    tauto. }
  split; [exact Hs|]. split; [exact Hh|]. split; [exact Hr|].
  apply erase_at_noop.
Qed.

Lemma erase_removes_exactly_touched_strokes_witness :
  let st := Sample.store_of [Sample.stroke; Sample.comment; Sample.far_stroke] [] in
  st_boxes (erase_at 0 10 0 st) = [Sample.comment; Sample.far_stroke] /\
  erase_at 0 200 200 st = st.
Proof.
  intros st.
  assert (Hnd : NoDup (map id (st_boxes st))).
  { simpl. repeat constructor; simpl; intuition discriminate. }
  destruct (erase_removes_exactly_touched_strokes st 0%Z 10 0 Hnd)
    as (Hb & _).
  destruct (erase_removes_exactly_touched_strokes st 0%Z 200 200 Hnd)
    as (_ & _ & _ & _ & _ & Hno).
  split.
  - rewrite Hb. reflexivity.
  - apply Hno. intros b [<- | [<- | [<- | []]]]; reflexivity.
Defined.

(** ** Strokes keep their points *)

Lemma stroke_data_kept_refl b : stroke_data_kept b b.
Proof. repeat split. Qed.

#[local] Hint Resolve stroke_data_kept_refl : frame.

Lemma stroke_data_kept_trans a b c :
  stroke_data_kept a b -> stroke_data_kept b c -> stroke_data_kept a c.
Proof.
  unfold stroke_data_kept.
  intros (H1 & H2 & H3 & H4 & H5 & H6) (K1 & K2 & K3 & K4 & K5 & K6).
  repeat split; congruence.
Qed.

Lemma stroke_untouched_refl b : stroke_untouched b b.
Proof. split; [apply stroke_data_kept_refl | reflexivity]. Qed.

#[local] Hint Resolve stroke_untouched_refl : frame.

Lemma stroke_untouched_trans a b c :
  stroke_untouched a b -> stroke_untouched b c -> stroke_untouched a c.
Proof.
  intros [H1 H2] [K1 K2]. split; [eapply stroke_data_kept_trans; eauto|].
  intros Hd. specialize (H2 Hd). subst b. now apply K2.
Qed.

Lemma Forall2_trans_on (R : Box -> Box -> Prop) l1 l2 l3 :
  (forall a b c, R a b -> R b c -> R a c) ->
  Forall2 R l1 l2 -> Forall2 R l2 l3 -> Forall2 R l1 l3.
Proof.
  intros Ht H12. revert l3. induction H12; intros l3 H23; inversion H23; subst;
    constructor; eauto.
Qed.

Lemma is_draw_false_of_type b : type b <> Draw -> is_draw b = false.
Proof. unfold is_draw. destruct (type b); auto; contradiction. Qed.

(** Writing coordinates, a page, a size or a font size into an object
    that is not a stroke. *)
Lemma stroke_untouched_of_kept b b' :
  is_draw b = false -> stroke_data_kept b b' -> stroke_untouched b b'.
Proof. intros Hd Hk. split; [exact Hk|]. rewrite Hd. discriminate. Qed.

Lemma move_one_untouched starts dx dy arr bid arr' :
  move_one starts dx dy arr bid = Some arr' ->
  Forall2 stroke_untouched arr arr'.
Proof.
  unfold move_one.
  destruct (findIndex bid arr) as [i|];
    [|intros [= <-]; unchanged].
  destruct (nth_error arr i) as [nb|] eqn:Hn;
    [|intros [= <-]; unchanged].
  destruct (type nb) eqn:Ht;
    try (intros [= <-]; unchanged);
    (destruct (lookup_start bid starts); [|discriminate]);
    intros [= <-];
    (apply assign_Forall2 with (b := nb);
     [apply stroke_untouched_refl | exact Hn |
      apply stroke_untouched_of_kept;
      [apply is_draw_false_of_type; congruence | repeat split]]).
Qed.

Lemma move_loop_untouched starts dx dy sel arr arr' :
  move_loop starts dx dy sel arr = Some arr' ->
  Forall2 stroke_untouched arr arr'.
Proof.
  revert arr. induction sel as [|bid sel IH]; simpl; intros arr.
  - intros [= <-]. unchanged.
  - destruct (move_one starts dx dy arr bid) as [arr1|] eqn:H1; [|discriminate].
    intros H2. eapply Forall2_trans_on.
    + apply stroke_untouched_trans.
    + eapply move_one_untouched; eauto.
    + now apply IH.
Qed.

Lemma move_update_untouched g ev p2 :
  Forall2 stroke_untouched p2 (move_update g ev p2).
Proof.
  unfold move_update.
  destruct (move_loop _ _ _ _ p2) as [arr|] eqn:H; simpl.
  - eapply move_loop_untouched; eauto.
  - unchanged.
Qed.

Lemma find_in_first_match k prev next i nb ob :
  Forall2 stroke_untouched prev next ->
  findIndex k next = Some i -> nth_error next i = Some nb ->
  find_box k prev = Some ob -> type nb = type ob.
Proof.
  intros HF. revert i. induction HF as [|a b prev next Hab HF IH]; intros i;
    simpl; [discriminate|].
  destruct Hab as [(Hid & Hty & _) _].
  rewrite <- Hid at 1.
  destruct (String.eqb (id b) k).
  - intros [= <-]. simpl. intros [= <-] [= <-]. exact Hty.
  - destruct (findIndex k next) as [j|]; [|discriminate].
    simpl. intros [= <-]. simpl. intros Hn Hf. now apply (IH j).
Qed.

Lemma drop_one_untouched dom starts dx dy img prev next bid next' :
  Forall2 stroke_untouched prev next ->
  drop_one dom starts dx dy img prev next bid = Some next' ->
  Forall2 stroke_untouched next next'.
Proof.
  intros HF. unfold drop_one.
  destruct (findIndex bid next) as [i|] eqn:Hi;
    [|intros [= <-]; unchanged].
  destruct (nth_error next i) as [nb|] eqn:Hn;
    [|intros [= <-]; unchanged].
  destruct (find_box bid prev) as [ob|] eqn:Hf; [|discriminate].
  destruct (is_draw ob) eqn:Hd;
    [intros [= <-]; unchanged|].
  assert (Hnb : is_draw nb = false).
  { unfold is_draw in *.
    now rewrite (find_in_first_match bid prev next i nb ob HF Hi Hn Hf). }
  destruct (lookup_start bid starts); [|discriminate].
  destruct (Z.eqb (page ob) (dataPageIndex img)).
  - intros [= <-]. apply assign_Forall2 with (b := nb);
      [apply stroke_untouched_refl | exact Hn |].
    apply stroke_untouched_of_kept; [exact Hnb | repeat split].
  - destruct (find_image (page ob) (imgs dom));
      [|intros [= <-]; unchanged].
    intros [= <-]. apply assign_Forall2 with (b := nb);
      [apply stroke_untouched_refl | exact Hn |].
    apply stroke_untouched_of_kept; [exact Hnb | repeat split].
Qed.

Lemma drop_loop_untouched dom starts dx dy img prev sel next next' :
  Forall2 stroke_untouched prev next ->
  drop_loop dom starts dx dy img prev sel next = Some next' ->
  Forall2 stroke_untouched prev next'.
Proof.
  revert next. induction sel as [|bid sel IH]; simpl; intros next HF.
  - now intros [= <-].
  - destruct (drop_one dom starts dx dy img prev next bid) as [n1|] eqn:H1;
      [|discriminate].
    intros H2. apply (IH n1); [|exact H2].
    eapply Forall2_trans_on; [apply stroke_untouched_trans | exact HF |].
    eapply drop_one_untouched; eauto.
Qed.

Lemma drop_update_untouched dom g ev img prev :
  Forall2 stroke_untouched prev (drop_update dom g ev img prev).
Proof.
  unfold drop_update.
  destruct (drop_loop _ _ _ _ _ prev _ prev) as [n|] eqn:H; simpl.
  - eapply drop_loop_untouched; [|exact H].
    unchanged.
  - unchanged.
Qed.

(** The whole move gesture, listener by listener. *)
Lemma move_move_untouched g ev st :
  Forall2 stroke_untouched (st_boxes st) (st_boxes (move_move g ev st)).
Proof.
  unfold move_move. destruct (other_pointer _ ev); simpl.
  - unchanged.
  - apply move_update_untouched.
Qed.

Lemma move_up_untouched combinePages dom g ev st :
  Forall2 stroke_untouched (st_boxes st)
          (st_boxes (fst (move_up combinePages dom g ev st))).
Proof.
  unfold move_up. destruct (other_pointer _ ev); simpl;
    [unchanged|].
  destruct (combinePages && mounted dom); simpl;
    [|unchanged].
  destruct (drop_image ev (imgs dom)); simpl.
  - apply drop_update_untouched.
  - unchanged.
Qed.

Lemma onPointerDownBox_boxes r dom rs e k st :
  st_boxes (fst (onPointerDownBox r dom rs e k st)) = st_boxes st.
Proof.
  unfold onPointerDownBox.
  destruct (find_box k (boxes r)) as [t|].
  - destruct (is_draw t); simpl.
    + destruct (negb (includes k (selectedIds r))); reflexivity.
    + destruct (rs || negb (mounted dom)); simpl;
        repeat match goal with
               | |- context [if ?c then _ else _] => destruct c
               | |- context [match ?c with Some _ => _ | None => _ end] => destruct c
               end; reflexivity.
  - destruct (rs || negb (mounted dom)); simpl;
      destruct (negb (includes k (selectedIds r))); reflexivity.
Qed.

Lemma kept_outside_refl f b : kept_outside f b b.
Proof. split; [apply stroke_data_kept_refl | reflexivity]. Qed.

#[local] Hint Resolve kept_outside_refl : frame.

Lemma findIndex_id k l j b :
  findIndex k l = Some j -> nth_error l j = Some b -> String.eqb (id b) k = true.
Proof.
  revert j. induction l as [|c l IH]; intros j; simpl; [discriminate|].
  destruct (String.eqb (id c) k) eqn:E.
  - intros [= <-]. simpl. now intros [= <-].
  - destruct (findIndex k l) as [i|]; [|discriminate].
    simpl. intros [= <-]. simpl. apply IH. reflexivity.
Qed.

Lemma resize_generic_kept g dx dy b :
  stroke_data_kept b (resize_generic g dx dy b).
Proof.
  unfold resize_generic.
  destruct (requested g dx dy) as [[[nx ny] nw] nh].
  destruct (isTextBox (rz_startBox g) && negb (is_corner (rz_corner g))).
  - destruct (fontSize (rz_startBox g)); repeat split.
  - destruct (is_corner (rz_corner g)); [|repeat split].
    destruct (rz_corner g); destruct (type (rz_startBox g)); repeat split.
Qed.

Lemma resize_line_kept g dx b : stroke_data_kept b (resize_line g dx b).
Proof. unfold resize_line. destruct (rz_corner g); repeat split. Qed.

Lemma resize_arrow_kept dom g ev b b' :
  resize_arrow dom g ev b = Some b' -> stroke_data_kept b b'.
Proof.
  unfold resize_arrow. destruct (arrow_image dom _); [|discriminate].
  intros [= <-]. destruct (rz_corner g); repeat split.
Qed.

Lemma resize_update_kept dom g ev p2 :
  Forall2 (kept_outside (fun b => String.eqb (id b) (rz_id g)))
          p2 (resize_update dom g ev p2).
Proof.
  set (R := kept_outside (fun b => String.eqb (id b) (rz_id g))).
  assert (Hrefl : forall c, R c c) by (intro; apply kept_outside_refl).
  unfold resize_update.
  destruct (findIndex (rz_id g) p2) as [j|] eqn:Hj;
    [|now apply Forall2_refl_on].
  destruct (nth_error p2 j) as [b|] eqn:Hb; [|now apply Forall2_refl_on].
  pose proof (findIndex_id _ _ _ _ Hj Hb) as Hid.
  assert (Hstep : forall b', stroke_data_kept b b' -> R b b').
  { intros b' Hk. split; [exact Hk|]. simpl. rewrite Hid. discriminate. }
  destruct (type (rz_startBox g)); try
    (apply assign_Forall2 with (b := b); auto;
     apply Hstep; first [apply resize_generic_kept | apply resize_line_kept]).
  destruct (resize_arrow dom g ev b) as [b'|] eqn:Hr;
    [|now apply Forall2_refl_on].
  apply assign_Forall2 with (b := b); auto.
  apply Hstep. eapply resize_arrow_kept; eauto.
Qed.

Lemma map_Forall2 (R : Box -> Box -> Prop) (f : Box -> Box) l :
  (forall b, R b (f b)) -> Forall2 R l (map f l).
Proof. intros H. induction l; simpl; constructor; auto. Qed.

Lemma resize_move_kept dom g ev st :
  Forall2 (kept_outside (fun b => String.eqb (id b) (rz_id g)))
          (st_boxes st) (st_boxes (resize_move dom g ev st)).
Proof.
  unfold resize_move. destruct (other_pointer _ ev); simpl.
  - unchanged.
  - apply resize_update_kept.
Qed.

Lemma resize_up_kept textRefs g ev st :
  Forall2 (kept_outside (fun b => String.eqb (id b) (rz_id g)))
          (st_boxes st) (st_boxes (fst (resize_up textRefs g ev st))).
Proof.
  assert (Hrefl : forall c, kept_outside (fun b => String.eqb (id b) (rz_id g)) c c)
    by (intro; apply kept_outside_refl).
  unfold resize_up. destruct (other_pointer _ ev); simpl;
    [now apply Forall2_refl_on|].
  destruct (is_corner (rz_corner g)); simpl; [|now apply Forall2_refl_on].
  destruct (textRefs (rz_id g)); simpl; [|now apply Forall2_refl_on].
  apply map_Forall2. intros b.
  destruct (String.eqb (id b) (rz_id g)) eqn:E.
  - split; [repeat split|]. simpl. rewrite E. discriminate.
  - apply Hrefl.
Qed.

Lemma nudge_kept r e st :
  Forall2 (kept_outside (fun b => includes (id b) (selectedIds r)))
          (st_boxes st) (st_boxes (nudge r e st)).
Proof.
  unfold nudge; simpl. apply map_Forall2. intros b.
  destruct (includes (id b) (selectedIds r)) eqn:E; simpl.
  - assert (Hs : forall b', stroke_data_kept b b' ->
                 kept_outside (fun b0 => includes (id b0) (selectedIds r)) b b').
    { intros b' Hk. split; [exact Hk|]. simpl. rewrite E. discriminate. }
    repeat match goal with
           | |- context [if ?c then _ else _] => destruct c
           end; apply Hs; repeat split.
  - apply kept_outside_refl.
Qed.

Lemma points_json_clone b : points (json_clone_box b) = points b.
Proof. now rewrite json_clone_box_id. Qed.

Lemma paste_clone_of nid b : clone_of b (paste_clone nid b).
Proof.
  unfold paste_clone, clone_of.
  rewrite json_clone_box_id.
  destruct (type (set_id nid b)); repeat split.
Qed.

Lemma paste_clones_of fresh i clip :
  Forall2 clone_of clip (paste_clones fresh i clip).
Proof.
  revert i. induction clip as [|b clip IH]; intros i; simpl; constructor.
  - apply paste_clone_of.
  - apply IH.
Qed.

Lemma paste_boxes fresh st :
  st_boxes (paste fresh st)
  = st_boxes st ++ paste_clones fresh O (clipboard st).
Proof.
  unfold paste. destruct (clipboard st); simpl.
  - now rewrite app_nil_r.
  - reflexivity.
Qed.

Lemma erase_at_is_filter st pageIdx ex0 ey0 :
  exists keep,
    st_boxes (erase_at pageIdx ex0 ey0 st) = filter keep (st_boxes st) /\
    forall b, keep b = false -> is_draw b = true.
Proof.
  unfold erase_at, eraseStrokeAt.
  assert (Hall : exists keep : Box -> bool,
             st_boxes st = filter keep (st_boxes st) /\
             forall b, keep b = false -> is_draw b = true).
  { exists (fun _ => true). split; [|discriminate].
    induction (st_boxes st) as [|b l IH]; simpl; congruence. }
  destruct (build_cache (st_boxes st) pageIdx); [exact Hall|].
  destruct (map id _) as [|i0 ids] eqn:E; [exact Hall|].
  simpl. eexists. split; [reflexivity|].
  intros c Hk. apply negb_false_iff in Hk.
  now apply andb_prop in Hk as [Hd _].
Qed.

(** C9.  No editor operation rewrites the sample points of a stroke that
    is in the collection.  Object by object, in place:
    - the listeners of a move gesture leave every stroke exactly as it is;
    - paste keeps the collection as a prefix and appends clones that have
      the points of their clipboard originals (a cloned stroke is shifted
      through its offset only);
    - an erase step is a filter of the collection that drops strokes
      only, whole;
    - the listeners of a resize gesture and the arrow keys keep id, kind,
      points, stroke width and offsets of every object, and do not touch
      an object other than the resized one, respectively an unselected
      one. *)
Theorem committed_strokes_keep_their_points :
  (forall g ev st,
      Forall2 stroke_untouched (st_boxes st) (st_boxes (move_move g ev st))) /\
  (forall combinePages dom g ev st,
      Forall2 stroke_untouched (st_boxes st)
              (st_boxes (fst (move_up combinePages dom g ev st)))) /\
  (forall fresh st,
      st_boxes (paste fresh st)
      = st_boxes st ++ paste_clones fresh O (clipboard st) /\
      Forall2 clone_of (clipboard st) (paste_clones fresh O (clipboard st))) /\
  (forall pageIdx ex0 ey0 st,
      exists keep,
        st_boxes (erase_at pageIdx ex0 ey0 st) = filter keep (st_boxes st) /\
        forall b, keep b = false -> is_draw b = true) /\
  (forall dom g ev st,
      Forall2 (kept_outside (fun b => String.eqb (id b) (rz_id g)))
              (st_boxes st) (st_boxes (resize_move dom g ev st))) /\
  (forall textRefs g ev st,
      Forall2 (kept_outside (fun b => String.eqb (id b) (rz_id g)))
              (st_boxes st) (st_boxes (fst (resize_up textRefs g ev st)))) /\
  (forall r e st,
      Forall2 (kept_outside (fun b => includes (id b) (selectedIds r)))
              (st_boxes st) (st_boxes (nudge r e st))).
Proof.
  split; [exact move_move_untouched|].
  split; [exact move_up_untouched|].
  split; [intros fresh st; split;
          [apply paste_boxes | apply paste_clones_of]|].
  split; [intros; apply erase_at_is_filter|].
  split; [exact resize_move_kept|].
  split; [exact resize_up_kept | exact nudge_kept].
Qed.

Lemma committed_strokes_keep_their_points_witness :
  let st := Sample.store_of [Sample.stroke; Sample.comment] ["d_1"; "b_1"] in
  let g := {| mv_sel := ["d_1"; "b_1"];
              mv_starts := make_starts (st_boxes st) ["d_1"; "b_1"];
              mv_startX := 50; mv_startY := 50; mv_pointerId := Some 1%Z |} in
  Forall2 stroke_untouched (st_boxes st)
          (st_boxes (move_move g (Sample.at_ 70 80) st)) /\
  Forall2 (kept_outside (fun b => includes (id b) ["b_1"]))
          (st_boxes st)
          (st_boxes (nudge {| boxes := st_boxes st; selectedIds := ["b_1"] |}
                           (Sample.ctrl "ArrowUp" false) st)).
Proof.
  intros st g.
  destruct committed_strokes_keep_their_points
    as (Hmove & _ & _ & _ & _ & _ & Hnudge).
  split.
  - exact (Hmove g (Sample.at_ 70 80) st).
  - exact (Hnudge {| boxes := st_boxes st; selectedIds := ["b_1"] |}
                  (Sample.ctrl "ArrowUp" false) st).
Defined.

(** ** What the history stacks receive *)

Lemma setBoxes_history f st :
  historyRef (setBoxes f st) = historyRef st /\
  redoRef (setBoxes f st) = redoRef st.
Proof. split; reflexivity. Qed.

Lemma paste_history fresh st :
  historyRef (paste fresh st) = historyRef st /\
  redoRef (paste fresh st) = redoRef st.
Proof. unfold paste. destruct (clipboard st); split; reflexivity. Qed.

(** The handlers that place, delete, move and resize push the captured
    collection and empty the redo stack. *)
Lemma placing_pushes_history dom current san r nid txt opts st :
  historyRef (addBox dom current san r nid txt opts st)
  = boxes r :: historyRef st /\
  redoRef (addBox dom current san r nid txt opts st) = [].
Proof.
  unfold addBox. destruct (select opts); simpl; rewrite json_clone_id; auto.
Qed.

Lemma deleting_pushes_history r st :
  historyRef (removeSelected r st) = boxes r :: historyRef st /\
  redoRef (removeSelected r st) = [].
Proof. unfold removeSelected; simpl. rewrite json_clone_id. auto. Qed.

Lemma resizing_pushes_history r e k corner st :
  historyRef (fst (onResizeDown r e k corner st)) = boxes r :: historyRef st /\
  redoRef (fst (onResizeDown r e k corner st)) = [].
Proof.
  unfold onResizeDown.
  destruct (findIndex k _) as [i|]; simpl; [|rewrite json_clone_id; auto].
  destruct (nth_error _ i); simpl; rewrite json_clone_id; auto.
Qed.

Lemma moving_pushes_history r dom rs e k st t :
  find_box k (boxes r) = Some t -> is_draw t = false ->
  historyRef (fst (onPointerDownBox r dom rs e k st)) = boxes r :: historyRef st /\
  redoRef (fst (onPointerDownBox r dom rs e k st)) = [].
Proof.
  intros Hf Hd. unfold onPointerDownBox. rewrite Hf, Hd.
  destruct (rs || negb (mounted dom)); simpl;
    repeat match goal with
           | |- context [if ?c then _ else _] => destruct c
           | |- context [match ?c with Some _ => _ | None => _ end] => destruct c
           end; simpl; rewrite json_clone_id; auto.
Qed.

(** C3 (the code departs from it).  Paste appends the clones and selects
    them but pushes nothing on the undo stack and leaves the redo stack
    as it is, on every store.  In the session where the comment box is
    dragged, the drag undone, the box copied and then pasted, the undo
    stack is empty after the paste, although the collection before the
    paste was the single comment box, and the redo stack still holds the
    undone collection. *)
Theorem paste_pushes_no_history :
  (forall fresh st,
      historyRef (paste fresh st) = historyRef st /\
      redoRef (paste fresh st) = redoRef st) /\
  let before := store Sample.before_paste in
  let after := store (step Sample.one_page false Sample.no_text_area
                           Sample.fresh Sample.before_paste Sample.key_paste) in
  st_boxes before = [Sample.comment] /\
  clipboard before = [Sample.comment] /\
  map id (st_boxes after) = ["b_1"; "n_0"] /\
  historyRef after = [] /\
  hd_error (historyRef after) <> Some (st_boxes before) /\
  redoRef after = [[Sample.moved_comment]].
Proof.
  split; [exact paste_history|].
  intros before after.
  split; [reflexivity|]. split; [reflexivity|]. split; [reflexivity|].
  split; [reflexivity|]. split; [|reflexivity].
  vm_compute. discriminate.
Qed.

(** ** Undo and redo after an operation *)

(** With the toolbar buttons, whose handlers read the current render:
    after any operation that pushed the collection it started from, undo
    brings that collection back and redo the collection the operation
    left, and the undo stack is again the one after the operation. *)
Lemma toolbar_undo_then_redo st st1 :
  historyRef st1 = st_boxes st :: historyRef st ->
  st_boxes (toolbarUndo st1) = st_boxes st /\
  st_boxes (toolbarRedo (toolbarUndo st1)) = st_boxes st1 /\
  historyRef (toolbarRedo (toolbarUndo st1)) = historyRef st1.
Proof.
  intros H. unfold toolbarUndo, toolbarRedo, undo, redo, render.
  rewrite H. simpl. rewrite !json_clone_id.
  split; [reflexivity|]. split; reflexivity.
Qed.

Lemma move_move_history g ev st :
  historyRef (move_move g ev st) = historyRef st.
Proof. unfold move_move. destruct (other_pointer _ ev); reflexivity. Qed.

Lemma move_up_history combinePages dom g ev st :
  historyRef (fst (move_up combinePages dom g ev st)) = historyRef st.
Proof.
  unfold move_up. destruct (other_pointer _ ev); [reflexivity|].
  destruct (combinePages && mounted dom); [|reflexivity].
  destruct (drop_image ev (imgs dom)); reflexivity.
Qed.

Lemma resize_move_history dom g ev st :
  historyRef (resize_move dom g ev st) = historyRef st.
Proof. unfold resize_move. destruct (other_pointer _ ev); reflexivity. Qed.

Lemma resize_up_history textRefs g ev st :
  historyRef (fst (resize_up textRefs g ev st)) = historyRef st.
Proof.
  unfold resize_up. destruct (other_pointer _ ev); [reflexivity|].
  destruct (is_corner (rz_corner g)); [|reflexivity].
  destruct (textRefs (rz_id g)); reflexivity.
Qed.

(** X1.  Place, delete, a whole move gesture and a whole resize gesture,
    each started from the current render and followed by the toolbar
    buttons: undo brings back the collection before the operation, redo
    the collection the operation left. *)
Lemma toolbar_roundtrip_of_operations :
  (forall dom current san nid txt opts st,
      let st1 := addBox dom current san (render st) nid txt opts st in
      st_boxes (toolbarUndo st1) = st_boxes st /\
      st_boxes (toolbarRedo (toolbarUndo st1)) = st_boxes st1) /\
  (forall st,
      let st1 := removeSelected (render st) st in
      st_boxes (toolbarUndo st1) = st_boxes st /\
      st_boxes (toolbarRedo (toolbarUndo st1)) = st_boxes st1) /\
  (forall dom combinePages rs e k t st g ev1 ev2,
      find_box k (st_boxes st) = Some t -> is_draw t = false ->
      let st1 := fst (move_up combinePages dom g ev2
                        (move_move g ev1
                           (fst (onPointerDownBox (render st) dom rs e k st)))) in
      st_boxes (toolbarUndo st1) = st_boxes st /\
      st_boxes (toolbarRedo (toolbarUndo st1)) = st_boxes st1) /\
  (forall dom textRefs e k corner st g ev1 ev2,
      let st1 := fst (resize_up textRefs g ev2
                        (resize_move dom g ev1
                           (fst (onResizeDown (render st) e k corner st)))) in
      st_boxes (toolbarUndo st1) = st_boxes st /\
      st_boxes (toolbarRedo (toolbarUndo st1)) = st_boxes st1).
Proof.
  split; [|split; [|split]].
  - intros dom current san nid txt opts st st1.
    destruct (toolbar_undo_then_redo st st1) as (H1 & H2 & _); [|auto].
    apply (placing_pushes_history dom current san (render st)).
  - intros st st1.
    destruct (toolbar_undo_then_redo st st1) as (H1 & H2 & _); [|auto].
    apply (deleting_pushes_history (render st)).
  - intros dom combinePages rs e k t st g ev1 ev2 Hf Hd st1.
    destruct (toolbar_undo_then_redo st st1) as (H1 & H2 & _); [|auto].
    unfold st1. rewrite move_up_history, move_move_history.
    apply (moving_pushes_history (render st) dom rs e k st t Hf Hd).
  - intros dom textRefs e k corner st g ev1 ev2 st1.
    destruct (toolbar_undo_then_redo st st1) as (H1 & H2 & _); [|auto].
    unfold st1. rewrite resize_up_history, resize_move_history.
    apply (resizing_pushes_history (render st)).
Qed.

(** The key listener: undo restores the popped snapshot and pushes the
    collection of the listener's own render; redo likewise. *)
Lemma key_undo_pushes_listener_collection r fresh e st prev rest :
  undo_shortcut e = true -> selectedIds r <> [] ->
  historyRef st = prev :: rest ->
  st_boxes (onKey r fresh false false e st) = prev /\
  historyRef (onKey r fresh false false e st) = rest /\
  redoRef (onKey r fresh false false e st) = boxes r :: redoRef st.
Proof.
  unfold undo_shortcut, onKey. intros E Hsel Hh.
  apply andb_prop in E as [E Es]. apply andb_prop in E as [Ec Ez].
  replace (String.eqb (key e) "Escape" && false) with false
    by (now rewrite andb_false_r).
  destruct (selectedIds r); [contradiction|].
  rewrite Ec, (toLowerCase_z_not_b _ Ez), Ez. simpl.
  apply negb_true_iff in Es. rewrite Es.
  unfold undo. rewrite Hh. simpl. now rewrite json_clone_id.
Qed.

Lemma key_redo_pushes_listener_collection r fresh e st next rest :
  redo_shortcut e = true -> selectedIds r <> [] ->
  redoRef st = next :: rest ->
  st_boxes (onKey r fresh false false e st) = next /\
  redoRef (onKey r fresh false false e st) = rest /\
  historyRef (onKey r fresh false false e st) = boxes r :: historyRef st.
Proof.
  unfold redo_shortcut, onKey. intros E Hsel Hh.
  apply andb_prop in E as [E Es]. apply andb_prop in E as [Ec Ez].
  replace (String.eqb (key e) "Escape" && false) with false
    by (now rewrite andb_false_r).
  destruct (selectedIds r); [contradiction|].
  rewrite Ec, (toLowerCase_z_not_b _ Ez), Ez. simpl. rewrite Es.
  unfold redo. rewrite Hh. simpl. now rewrite json_clone_id.
Qed.

(** The listener is not replaced while the selection array is the same. *)
Lemma commit_keeps_listener st mv rz rref s :
  selStamp st = keyStamp s ->
  keyRender (commit st mv rz rref s) = keyRender s /\
  keyStamp (commit st mv rz rref s) = keyStamp s /\
  store (commit st mv rz rref s) = st.
Proof.
  intros H. unfold commit. rewrite H, Nat.eqb_refl. auto.
Qed.

(** X2.  In any session whose key listener is current for the selection
    and whose undo stack is not empty, Ctrl+Z followed by Ctrl+Shift+Z
    ends on the collection the listener captured when the selection last
    changed, whatever the collection was before the undo. *)
Lemma keyboard_undo_redo_yields_listener_collection
    dom combinePages textRefs fresh s prev rest e1 e2 :
  undo_shortcut e1 = true -> redo_shortcut e2 = true ->
  selectedIds (keyRender s) <> [] ->
  keyStamp s = selStamp (store s) ->
  historyRef (store s) = prev :: rest ->
  st_boxes (store (run dom combinePages textRefs fresh s
                       [KeyDown false false e1; KeyDown false false e2]))
  = boxes (keyRender s).
Proof.
  intros E1 E2 Hsel Hstamp Hh. unfold run. simpl.
  destruct (key_undo_pushes_listener_collection
              (keyRender s) fresh e1 (store s) prev rest E1 Hsel Hh)
    as (Hb & Hh' & Hr).
  set (st1 := onKey (keyRender s) fresh false false e1 (store s)) in *.
  assert (Hs1 : selStamp st1 = keyStamp s).
  { unfold st1, onKey. rewrite Hstamp.
    apply andb_prop in E1 as [E Es]. apply andb_prop in E as [Ec Ez].
    replace (String.eqb (key e1) "Escape" && false) with false
      by (now rewrite andb_false_r).
    destruct (selectedIds (keyRender s)); [reflexivity|].
    rewrite Ec, (toLowerCase_z_not_b _ Ez), Ez. simpl.
    apply negb_true_iff in Es. rewrite Es.
    unfold undo. destruct (historyRef (store s)); reflexivity. }
  destruct (commit_keeps_listener st1 (moving s) (resizing s) (resizingRef s) s Hs1)
    as (Hk & _ & Hst).
  set (s1 := commit st1 (moving s) (resizing s) (resizingRef s) s) in *.
  rewrite Hk, Hst.
  destruct (key_redo_pushes_listener_collection
              (keyRender s) fresh e2 st1 (boxes (keyRender s)) (redoRef (store s))
              E2 Hsel Hr) as (Hb2 & _ & _).
  set (st2 := onKey (keyRender s) fresh false false e2 st1) in *.
  unfold commit. destruct (Nat.eqb (selStamp st2) (keyStamp s1)); exact Hb2.
Qed.

(** C2 (the code departs from it on the keyboard path).  The key
    listener is the one created when the selection last changed, so the
    collection it reads is the one of that render.  After the comment box
    is dragged from (40, 40) to (50, 60), Ctrl+Z brings back the
    collection before the drag, but puts the listener's old collection,
    not the dragged one, on the redo stack; Ctrl+Shift+Z then yields the
    box at (40, 40) again instead of (50, 60).  The same drag followed by
    the toolbar buttons is undone and redone correctly.  Likewise the
    Delete key after the drag pushes the listener's old collection, and
    the undo that follows yields the box at (40, 40), not the collection
    before the deletion. *)
Theorem keyboard_undo_redo_reads_stale_collection :
  let moved := Sample.session Sample.drag_comment in
  let undone := Sample.session (Sample.drag_comment ++ [Sample.key_undo]) in
  let redone := Sample.session (Sample.drag_comment
                                  ++ [Sample.key_undo; Sample.key_redo]) in
  let by_buttons := Sample.session (Sample.drag_comment
                                      ++ [ClickUndo; ClickRedo]) in
  let deleted := Sample.session (Sample.drag_comment ++ [Sample.key_delete]) in
  let restored := Sample.session (Sample.drag_comment
                                    ++ [Sample.key_delete; ClickUndo]) in
  st_boxes (store moved) = [Sample.moved_comment] /\
  boxes (keyRender moved) = [Sample.comment] /\
  st_boxes (store undone) = [Sample.comment] /\
  redoRef (store undone) = [[Sample.comment]] /\
  st_boxes (store redone) = [Sample.comment] /\
  st_boxes (store redone) <> st_boxes (store moved) /\
  st_boxes (store by_buttons) = st_boxes (store moved) /\
  st_boxes (store deleted) = [] /\
  st_boxes (store restored) = [Sample.comment] /\
  st_boxes (store restored) <> st_boxes (store moved).
Proof.
  intros moved undone redone by_buttons deleted restored.
  assert (Hne : [Sample.comment] <> [Sample.moved_comment]).
  { intros E. assert (Hx : map x [Sample.comment] = map x [Sample.moved_comment])
      by (now rewrite E).
    vm_compute in Hx. discriminate. }
  split; [reflexivity|]. split; [reflexivity|]. split; [reflexivity|].
  split; [reflexivity|]. split; [reflexivity|]. split; [exact Hne|].
  split; [reflexivity|]. split; [reflexivity|]. split; [reflexivity|].
  exact Hne.
Qed.

(** ** Auto-layout *)

Lemma update_by_id_kind_text k f l :
  (forall b, kind_text (f b) = kind_text b) ->
  map kind_text (update_by_id k f l) = map kind_text l.
Proof.
  intros H. unfold update_by_id. rewrite map_map. apply map_ext.
  intros b. destruct (String.eqb (id b) k); auto.
Qed.

Lemma update_by_id_ids k f l :
  (forall b, id (f b) = id b) -> map id (update_by_id k f l) = map id l.
Proof.
  intros H. unfold update_by_id. rewrite map_map. apply map_ext.
  intros b. destruct (String.eqb (id b) k); auto.
Qed.

Lemma repeat_snoc {A} (a : A) n : repeat a n ++ [a] = a :: repeat a n.
Proof. induction n; simpl; congruence. Qed.

Section AutoLayoutFacts.

Variable dom : Dom.
Variable current : Z.
Variable san : string -> string.
Variable label : string -> string.
Variable fresh : nat -> string.
Variable r : Render.

Lemma place_one_skips run p :
  placeable dom p = false -> place_one dom current san fresh r run p = run.
Proof.
  unfold placeable, resolvable, place_one.
  destruct (String.eqb (p_type p) "text"); simpl; [|reflexivity].
  destruct (resolve dom p); [discriminate | reflexivity].
Qed.

Lemma place_one_adds st run added p :
  run_adds r st run added ->
  run_adds r st (place_one dom current san fresh r run p)
           (added ++ created dom san p).
Proof.
  intros (Hk & Hi & Hh & Hr & Hs).
  unfold created. destruct (placeable dom p) eqn:Hp.
  2:{ rewrite place_one_skips by exact Hp. rewrite app_nil_r.
      repeat split; assumption. }
  unfold placeable, resolvable in Hp. apply andb_prop in Hp as [Ht Hres].
  unfold place_one. rewrite Ht. simpl negb. cbv iota.
  destruct (resolve dom p) as [img|]; [|discriminate].
  destruct (comment_xy img p) as [x1 y1].
  unfold scored.
  destruct (String.eqb (ctype p) "score"); simpl andb;
    [destruct (p_points p) as [pts|]|]; cbv iota.
  - (* a comment and its score marker *)
    unfold run_adds, addScoreMarker, addBox, auto_opts; simpl.
    rewrite !update_by_id_kind_text by reflexivity.
    rewrite !update_by_id_ids by reflexivity.
    rewrite !map_app; simpl.
    rewrite !update_by_id_kind_text by reflexivity.
    rewrite !update_by_id_ids by reflexivity.
    rewrite !map_app; simpl.
    rewrite Hk, Hi, Hh, !json_clone_id, !length_app; simpl.
    rewrite <- !app_assoc; simpl.
    replace (List.length (lr_placed run) + 2)%nat
      with (S (S (List.length (lr_placed run)))) by lia.
    repeat split; try assumption; reflexivity.
  - unfold run_adds, addBox, auto_opts; simpl.
    rewrite !update_by_id_kind_text by reflexivity.
    rewrite !update_by_id_ids by reflexivity.
    rewrite !map_app; simpl.
    rewrite Hk, Hi, Hh, !json_clone_id, !length_app; simpl.
    rewrite <- !app_assoc; simpl.
    replace (List.length (lr_placed run) + 1)%nat
      with (S (List.length (lr_placed run))) by lia.
    repeat split; try assumption; reflexivity.
  - unfold run_adds, addBox, auto_opts; simpl.
    rewrite !update_by_id_kind_text by reflexivity.
    rewrite !update_by_id_ids by reflexivity.
    rewrite !map_app; simpl.
    rewrite Hk, Hi, Hh, !json_clone_id, !length_app; simpl.
    rewrite <- !app_assoc; simpl.
    replace (List.length (lr_placed run) + 1)%nat
      with (S (List.length (lr_placed run))) by lia.
    repeat split; try assumption; reflexivity.
Qed.

Lemma place_label_adds st run added e :
  run_adds r st run added ->
  run_adds r st (place_label dom current san label fresh r run e)
           (added ++ [label_created san label e]).
Proof.
  intros (Hk & Hi & Hh & Hr & Hs). destruct e as [qid pos].
  unfold run_adds, place_label, label_created, addBox, auto_opts; simpl.
  rewrite !update_by_id_kind_text by reflexivity.
  rewrite !update_by_id_ids by reflexivity.
  rewrite !map_app; simpl.
  rewrite Hk, Hi, Hh, !json_clone_id, !length_app; simpl.
  rewrite <- !app_assoc; simpl.
  replace (List.length (lr_placed run) + 1)%nat
    with (S (List.length (lr_placed run))) by lia.
  repeat split; try assumption; reflexivity.
Qed.

Lemma place_all_adds st ps run added :
  run_adds r st run added ->
  run_adds r st (fold_left (place_one dom current san fresh r) ps run)
           (added ++ flat_map (created dom san) ps).
Proof.
  revert run added. induction ps as [|p ps IH]; intros run added H; simpl.
  - now rewrite app_nil_r.
  - rewrite app_assoc. apply IH. now apply place_one_adds.
Qed.

Lemma label_all_adds st es run added :
  run_adds r st run added ->
  run_adds r st (fold_left (place_label dom current san label fresh r) es run)
           (added ++ map (label_created san label) es).
Proof.
  revert run added. induction es as [|e es IH]; intros run added H; simpl.
  - now rewrite app_nil_r.
  - replace (added ++ label_created san label e :: map (label_created san label) es)
      with ((added ++ [label_created san label e])
              ++ map (label_created san label) es)
      by (now rewrite <- app_assoc).
    apply IH. now apply place_label_adds.
Qed.

(** The unresolvable and the non-text suggestions of a list change
    nothing: the loop ends in the same state without them. *)
Lemma place_all_skips ps run :
  fold_left (place_one dom current san fresh r) ps run
  = fold_left (place_one dom current san fresh r) (filter (placeable dom) ps) run.
Proof.
  revert run. induction ps as [|p ps IH]; intros run; simpl; [reflexivity|].
  destruct (placeable dom p) eqn:Hp; simpl.
  - apply IH.
  - rewrite place_one_skips by exact Hp. apply IH.
Qed.

(** The labels of a run: one per question recorded during the loop. *)
Lemma runAutoLayout_adds st p ps :
  let run1 := fold_left (place_one dom current san fresh r) (p :: ps)
                {| lr_store := pushHistory r st; lr_count := O;
                   lr_tops := []; lr_placed := [] |} in
  run_adds r st (runAutoLayout dom current san label fresh r (p :: ps) st)
           (flat_map (created dom san) (p :: ps)
            ++ map (label_created san label) (object_entries (lr_tops run1))).
Proof.
  intros run1. unfold runAutoLayout. fold run1.
  apply label_all_adds. unfold run1.
  apply (place_all_adds st (p :: ps) _ []).
  unfold run_adds; simpl. rewrite json_clone_id, !app_nil_r. auto.
Qed.

End AutoLayoutFacts.

Lemma place_one_tops_without_qid dom current san fresh r run p :
  p_qid p = None ->
  lr_tops (place_one dom current san fresh r run p) = lr_tops run.
Proof.
  intros Hq. unfold place_one.
  destruct (negb (String.eqb (p_type p) "text")); [reflexivity|].
  destruct (resolve dom p) as [img|]; [|reflexivity].
  destruct (comment_xy img p) as [x1 y1]. rewrite Hq.
  destruct (if String.eqb (ctype p) "score" then p_points p else None);
    reflexivity.
Qed.

Lemma place_all_tops_without_qid dom current san fresh r ps run :
  (forall p, In p ps -> p_qid p = None) ->
  lr_tops (fold_left (place_one dom current san fresh r) ps run) = lr_tops run.
Proof.
  revert run. induction ps as [|p ps IH]; intros run H; simpl; [reflexivity|].
  rewrite IH by (intros q Hq; apply H; now right).
  apply place_one_tops_without_qid. apply H. now left.
Qed.

Lemma place_label_tops dom current san label fresh r es run :
  lr_tops (fold_left (place_label dom current san label fresh r) es run)
  = lr_tops run.
Proof.
  revert run. induction es as [|[qid pos] es IH]; intros run; simpl;
    [reflexivity|]. now rewrite IH.
Qed.

Lemma created_plain dom san ps :
  (forall p, In p ps -> scored p = false) ->
  flat_map (created dom san) ps
  = map (fun p => (NoType, san (p_text p))) (filter (placeable dom) ps).
Proof.
  induction ps as [|p ps IH]; intros H; simpl; [reflexivity|].
  rewrite IH by (intros q Hq; apply H; now right).
  unfold created at 1. destruct (placeable dom p); [|reflexivity].
  rewrite (H p) by now left. reflexivity.
Qed.

(** C1 (amended).  An auto-layout run on a non-empty suggestion list
    appends to the collection, in list order, one comment box for every
    text suggestion whose page has an image, followed by a score marker
    when the suggestion is score-typed with numeric points, and then one
    label per question recorded; suggestions of another type or whose
    page has no image are skipped without a trace.  When no suggestion is
    score-typed or carries a question id, the collection grows by exactly
    the placeable suggestions.  After the run the collection the run
    captured, which is the collection before the run when nothing was
    edited since the run was started, is on top of the undo stack, and
    one undo (the toolbar button, or the undo of the key listener
    whatever its render) brings back exactly that collection: every
    object the run placed is gone. *)
Theorem auto_layout_places_text_entries_and_undoes_at_once :
  forall (dom : Dom) (current : Z) (san label : string -> string)
         (fresh : nat -> string) (r : Render)
         (placements : list Placement) (st : Editor),
    placements <> [] ->
    let run := runAutoLayout dom current san label fresh r placements st in
    map kind_text (st_boxes (lr_store run))
    = map kind_text (st_boxes st)
      ++ flat_map (created dom san) placements
      ++ map (label_created san label) (object_entries (lr_tops run)) /\
    (forall p run0, placeable dom p = false ->
                    place_one dom current san fresh r run0 p = run0) /\
    ((forall p, In p placements -> scored p = false /\ p_qid p = None) ->
     map kind_text (st_boxes (lr_store run))
     = map kind_text (st_boxes st)
       ++ map (fun p => (NoType, san (p_text p)))
              (filter (placeable dom) placements) /\
     List.length (st_boxes (lr_store run))
     = (List.length (st_boxes st)
        + List.length (filter (placeable dom) placements))%nat) /\
    hd_error (historyRef (lr_store run)) = Some (boxes r) /\
    (forall r', st_boxes (undo r' (lr_store run)) = boxes r) /\
    (boxes r = st_boxes st ->
     st_boxes (toolbarUndo (lr_store run)) = st_boxes st).
Proof.
  intros dom current san label fresh r placements st Hne run.
  destruct placements as [|p ps]; [contradiction|].
  pose proof (runAutoLayout_adds dom current san label fresh r st p ps) as Hrun.
  cbv zeta in Hrun. fold run in Hrun.
  destruct Hrun as (Hk & Hi & Hh & _ & _).
  assert (Htops : lr_tops run
                  = lr_tops (fold_left (place_one dom current san fresh r) (p :: ps)
                               {| lr_store := pushHistory r st; lr_count := O;
                                  lr_tops := []; lr_placed := [] |})).
  { unfold run, runAutoLayout. apply place_label_tops. }
  assert (Hkinds : map kind_text (st_boxes (lr_store run))
                   = map kind_text (st_boxes st)
                     ++ flat_map (created dom san) (p :: ps)
                     ++ map (label_created san label)
                            (object_entries (lr_tops run))).
  { rewrite Hk, Htops. reflexivity. }
  assert (Hundo : forall r', st_boxes (undo r' (lr_store run)) = boxes r).
  { intros r'. unfold undo. rewrite Hh. reflexivity. }
  split; [exact Hkinds|].
  split; [intros q run0; apply place_one_skips|].
  split; [|split; [rewrite Hh; reflexivity | split;
                   [exact Hundo | intros <-; apply Hundo]]].
  intros Hplain.
  assert (Hno : lr_tops run = []).
  { rewrite Htops. rewrite place_all_tops_without_qid; [reflexivity|].
    intros q Hq. now apply Hplain. }
  assert (Hmap : map kind_text (st_boxes (lr_store run))
                 = map kind_text (st_boxes st)
                   ++ map (fun p => (NoType, san (p_text p)))
                          (filter (placeable dom) (p :: ps))).
  { rewrite Hkinds, Hno. unfold object_entries. simpl map at 3.
    rewrite app_nil_r. f_equal. apply created_plain.
    intros q Hq. now apply Hplain. }
  split; [exact Hmap|].
  apply (f_equal (@List.length _)) in Hmap.
  now rewrite length_app, !length_map in Hmap.
Qed.

Lemma auto_layout_places_text_entries_and_undoes_at_once_witness :
  let st := Sample.store_of [Sample.comment] [] in
  let run := runAutoLayout Sample.one_page 0 Sample.identity Sample.label
                           Sample.fresh (render st)
                           [Sample.on_page0; Sample.on_page7] st in
  map kind_text (st_boxes (lr_store run))
  = [(NoType, "+5 correct"); (NoType, "good")] /\
  List.length (st_boxes (lr_store run)) = 2%nat /\
  st_boxes (toolbarUndo (lr_store run)) = [Sample.comment].
Proof.
  intros st run.
  destruct (auto_layout_places_text_entries_and_undoes_at_once
              Sample.one_page 0%Z Sample.identity Sample.label Sample.fresh
              (render st) [Sample.on_page0; Sample.on_page7] st
              ltac:(discriminate))
    as (_ & _ & Hplain & _ & _ & Hundo).
  destruct Hplain as [Hk Hl].
  { intros p [<- | [<- | []]]; split; reflexivity. }
  split; [exact Hk|]. split; [exact Hl | exact (Hundo eq_refl)].
Defined.

(** C1 (as stated) fails.  With one resolvable text suggestion and one
    unresolvable, the run pushes two snapshots on the empty undo stack,
    not one.  A resolvable suggestion of type score is not placed.  A
    resolvable score-typed comment of a question is placed as three
    objects: the comment, its score marker and the question's label. *)
Lemma auto_layout_not_one_snapshot_nor_one_object_per_entry :
  resolvable Sample.one_page Sample.on_page0 = true /\
  resolvable Sample.one_page Sample.on_page7 = false /\
  List.length (st_boxes (lr_store (Sample.layout [Sample.on_page0; Sample.on_page7])))
  = 1%nat /\
  historyRef Sample.empty_store = [] /\
  List.length (historyRef (lr_store (Sample.layout [Sample.on_page0; Sample.on_page7])))
  = 2%nat /\
  resolvable Sample.one_page Sample.score_entry = true /\
  st_boxes (lr_store (Sample.layout [Sample.score_entry; Sample.on_page7])) = [] /\
  resolvable Sample.one_page Sample.scored_comment = true /\
  map type (st_boxes (lr_store (Sample.layout [Sample.scored_comment; Sample.on_page7])))
  = [NoType; Score; NoType].
Proof. repeat split. Qed.

(** * Further properties of the editor *)

(** ** History *)

Lemma toolbar_roundtrip_of_operations_witness :
  let st := Sample.store_of [Sample.comment] [] in
  let g := {| mv_sel := ["b_1"];
              mv_starts := make_starts [Sample.comment] ["b_1"];
              mv_startX := 100; mv_startY := 100; mv_pointerId := Some 1%Z |} in
  let st1 := fst (move_up false Sample.one_page g (Sample.at_ 110 120)
                    (move_move g (Sample.at_ 110 120)
                       (fst (onPointerDownBox (render st) Sample.one_page false
                               (Sample.at_ 100 100) "b_1" st)))) in
  st_boxes st1 = [Sample.moved_comment] /\
  st_boxes (toolbarUndo st1) = [Sample.comment] /\
  st_boxes (toolbarRedo (toolbarUndo st1)) = [Sample.moved_comment].
Proof.
  intros st g st1.
  destruct toolbar_roundtrip_of_operations as (_ & _ & Hmove & _).
  destruct (Hmove Sample.one_page false false (Sample.at_ 100 100) "b_1"
                  Sample.comment st g (Sample.at_ 110 120) (Sample.at_ 110 120)
                  eq_refl eq_refl) as [Hu Hr].
  split; [reflexivity|]. split; [exact Hu | exact Hr].
Defined.

Lemma keyboard_undo_redo_yields_listener_collection_witness :
  st_boxes (store (Sample.session Sample.drag_comment)) = [Sample.moved_comment] /\
  st_boxes (store (run Sample.one_page false Sample.no_text_area Sample.fresh
                       (Sample.session Sample.drag_comment)
                       [Sample.key_undo; Sample.key_redo]))
  = [Sample.comment].
Proof.
  split; [reflexivity|].
  exact (keyboard_undo_redo_yields_listener_collection
           Sample.one_page false Sample.no_text_area Sample.fresh
           (Sample.session Sample.drag_comment) [Sample.comment] []
           (Sample.ctrl "z" false) (Sample.ctrl "z" true)
           eq_refl eq_refl ltac:(discriminate) eq_refl eq_refl).
Defined.

Lemma place_one_ids dom current san fresh r run p :
  lr_placed run = map fresh (seq O (lr_count run)) ->
  lr_placed (place_one dom current san fresh r run p)
  = map fresh (seq O (lr_count (place_one dom current san fresh r run p))).
Proof.
  intros H. unfold place_one.
  destruct (negb (String.eqb (p_type p) "text")); [exact H|].
  destruct (resolve dom p) as [img|]; [|exact H].
  destruct (comment_xy img p) as [x1 y1].
  destruct (if String.eqb (ctype p) "score" then p_points p else None);
    cbn [lr_placed lr_count].
  - rewrite !seq_S, !map_app, H, <- app_assoc. reflexivity.
  - rewrite seq_S, map_app, H. reflexivity.
Qed.

Lemma place_all_ids dom current san fresh r ps run :
  lr_placed run = map fresh (seq O (lr_count run)) ->
  lr_placed (fold_left (place_one dom current san fresh r) ps run)
  = map fresh (seq O (lr_count (fold_left (place_one dom current san fresh r) ps run))).
Proof.
  revert run. induction ps as [|p ps IH]; intros run H; simpl; [exact H|].
  apply IH. now apply place_one_ids.
Qed.

Lemma label_all_ids dom current san label fresh r es run :
  lr_placed run = map fresh (seq O (lr_count run)) ->
  lr_placed (fold_left (place_label dom current san label fresh r) es run)
  = map fresh (seq O (lr_count
       (fold_left (place_label dom current san label fresh r) es run))).
Proof.
  revert run. induction es as [|[qid pos] es IH]; intros run H; simpl; [exact H|].
  apply IH. cbn [place_label lr_placed lr_count].
  rewrite seq_S, map_app, H. reflexivity.
Qed.

(** X3.  An auto-layout run on a non-empty suggestion list pushes one
    snapshot of the captured collection at its start and one more for
    every object it appends, all of them equal; it empties the redo
    stack and leaves the selection alone; the ids of the appended
    objects are the ids generated during the run, in order. *)
Theorem auto_layout_pushes_a_snapshot_per_object :
  forall (dom : Dom) (current : Z) (san label : string -> string)
         (fresh : nat -> string) (r : Render)
         (placements : list Placement) (st : Editor),
    placements <> [] ->
    let run := runAutoLayout dom current san label fresh r placements st in
    historyRef (lr_store run)
    = repeat (boxes r) (S (lr_count run)) ++ historyRef st /\
    redoRef (lr_store run) = [] /\
    st_selectedIds (lr_store run) = st_selectedIds st /\
    map id (st_boxes (lr_store run))
    = map id (st_boxes st) ++ map fresh (seq O (lr_count run)).
Proof.
  intros dom current san label fresh r placements st Hne run.
  destruct placements as [|p ps]; [contradiction|].
  pose proof (runAutoLayout_adds dom current san label fresh r st p ps) as Hrun.
  cbv zeta in Hrun. fold run in Hrun.
  destruct Hrun as (_ & Hi & Hh & Hr & Hs).
  assert (Hids : lr_placed run = map fresh (seq O (lr_count run))).
  { unfold run, runAutoLayout. apply label_all_ids, place_all_ids. reflexivity. }
  rewrite Hh, Hi, Hids, length_map, length_seq. auto.
Qed.

Lemma auto_layout_pushes_a_snapshot_per_object_witness :
  let run := Sample.layout [Sample.on_page0; Sample.scored_comment; Sample.on_page7] in
  List.length (historyRef (lr_store run)) = 5%nat /\
  map id (st_boxes (lr_store run)) = ["n_0"; "n_1"; "n_2"; "n_3"].
Proof.
  intros run.
  destruct (auto_layout_pushes_a_snapshot_per_object
              Sample.one_page 0%Z Sample.identity Sample.label Sample.fresh
              (render Sample.empty_store)
              [Sample.on_page0; Sample.scored_comment; Sample.on_page7]
              Sample.empty_store ltac:(discriminate))
    as (Hh & _ & _ & Hi).
  split.
  - unfold run, Sample.layout. rewrite Hh. reflexivity.
  - unfold run, Sample.layout. rewrite Hi. reflexivity.
Defined.

(** ** Copy and paste *)

Lemma paste_clone_shifted nid b : shifted_clone b (paste_clone nid b).
Proof.
  unfold shifted_clone, paste_clone. rewrite json_clone_box_id.
  destruct b as [i ty pg bx by_ bw bh bex bey fs fw tx ed fh pts sw ox oy gr sc sr].
  destruct ty; simpl; repeat split; try reflexivity; apply Qplus_comp;
    try reflexivity; apply or_zero.
Qed.

Lemma paste_clones_shifted fresh i clip :
  Forall2 shifted_clone clip (paste_clones fresh i clip).
Proof.
  revert i. induction clip as [|b clip IH]; intros i; simpl; constructor.
  - apply paste_clone_shifted.
  - apply IH.
Qed.

Lemma paste_clone_id nid b : id (paste_clone nid b) = nid.
Proof.
  unfold paste_clone. destruct (type (set_id nid (json_clone_box b))); reflexivity.
Qed.

Lemma paste_clones_ids fresh i clip :
  map id (paste_clones fresh i clip) = map fresh (seq i (List.length clip)).
Proof.
  revert i. induction clip as [|b clip IH]; intros i; simpl; [reflexivity|].
  now rewrite paste_clone_id, IH.
Qed.

(** X4.  Paste with an empty clipboard changes nothing.  Otherwise it
    keeps the collection and appends one clone per clipboard object, in
    order: each clone has a newly generated id and is its original
    shifted by 20 right and down (a stroke through its offset, its points
    untouched; an arrow at both endpoints); the clones become the
    selection and the clipboard stays as it is. *)
Theorem paste_appends_shifted_clones :
  forall (fresh : nat -> string) (st : Editor),
    (clipboard st = [] -> paste fresh st = st) /\
    (clipboard st <> [] ->
     exists clones,
       st_boxes (paste fresh st) = st_boxes st ++ clones /\
       map id clones = map fresh (seq O (List.length (clipboard st))) /\
       st_selectedIds (paste fresh st) = map id clones /\
       Forall2 shifted_clone (clipboard st) clones /\
       clipboard (paste fresh st) = clipboard st).
Proof.
  intros fresh st. split.
  - intros H. unfold paste. now rewrite H.
  - intros H. exists (paste_clones fresh O (clipboard st)).
    split; [apply paste_boxes|].
    split; [apply paste_clones_ids|].
    split; [|split; [apply paste_clones_shifted|]];
      unfold paste; destruct (clipboard st) eqn:E; try contradiction;
      simpl; auto.
Qed.

Lemma paste_appends_shifted_clones_witness :
  paste Sample.fresh (Sample.store_of [Sample.comment] []) 
  = Sample.store_of [Sample.comment] [] /\
  exists clones,
    st_boxes (paste Sample.fresh Sample.after_copy) = [Sample.comment] ++ clones /\
    map id clones = ["n_0"] /\
    Forall2 shifted_clone [Sample.comment] clones.
Proof.
  split.
  - exact (proj1 (paste_appends_shifted_clones Sample.fresh
                    (Sample.store_of [Sample.comment] [])) eq_refl).
  - destruct (proj2 (paste_appends_shifted_clones Sample.fresh Sample.after_copy)
                ltac:(discriminate)) as (clones & Hb & Hi & _ & Hf & _).
    exists clones. split; [exact Hb|]. split; [exact Hi | exact Hf].
Defined.

(** ** Arrow keys *)

Lemma same_but_x_refl b : same_but_x b b.
Proof. destruct b; reflexivity. Qed.

Lemma same_but_y_refl b : same_but_y b b.
Proof. destruct b; reflexivity. Qed.

Lemma max_0_nonneg a : 0 <= a -> Js.max 0 a == a.
Proof. apply max_of_le. Qed.



(** ** Move gesture: positions come from the start of the gesture *)

Lemma findIndex_none_map k f l :
  findIndex k l = None ->
  map (fun b => if String.eqb (id b) k then f b else b) l = l.
Proof.
  induction l as [|c l IH]; simpl; [reflexivity|].
  destruct (String.eqb (id c) k); [discriminate|].
  destruct (findIndex k l); [discriminate|].
  intros _. now rewrite IH.
Qed.

Lemma not_in_ids_map k f l :
  ~ In k (map id l) ->
  map (fun b => if String.eqb (id b) k then f b else b) l = l.
Proof.
  induction l as [|c l IH]; simpl; [reflexivity|].
  intros H. destruct (String.eqb (id c) k) eqn:E.
  - apply String.eqb_eq in E. exfalso. apply H. now left.
  - rewrite IH; [reflexivity|]. intros Hin. apply H. now right.
Qed.

Lemma assign_first_is_map k f l i nb :
  NoDup (map id l) ->
  findIndex k l = Some i -> nth_error l i = Some nb ->
  assign i (f nb) l = map (fun b => if String.eqb (id b) k then f b else b) l.
Proof.
  revert i. induction l as [|c l IH]; intros i Hnd; simpl; [discriminate|].
  inversion Hnd as [|? ? Hnotin Hnd']; subst.
  destruct (String.eqb (id c) k) eqn:E.
  - intros [= <-]. simpl. intros [= <-]. f_equal.
    apply String.eqb_eq in E. subst k. symmetry. now apply not_in_ids_map.
  - destruct (findIndex k l) as [j|] eqn:Hj; [|discriminate].
    simpl. intros [= <-]. simpl. intros Hn. f_equal. now apply IH.
Qed.

Lemma moved_key starts dx dy b : same_key b (moved starts dx dy b).
Proof.
  unfold moved, same_key.
  destruct (type b) eqn:Ht; destruct (lookup_start (id b) starts);
    simpl; auto.
Qed.

Lemma moved_twice starts dx1 dy1 dx2 dy2 b :
  moved starts dx2 dy2 (moved starts dx1 dy1 b) = moved starts dx2 dy2 b.
Proof.
  unfold moved at 2.
  destruct (type b) eqn:Ht; destruct (lookup_start (id b) starts) eqn:Hl;
    try reflexivity;
    unfold moved; simpl; rewrite Ht, Hl; reflexivity.
Qed.

Lemma move_one_is_map starts dx dy arr bid arr' :
  NoDup (map id arr) ->
  move_one starts dx dy arr bid = Some arr' ->
  arr' = map (fun b => if String.eqb (id b) bid then moved starts dx dy b else b)
             arr.
Proof.
  intros Hnd. unfold move_one.
  destruct (findIndex bid arr) as [i|] eqn:Hi.
  2:{ intros [= <-]. symmetry. now apply findIndex_none_map. }
  destruct (nth_error arr i) as [nb|] eqn:Hn.
  2:{ exfalso. clear -Hi Hn. revert i Hi Hn.
      induction arr as [|c l IH]; intros i; simpl; [discriminate|].
      destruct (String.eqb (id c) bid); [intros [= <-]; discriminate|].
      destruct (findIndex bid l) as [j|]; [|discriminate].
      simpl. intros [= <-]. simpl. now apply IH. }
  pose proof (findIndex_id _ _ _ _ Hi Hn) as Hid. apply String.eqb_eq in Hid.
  assert (Hm : forall v, v = moved starts dx dy nb ->
               assign i v arr
               = map (fun b => if String.eqb (id b) bid
                               then moved starts dx dy b else b) arr).
  { intros v ->. now apply assign_first_is_map. }
  destruct (type nb) eqn:Ht;
    try (destruct (lookup_start bid starts) as [s|] eqn:Hl; [|discriminate];
         intros [= <-]; apply Hm; unfold moved; rewrite Ht, Hid, Hl; reflexivity).
  intros [= <-]. rewrite <- (Hm nb).
  - clear -Hn. revert i Hn. induction arr as [|c l IH]; intros [|i]; simpl;
      try discriminate.
    + now intros [= ->].
    + intros Hn. f_equal. now apply IH.
  - unfold moved. now rewrite Ht.
Qed.

Lemma map_ids_kept (f : Box -> Box) l :
  (forall b, id (f b) = id b) -> map id (map f l) = map id l.
Proof. intros H. rewrite map_map. apply map_ext. exact H. Qed.

Lemma move_loop_is_map starts dx dy sel arr arr' :
  NoDup (map id arr) ->
  move_loop starts dx dy sel arr = Some arr' ->
  arr' = map (move_elem starts dx dy sel) arr.
Proof.
  revert arr. induction sel as [|bid sel IH]; intros arr Hnd; simpl.
  - intros [= <-]. unfold move_elem. simpl. now rewrite map_id.
  - destruct (move_one starts dx dy arr bid) as [arr1|] eqn:H1; [|discriminate].
    intros H2. apply move_one_is_map in H1; [|exact Hnd]. subst arr1.
    apply IH in H2.
    2:{ rewrite map_ids_kept; [exact Hnd|]. intros b.
        destruct (String.eqb (id b) bid); [apply moved_key | reflexivity]. }
    rewrite H2, map_map. apply map_ext. intros b.
    unfold move_elem. simpl.
    destruct (String.eqb (id b) bid) eqn:E.
    + destruct (moved_key starts dx dy b) as [Hid _]. rewrite Hid.
      destruct (includes (id b) sel); [apply moved_twice | reflexivity].
    + reflexivity.
Qed.

Lemma findIndex_same_key k arr arr' :
  Forall2 same_key arr arr' -> findIndex k arr' = findIndex k arr.
Proof.
  induction 1 as [|a a' l l' [Hid _] _ IH]; simpl; [reflexivity|].
  now rewrite Hid, IH.
Qed.

Lemma nth_same_key arr arr' i a :
  Forall2 same_key arr arr' -> nth_error arr i = Some a ->
  exists a', nth_error arr' i = Some a' /\ same_key a a'.
Proof.
  intros HF. revert i. induction HF as [|c c' l l' Hc _ IH]; intros [|i]; simpl;
    try discriminate.
  - intros [= <-]. eauto.
  - apply IH.
Qed.

Lemma assign_same_key i v v' arr arr' :
  same_key v v' -> Forall2 same_key arr arr' ->
  Forall2 same_key (assign i v arr) (assign i v' arr').
Proof.
  intros Hv HF. revert i. induction HF as [|c c' l l' Hc HF IH]; intros [|i];
    simpl; constructor; auto.
Qed.

Lemma same_key_setters a a' u v :
  same_key a a' -> same_key (set_y u (set_x v a)) (set_y u (set_x v a')) /\
                   forall p q, same_key (set_ey p (set_ex q (set_y u (set_x v a))))
                                        (set_ey p (set_ex q (set_y u (set_x v a')))).
Proof. intros [H1 H2]. split; [split; assumption | intros; split; assumption]. Qed.

(** Whether the updater of a move event throws depends on the ids and
    kinds in the collection only, not on the pointer position. *)
Lemma move_one_succeeds starts dx dy dx' dy' arr arr' bid res :
  Forall2 same_key arr arr' ->
  move_one starts dx dy arr bid = Some res ->
  exists res', move_one starts dx' dy' arr' bid = Some res' /\
               Forall2 same_key res res'.
Proof.
  intros HF. unfold move_one. rewrite (findIndex_same_key bid arr arr' HF).
  destruct (findIndex bid arr) as [i|]; [|intros [= <-]; eauto].
  destruct (nth_error arr i) as [nb|] eqn:Hn.
  2:{ intros [= <-]. destruct (nth_error arr' i) as [nb'|] eqn:Hn'; [|eauto].
      exfalso. clear -HF Hn Hn'. revert i Hn Hn'.
      induction HF; intros [|i]; simpl; try discriminate. apply IHHF. }
  destruct (nth_same_key arr arr' i nb HF Hn) as (nb' & Hn' & Hk).
  rewrite Hn'. destruct Hk as [Hid Hty]. rewrite Hty.
  destruct (type nb) eqn:Htn; try (intros [= <-]; eauto);
    (destruct (lookup_start bid starts); [|discriminate]);
    intros [= <-]; eexists; (split; [reflexivity|]);
    apply assign_same_key; auto; split; simpl; congruence.
Qed.

Lemma move_loop_succeeds starts dx dy dx' dy' sel arr arr' res :
  Forall2 same_key arr arr' ->
  move_loop starts dx dy sel arr = Some res ->
  exists res', move_loop starts dx' dy' sel arr' = Some res'.
Proof.
  revert arr arr'. induction sel as [|bid sel IH]; intros arr arr' HF; simpl;
    [eauto|].
  destruct (move_one starts dx dy arr bid) as [a1|] eqn:H1; [|discriminate].
  intros H2.
  destruct (move_one_succeeds starts dx dy dx' dy' arr arr' bid a1 HF H1)
    as (a1' & -> & HF1).
  eapply IH; eauto.
Qed.

Lemma same_key_refl b : same_key b b.
Proof. split; reflexivity. Qed.

Lemma move_elem_key starts dx dy sel l :
  Forall2 same_key l (map (move_elem starts dx dy sel) l).
Proof.
  apply map_Forall2. intros b. unfold move_elem.
  destruct (includes (id b) sel); [apply moved_key | apply same_key_refl].
Qed.

Lemma move_elem_twice starts dx1 dy1 dx2 dy2 sel b :
  move_elem starts dx2 dy2 sel (move_elem starts dx1 dy1 sel b)
  = move_elem starts dx2 dy2 sel b.
Proof.
  unfold move_elem. destruct (includes (id b) sel) eqn:E; [|now rewrite E].
  destruct (moved_key starts dx1 dy1 b) as [Hid _]. rewrite Hid, E.
  apply moved_twice.
Qed.

(** X6.  In a collection with unique ids, a move event that does not
    throw puts every selected object at its start coordinates plus the
    pointer delta, clamped at 0 (an arrow at both endpoints), and leaves
    strokes and unselected objects as they are; and the positions after
    two successive move events of a gesture are those of the second
    event alone: deltas are never accumulated from frame to frame. *)
Theorem move_events_do_not_accumulate :
  forall (g : MoveGesture) (ev1 ev2 : PointerEvent) (p2 : list Box),
    NoDup (map id p2) ->
    (forall arr, move_loop (mv_starts g) (clientX ev1 - mv_startX g)
                           (clientY ev1 - mv_startY g) (mv_sel g) p2 = Some arr ->
                 move_update g ev1 p2
                 = map (move_elem (mv_starts g) (clientX ev1 - mv_startX g)
                                  (clientY ev1 - mv_startY g) (mv_sel g)) p2) /\
    move_update g ev2 (move_update g ev1 p2) = move_update g ev2 p2.
Proof.
  intros g ev1 ev2 p2 Hnd.
  set (dx1 := clientX ev1 - mv_startX g). set (dy1 := clientY ev1 - mv_startY g).
  assert (Hform : forall ev arr,
             move_loop (mv_starts g) (clientX ev - mv_startX g)
                       (clientY ev - mv_startY g) (mv_sel g) p2 = Some arr ->
             move_update g ev p2
             = map (move_elem (mv_starts g) (clientX ev - mv_startX g)
                              (clientY ev - mv_startY g) (mv_sel g)) p2).
  { intros ev arr H. unfold move_update. rewrite H. simpl.
    now apply move_loop_is_map. }
  split; [apply Hform|].
  unfold move_update at 2. fold dx1 dy1.
  destruct (move_loop (mv_starts g) dx1 dy1 (mv_sel g) p2) as [arr1|] eqn:H1;
    simpl; [|reflexivity].
  pose proof (move_loop_is_map _ _ _ _ _ _ Hnd H1) as E1.
  set (dx2 := clientX ev2 - mv_startX g). set (dy2 := clientY ev2 - mv_startY g).
  destruct (move_loop_succeeds (mv_starts g) dx1 dy1 dx2 dy2 (mv_sel g) p2 p2 arr1
              (Forall2_refl_on _ _ same_key_refl) H1) as (r2 & Hr2).
  assert (HF1 : Forall2 same_key p2 arr1)
    by (rewrite E1; apply move_elem_key).
  destruct (move_loop_succeeds (mv_starts g) dx1 dy1 dx2 dy2 (mv_sel g) p2 arr1 arr1
              HF1 H1) as (r2' & Hr2').
  rewrite (Hform ev2 r2 Hr2).
  unfold move_update. fold dx2 dy2. rewrite Hr2'. simpl.
  apply move_loop_is_map in Hr2'.
  2:{ rewrite E1, map_ids_kept; [exact Hnd|]. intros b. unfold move_elem.
      destruct (includes (id b) (mv_sel g)); [apply moved_key | reflexivity]. }
  rewrite Hr2', E1, map_map. apply map_ext. intros b. apply move_elem_twice.
Qed.

Lemma move_events_do_not_accumulate_witness :
  let p2 := [Sample.comment; Sample.stroke; Sample.arrow] in
  let g := {| mv_sel := ["b_1"; "ar_1"];
              mv_starts := make_starts p2 ["b_1"; "ar_1"];
              mv_startX := 100; mv_startY := 100;
              mv_pointerId := Some 1%Z |} in
  NoDup (map id p2) /\
  move_update g (Sample.at_ 110 120) p2
  = map (move_elem (mv_starts g) (110 - 100) (120 - 100) (mv_sel g)) p2 /\
  move_update g (Sample.at_ 90 70) (move_update g (Sample.at_ 110 120) p2)
  = move_update g (Sample.at_ 90 70) p2.
Proof.
  intros p2 g.
  assert (Hnd : NoDup (map id p2)).
  { simpl. repeat constructor; simpl; intuition discriminate. }
  destruct (move_events_do_not_accumulate g (Sample.at_ 110 120)
              (Sample.at_ 90 70) p2 Hnd) as (Hone & Htwo).
  split; [exact Hnd|]. split; [|exact Htwo].
  eapply Hone. reflexivity.
Defined.

(** ** The stroke cache after an erase step *)

Lemma filter_filter {A} (f g : A -> bool) l :
  filter f (filter g l) = filter (fun a => g a && f a) l.
Proof.
  induction l as [|a l IH]; simpl; [reflexivity|].
  destruct (g a); simpl; [destruct (f a)|]; now rewrite IH.
Qed.

Lemma build_cache_after_erase bs pageIdx ex0 ey0 p :
  build_cache (filter (fun b => negb (hit pageIdx ex0 ey0 b)) bs) p
  = if Z.eqb p pageIdx
    then filter (fun s => negb (intersects ex0 ey0 s)) (build_cache bs pageIdx)
    else build_cache bs p.
Proof.
  unfold build_cache. rewrite !map_cache_copy, !filter_filter.
  destruct (Z.eqb p pageIdx) eqn:E.
  - apply Z.eqb_eq in E. subst p. apply filter_ext. intros b. unfold hit.
    destruct (is_draw b), (Z.eqb (page b) pageIdx), (intersects ex0 ey0 b);
      reflexivity.
  - apply filter_ext. intros b. unfold hit.
    destruct (is_draw b); simpl; [|reflexivity].
    destruct (Z.eqb (page b) p) eqn:Ep; [|now rewrite andb_false_r].
    apply Z.eqb_eq in Ep. subst p. rewrite E. reflexivity.
Qed.

(** X7.  An erase step on the cache the effect built from a collection
    with unique ids leaves the cache of every page equal to the cache the
    effect would build from the new collection: what the canvases show
    and what the collection holds never drift apart.  The step reports
    [true] exactly when it removed a stroke, and changes nothing when it
    reports [false]. *)
Theorem erase_keeps_cache_and_collection_together :
  forall (st : Editor) (pageIdx : Z) (ex0 ey0 : Q),
    NoDup (map id (st_boxes st)) ->
    let res := eraseStrokeAt (build_cache (st_boxes st)) pageIdx ex0 ey0 st in
    let cache' := fst (fst res) in
    let st' := snd (fst res) in
    (forall p, cache' p = build_cache (st_boxes st') p) /\
    (snd res = true <->
     exists b, In b (st_boxes st) /\ hit pageIdx ex0 ey0 b = true) /\
    (snd res = false -> st' = st /\ forall p, cache' p = build_cache (st_boxes st) p).
Proof.
  intros st pageIdx ex0 ey0 Hnd res cache' st'.
  pose proof (erase_at_boxes st pageIdx ex0 ey0 Hnd) as Hb.
  unfold erase_at in Hb. fold res in Hb. fold st' in Hb.
  assert (Hhit : forall b, In b (filter (intersects ex0 ey0)
                                   (build_cache (st_boxes st) pageIdx)) <->
                           In b (st_boxes st) /\ hit pageIdx ex0 ey0 b = true).
  { intros b. unfold build_cache. rewrite map_cache_copy, filter_filter.
    rewrite filter_In. unfold hit. reflexivity. }
  assert (Hcases :
    (filter (intersects ex0 ey0) (build_cache (st_boxes st) pageIdx) = [] /\
     res = (build_cache (st_boxes st), st, false)) \/
    (filter (intersects ex0 ey0) (build_cache (st_boxes st) pageIdx) <> [] /\
     cache' = (fun p => if Z.eqb p pageIdx
                        then filter (fun s => negb (intersects ex0 ey0 s))
                               (build_cache (st_boxes st) pageIdx)
                        else build_cache (st_boxes st) p) /\
     snd res = true)).
  { unfold cache', res, eraseStrokeAt. cbv zeta.
    destruct (build_cache (st_boxes st) pageIdx) as [|s0 ss] eqn:Hc.
    - left. split; reflexivity.
    - cbv iota. rewrite <- Hc.
      destruct (map id (filter (intersects ex0 ey0)
                          (build_cache (st_boxes st) pageIdx)))
        as [|r0 rs] eqn:Hr.
      + left. apply map_eq_nil in Hr. split; [exact Hr | reflexivity].
      + right. split; [intros E; rewrite E in Hr; discriminate|].
        split; reflexivity. }
  destruct Hcases as [(Hnone & Hres) | (Hsome & Hcache & Hflag)].
  - assert (Hst : st' = st) by (unfold st'; rewrite Hres; reflexivity).
    assert (Hc : cache' = build_cache (st_boxes st))
      by (unfold cache'; rewrite Hres; reflexivity).
    split; [intros p; now rewrite Hc, Hst|].
    split.
    + rewrite Hres. simpl. split; [discriminate|].
      intros (b & Hin & Hh). exfalso.
      assert (Hin' : In b (filter (intersects ex0 ey0)
                             (build_cache (st_boxes st) pageIdx)))
        by (apply Hhit; auto).
      rewrite Hnone in Hin'. contradiction.
    + intros _. split; [exact Hst | intros p; now rewrite Hc].
  - split.
    + intros p. rewrite Hb, build_cache_after_erase, Hcache. reflexivity.
    + split.
      * split; [|intros _; exact Hflag]. intros _.
        destruct (filter (intersects ex0 ey0) (build_cache (st_boxes st) pageIdx))
          as [|b rs] eqn:Hr; [contradiction|].
        exists b. apply Hhit. now left.
      * rewrite Hflag. discriminate.
Qed.

Lemma erase_keeps_cache_and_collection_together_witness :
  let st := Sample.store_of [Sample.stroke; Sample.comment; Sample.far_stroke] [] in
  let res := eraseStrokeAt (build_cache (st_boxes st)) 0 10 0 st in
  fst (fst res) 0%Z = [Sample.far_stroke] /\
  build_cache (st_boxes (snd (fst res))) 0%Z = [Sample.far_stroke] /\
  snd res = true.
Proof.
  intros st res.
  assert (Hnd : NoDup (map id (st_boxes st))).
  { simpl. repeat constructor; simpl; intuition discriminate. }
  destruct (erase_keeps_cache_and_collection_together st 0%Z 10 0 Hnd)
    as (Hc & Hflag & _).
  split; [|split].
  - reflexivity.
  - transitivity (fst (fst res) 0%Z); [symmetry; apply Hc | reflexivity].
  - apply Hflag. exists Sample.stroke. split; [now left | reflexivity].
Defined.

(** ** Overlay rectangles stay inside the page image *)

Lemma or_zero_nonneg a : 0 <= a -> 0 <= Js.or a 0.
Proof. intros H. now rewrite or_zero. Qed.

Lemma scaled_inside a b c s :
  0 < s -> 0 <= a -> 0 <= b -> a + b <= c ->
  0 <= a * s /\ 0 <= b * s /\ a * s + b * s <= c * s.
Proof.
  intros Hs Ha Hb Hab.
  assert (Hs' : 0 <= s) by now apply Qlt_le_weak.
  split; [now apply Qmult_le_0_compat|].
  split; [now apply Qmult_le_0_compat|].
  setoid_replace (a * s + b * s) with ((a + b) * s) by ring.
  now apply Qmult_le_compat_r.
Qed.

(** X8.  On a rendered page image, a suggestion whose region lies inside
    the source raster of its page is projected to an overlay rectangle
    that lies inside the page image: its left and top are not before the
    image's offset in its wrapper, its right and bottom not beyond the
    image's width and height. *)
Theorem region_of_raster_stays_inside_page_image :
  forall (img : PageImage) (p : Placement),
    0 < width (rect img) -> 0 < height (rect img) ->
    0 < page_w p -> 0 < page_h p ->
    0 <= p_x p -> 0 <= p_w p -> p_x p + p_w p <= page_w p ->
    0 <= p_y p -> 0 <= p_h p -> p_y p + p_h p <= page_h p ->
    let sr := spatial_rect img p in
    offX img <= sr_left sr /\
    sr_left sr + sr_width sr <= offX img + width (rect img) /\
    offY img <= sr_top sr /\
    sr_top sr + sr_height sr <= offY img + height (rect img) /\
    0 <= sr_width sr /\ 0 <= sr_height sr.
Proof.
  intros img p Hw Hh Hpw Hph Hx Hbw Hxw Hy Hbh Hyh sr.
  unfold sr, spatial_rect. simpl.
  rewrite (scaleX_rendered img p (pos_nonzero _ Hw) Hpw).
  rewrite (scaleY_rendered img p (pos_nonzero _ Hh) Hph).
  rewrite !or_zero.
  assert (Hsx : 0 < width (rect img) / page_w p).
  { apply Qlt_shift_div_l; [exact Hpw|]. now rewrite Qmult_0_l. }
  assert (Hsy : 0 < height (rect img) / page_h p).
  { apply Qlt_shift_div_l; [exact Hph|]. now rewrite Qmult_0_l. }
  destruct (scaled_inside _ _ _ _ Hsx Hx Hbw Hxw) as (Hx1 & Hx2 & Hx3).
  destruct (scaled_inside _ _ _ _ Hsy Hy Hbh Hyh) as (Hy1 & Hy2 & Hy3).
  assert (Ex : page_w p * (width (rect img) / page_w p) == width (rect img))
    by (field; now apply pos_nonzero).
  assert (Ey : page_h p * (height (rect img) / page_h p) == height (rect img))
    by (field; now apply pos_nonzero).
  rewrite Ex in Hx3. rewrite Ey in Hy3.
  set (sx := width (rect img) / page_w p) in *.
  set (sy := height (rect img) / page_h p) in *.
  split.
  { rewrite <- (Qplus_0_r (offX img)) at 1. now apply Qplus_le_r. }
  split.
  { rewrite <- Qplus_assoc. now apply Qplus_le_r. }
  split.
  { rewrite <- (Qplus_0_r (offY img)) at 1. now apply Qplus_le_r. }
  split.
  { rewrite <- Qplus_assoc. now apply Qplus_le_r. }
  split; assumption.
Qed.

Lemma region_of_raster_stays_inside_page_image_witness :
  let sr := spatial_rect Sample.page0 Sample.on_page0 in
  10 <= sr_left sr /\ sr_left sr + sr_width sr <= 10 + 800 /\
  10 <= sr_top sr /\ sr_top sr + sr_height sr <= 10 + 1000.
Proof.
  intros sr.
  destruct (region_of_raster_stays_inside_page_image
              Sample.page0 Sample.on_page0) as (H1 & H2 & H3 & H4 & _);
    try (vm_compute; (reflexivity || discriminate)).
  repeat split; assumption.
Defined.

(** ** No event gives an object a negative coordinate *)

Lemma nonneg_plus a b : 0 <= a -> 0 <= b -> 0 <= a + b.
Proof.
  intros Ha Hb. rewrite <- (Qplus_0_r 0). now apply Qplus_le_compat.
Qed.

Lemma max_0_ge a : 0 <= Js.max 0 a.
Proof. apply max_ge_l. Qed.

Lemma assign_Forall (P : Box -> Prop) i v l :
  P v -> Forall P l -> Forall P (assign i v l).
Proof.
  intros Hv HF. revert i. induction HF as [|c l Hc HF IH]; intros [|i]; simpl;
    constructor; auto.
Qed.

Lemma nth_error_Forall (P : Box -> Prop) l i b :
  Forall P l -> nth_error l i = Some b -> P b.
Proof.
  intros HF Hn. apply nth_error_In in Hn.
  rewrite Forall_forall in HF. now apply HF.
Qed.

Lemma map_Forall (P : Box -> Prop) (f : Box -> Box) l :
  (forall b, P b -> P (f b)) -> Forall P l -> Forall P (map f l).
Proof. intros Hf HF. induction HF; simpl; constructor; auto. Qed.

Lemma filter_Forall (P : Box -> Prop) (f : Box -> bool) l :
  Forall P l -> Forall P (filter f l).
Proof.
  intros HF. induction HF as [|c l Hc HF IH]; simpl; [constructor|].
  destruct (f c); [constructor|]; auto.
Qed.

Lemma move_one_nonneg starts dx dy arr bid arr' :
  Forall nonneg arr -> move_one starts dx dy arr bid = Some arr' ->
  Forall nonneg arr'.
Proof.
  intros HF. unfold move_one.
  destruct (findIndex bid arr) as [i|]; [|now intros [= <-]].
  destruct (nth_error arr i) as [nb|] eqn:Hn; [|now intros [= <-]].
  destruct (nth_error_Forall _ _ _ _ HF Hn) as (Hx & Hy & Hex & Hey).
  destruct (type nb); try (now intros [= <-]);
    (destruct (lookup_start bid starts); [|discriminate]);
    intros [= <-]; apply assign_Forall; auto;
    repeat split; simpl; auto using max_0_ge.
Qed.

Lemma move_loop_nonneg starts dx dy sel arr arr' :
  Forall nonneg arr -> move_loop starts dx dy sel arr = Some arr' ->
  Forall nonneg arr'.
Proof.
  revert arr. induction sel as [|bid sel IH]; intros arr HF; simpl.
  - now intros [= <-].
  - destruct (move_one starts dx dy arr bid) as [a1|] eqn:H1; [|discriminate].
    apply IH. eapply move_one_nonneg; eauto.
Qed.

Lemma move_update_nonneg g ev p2 :
  Forall nonneg p2 -> Forall nonneg (move_update g ev p2).
Proof.
  intros HF. unfold move_update.
  destruct (move_loop _ _ _ _ p2) as [arr|] eqn:H; simpl; [|exact HF].
  eapply move_loop_nonneg; eauto.
Qed.

Lemma drop_one_nonneg dom starts dx dy img prev next bid next' :
  Forall nonneg next ->
  drop_one dom starts dx dy img prev next bid = Some next' ->
  Forall nonneg next'.
Proof.
  intros HF. unfold drop_one.
  destruct (findIndex bid next) as [i|]; [|now intros [= <-]].
  destruct (nth_error next i) as [nb|] eqn:Hn; [|now intros [= <-]].
  destruct (nth_error_Forall _ _ _ _ HF Hn) as (Hx & Hy & Hex & Hey).
  destruct (find_box bid prev) as [ob|]; [|discriminate].
  destruct (is_draw ob); [now intros [= <-]|].
  destruct (lookup_start bid starts) as [sb|]; [|discriminate].
  destruct (Z.eqb (page ob) (dataPageIndex img)).
  - intros [= <-]. apply assign_Forall; auto.
    repeat split; simpl; auto using max_0_ge.
  - destruct (find_image (page ob) (imgs dom)); intros [= <-]; auto.
    apply assign_Forall; auto. repeat split; simpl; auto using max_0_ge.
Qed.

Lemma drop_loop_nonneg dom starts dx dy img prev sel next next' :
  Forall nonneg next ->
  drop_loop dom starts dx dy img prev sel next = Some next' ->
  Forall nonneg next'.
Proof.
  revert next. induction sel as [|bid sel IH]; intros next HF; simpl.
  - now intros [= <-].
  - destruct (drop_one dom starts dx dy img prev next bid) as [a1|] eqn:H1;
      [|discriminate].
    apply IH. eapply drop_one_nonneg; eauto.
Qed.

Lemma drop_update_nonneg dom g ev img prev :
  Forall nonneg prev -> Forall nonneg (drop_update dom g ev img prev).
Proof.
  intros HF. unfold drop_update.
  destruct (drop_loop _ _ _ _ _ prev _ prev) as [arr|] eqn:H; simpl;
    [|exact HF].
  eapply drop_loop_nonneg; eauto.
Qed.

Lemma resize_generic_nonneg g dx dy b :
  nonneg (rz_startBox g) -> nonneg b -> nonneg (resize_generic g dx dy b).
Proof.
  intros (Sx & Sy & Sex & Sey) (Hx & Hy & Hex & Hey). unfold resize_generic.
  destruct (requested g dx dy) as [[[nx ny] nw] nh].
  destruct (isTextBox (rz_startBox g) && negb (is_corner (rz_corner g))).
  - destruct (fontSize (rz_startBox g)); repeat split; simpl;
      auto using max_0_ge.
  - destruct (rz_corner g); simpl;
      try (destruct (type (rz_startBox g)));
      repeat split; simpl; auto using max_0_ge.
Qed.

Lemma resize_line_nonneg g dx b : nonneg b -> nonneg (resize_line g dx b).
Proof.
  intros (Hx & Hy & Hex & Hey). unfold resize_line.
  destruct (rz_corner g); repeat split; simpl; auto using max_0_ge.
Qed.

Lemma resize_arrow_nonneg dom g ev b b' :
  nonneg b -> resize_arrow dom g ev b = Some b' -> nonneg b'.
Proof.
  intros (Hx & Hy & Hex & Hey). unfold resize_arrow.
  destruct (arrow_image dom (page (rz_startBox g))); [|discriminate].
  intros [= <-].
  destruct (rz_corner g); repeat split; simpl; auto using max_0_ge.
Qed.

Lemma resize_update_nonneg dom g ev p2 :
  nonneg (rz_startBox g) -> Forall nonneg p2 ->
  Forall nonneg (resize_update dom g ev p2).
Proof.
  intros Hs HF. unfold resize_update.
  destruct (findIndex (rz_id g) p2) as [j|]; [|exact HF].
  destruct (nth_error p2 j) as [b|] eqn:Hn; [|exact HF].
  pose proof (nth_error_Forall _ _ _ _ HF Hn) as Hb.
  destruct (type (rz_startBox g));
    try (apply assign_Forall; [now apply resize_generic_nonneg | exact HF]).
  - apply assign_Forall; [now apply resize_line_nonneg | exact HF].
  - destruct (resize_arrow dom g ev b) as [b'|] eqn:Ha; [|exact HF].
    apply assign_Forall; [|exact HF]. eapply resize_arrow_nonneg; eauto.
Qed.

Lemma setBoxes_nonneg f st :
  store_nonneg st -> Forall nonneg (f (st_boxes st)) ->
  store_nonneg (setBoxes f st).
Proof. intros (_ & Hh & Hr & Hc) Hf. repeat split; assumption. Qed.

Lemma setSelectedIds_nonneg ids st :
  store_nonneg st -> store_nonneg (setSelectedIds ids st).
Proof. intros (Hb & Hh & Hr & Hc). repeat split; assumption. Qed.

Lemma pushHistory_nonneg r st :
  Forall nonneg (boxes r) -> store_nonneg st -> store_nonneg (pushHistory r st).
Proof.
  intros Hr0 (Hb & Hh & Hr & Hc). split; [exact Hb|].
  split; [|split; [constructor | exact Hc]].
  simpl. constructor; [now rewrite json_clone_id | exact Hh].
Qed.

Lemma undo_nonneg r st :
  Forall nonneg (boxes r) -> store_nonneg st -> store_nonneg (undo r st).
Proof.
  intros Hr0 (Hb & Hh & Hr & Hc). unfold undo.
  destruct (historyRef st) as [|prev rest] eqn:E; [repeat split; auto|].
  - now rewrite E.
  - inversion Hh; subst. repeat split; simpl; auto.
    constructor; [now rewrite json_clone_id | exact Hr].
Qed.

Lemma redo_nonneg r st :
  Forall nonneg (boxes r) -> store_nonneg st -> store_nonneg (redo r st).
Proof.
  intros Hr0 (Hb & Hh & Hr & Hc). unfold redo.
  destruct (redoRef st) as [|next rest] eqn:E; [repeat split; auto|].
  - now rewrite E.
  - inversion Hr; subst. repeat split; simpl; auto.
    constructor; [now rewrite json_clone_id | exact Hh].
Qed.

Lemma removeSelected_nonneg r st :
  Forall nonneg (boxes r) -> store_nonneg st ->
  store_nonneg (removeSelected r st).
Proof.
  intros Hr0 Hs. unfold removeSelected.
  pose proof (pushHistory_nonneg r st Hr0 Hs) as H1.
  apply setBoxes_nonneg; [exact H1|].
  apply filter_Forall. apply H1.
Qed.

Lemma paste_clone_nonneg nid b : nonneg b -> nonneg (paste_clone nid b).
Proof.
  intros (Hx & Hy & Hex & Hey). unfold paste_clone.
  assert (H20 : 0 <= 20) by discriminate.
  destruct (type (set_id nid (json_clone_box b))); repeat split; simpl;
    auto using nonneg_plus, or_zero_nonneg.
Qed.

Lemma paste_clones_nonneg fresh i clip :
  Forall nonneg clip -> Forall nonneg (paste_clones fresh i clip).
Proof.
  intros HF. revert i. induction HF as [|c l Hc HF IH]; intros i; simpl;
    constructor; auto using paste_clone_nonneg.
Qed.

Lemma paste_nonneg fresh st : store_nonneg st -> store_nonneg (paste fresh st).
Proof.
  intros Hs. unfold paste.
  destruct (clipboard st) as [|c clip] eqn:E; [exact Hs|].
  apply setSelectedIds_nonneg. apply setBoxes_nonneg; [exact Hs|].
  destruct Hs as (Hb & _ & _ & Hc). apply Forall_app. split; [exact Hb|].
  apply paste_clones_nonneg. now rewrite <- E.
Qed.

Lemma nudge_nonneg r e st : store_nonneg st -> store_nonneg (nudge r e st).
Proof.
  intros Hs. unfold nudge. apply setBoxes_nonneg; [exact Hs|].
  apply map_Forall; [|apply Hs].
  intros b (Hx & Hy & Hex & Hey).
  assert (Hstep : 0 <= (if k_shiftKey e then 10 else 1))
    by (destruct (k_shiftKey e); discriminate).
  destruct (negb (includes (id b) (selectedIds r))); [repeat split; auto|].
  destruct (String.eqb (key e) "ArrowUp");
    [repeat split; simpl; auto using max_0_ge|].
  destruct (String.eqb (key e) "ArrowDown");
    [repeat split; simpl; auto using nonneg_plus|].
  destruct (String.eqb (key e) "ArrowLeft");
    [repeat split; simpl; auto using max_0_ge|].
  destruct (String.eqb (key e) "ArrowRight");
    repeat split; simpl; auto using nonneg_plus.
Qed.

Lemma toggleBold_nonneg r st : store_nonneg st -> store_nonneg (toggleBold r st).
Proof.
  intros Hs. unfold toggleBold. destruct (selectedIds r); [exact Hs|].
  apply setBoxes_nonneg; [exact Hs|].
  apply map_Forall; [|apply Hs]. intros b Hb.
  destruct (includes (id b) _); exact Hb.
Qed.

Lemma copySelection_nonneg r st :
  Forall nonneg (boxes r) -> store_nonneg st ->
  store_nonneg (copySelection r st).
Proof.
  intros Hr0 (Hb & Hh & Hr & Hc). repeat split; simpl; auto.
  rewrite json_clone_id. now apply filter_Forall.
Qed.

Lemma onKey_nonneg r fresh placing ta e st :
  Forall nonneg (boxes r) -> store_nonneg st ->
  store_nonneg (onKey r fresh placing ta e st).
Proof.
  intros Hr0 Hs. unfold onKey.
  destruct (String.eqb (key e) "Escape" && placing); [exact Hs|].
  destruct ta; [exact Hs|].
  destruct (selectedIds r) eqn:Hsel; [exact Hs|].
  destruct ((k_metaKey e || k_ctrlKey e) && String.eqb (toLowerCase (key e)) "b");
    [now apply toggleBold_nonneg|].
  destruct ((k_metaKey e || k_ctrlKey e) && String.eqb (toLowerCase (key e)) "z").
  { destruct (k_shiftKey e); [now apply redo_nonneg | now apply undo_nonneg]. }
  destruct ((k_metaKey e || k_ctrlKey e) && String.eqb (toLowerCase (key e)) "c");
    [now apply copySelection_nonneg|].
  destruct ((k_metaKey e || k_ctrlKey e) && String.eqb (toLowerCase (key e)) "v");
    [now apply paste_nonneg|].
  destruct (String.eqb (key e) "Delete" || String.eqb (key e) "Backspace");
    [now apply removeSelected_nonneg | now apply nudge_nonneg].
Qed.

Lemma onPointerDownBox_nonneg r dom rs e k st :
  Forall nonneg (boxes r) -> store_nonneg st ->
  store_nonneg (fst (onPointerDownBox r dom rs e k st)).
Proof.
  intros Hr0 Hs. unfold onPointerDownBox.
  pose proof (pushHistory_nonneg r st Hr0 Hs) as H1.
  assert (Hsel : forall (f : bool) sel s, store_nonneg s ->
             store_nonneg (if f then setSelectedIds sel s else s)).
  { intros [|] sel s H; [now apply setSelectedIds_nonneg | exact H]. }
  destruct (find_box k (boxes r)) as [t|].
  - destruct (is_draw t); simpl; [now apply Hsel|].
    destruct (rs || negb (mounted dom)); simpl; now apply Hsel.
  - destruct (rs || negb (mounted dom)); simpl; now apply Hsel.
Qed.

Lemma onResizeDown_nonneg r e k corner st :
  Forall nonneg (boxes r) -> store_nonneg st ->
  store_nonneg (fst (onResizeDown r e k corner st)) /\
  match snd (onResizeDown r e k corner st) with
  | Some g => nonneg (rz_startBox g)
  | None => True
  end.
Proof.
  intros Hr0 Hs. unfold onResizeDown.
  pose proof (pushHistory_nonneg r st Hr0 Hs) as H1.
  destruct (findIndex k (st_boxes (pushHistory r st))) as [i|]; [|now split].
  destruct (nth_error (st_boxes (pushHistory r st)) i) as [sb|] eqn:Hn;
    [|now split].
  split; [exact H1|]. simpl.
  eapply nth_error_Forall; [|exact Hn]. apply H1.
Qed.

Lemma move_move_nonneg g ev st :
  store_nonneg st -> store_nonneg (move_move g ev st).
Proof.
  intros Hs. unfold move_move. destruct (other_pointer _ ev); [exact Hs|].
  apply setBoxes_nonneg; [exact Hs|]. apply move_update_nonneg, Hs.
Qed.

Lemma move_up_nonneg combinePages dom g ev st :
  store_nonneg st -> store_nonneg (fst (move_up combinePages dom g ev st)).
Proof.
  intros Hs. unfold move_up. destruct (other_pointer _ ev); [exact Hs|].
  destruct (combinePages && mounted dom); [|exact Hs].
  destruct (drop_image ev (imgs dom)); [|exact Hs]. simpl.
  apply setBoxes_nonneg; [exact Hs|]. apply drop_update_nonneg, Hs.
Qed.

Lemma resize_move_nonneg dom g ev st :
  nonneg (rz_startBox g) -> store_nonneg st ->
  store_nonneg (resize_move dom g ev st).
Proof.
  intros Hg Hs. unfold resize_move. destruct (other_pointer _ ev); [exact Hs|].
  apply setBoxes_nonneg; [exact Hs|]. apply resize_update_nonneg; [exact Hg|].
  apply Hs.
Qed.

Lemma resize_up_nonneg textRefs g ev st :
  store_nonneg st -> store_nonneg (fst (resize_up textRefs g ev st)).
Proof.
  intros Hs. unfold resize_up. destruct (other_pointer _ ev); [exact Hs|].
  destruct (is_corner (rz_corner g)); [|exact Hs].
  destruct (textRefs (rz_id g)); [|exact Hs]. simpl.
  apply setBoxes_nonneg; [exact Hs|]. apply map_Forall; [|apply Hs].
  intros b Hb. destruct (String.eqb (id b) (rz_id g)); exact Hb.
Qed.

Lemma commit_nonneg st mv rz rref s :
  store_nonneg st -> Forall nonneg (boxes (keyRender s)) ->
  match rz with Some g => nonneg (rz_startBox g) | None => True end ->
  session_nonneg (commit st mv rz rref s).
Proof.
  intros Hs Hk Hz. unfold commit.
  destruct (Nat.eqb (selStamp st) (keyStamp s)); repeat split; simpl;
    try apply Hs; auto.
Qed.

Lemma step_nonneg dom combinePages textRefs fresh s ev :
  session_nonneg s -> session_nonneg (step dom combinePages textRefs fresh s ev).
Proof.
  intros (Hs & Hk & Hz).
  assert (Hr : Forall nonneg (boxes (render (store s)))) by apply Hs.
  destruct ev as [e k | e k corner | e | e | placing ta e | | | ]; simpl.
  - pose proof (onPointerDownBox_nonneg (render (store s)) dom (resizingRef s)
                  e k (store s) Hr Hs) as H.
    destruct (onPointerDownBox _ dom _ e k (store s)) as [st' g].
    now apply commit_nonneg.
  - pose proof (onResizeDown_nonneg (render (store s)) e k corner (store s) Hr Hs)
      as [H Hg].
    destruct (onResizeDown _ e k corner (store s)) as [st' g]. simpl in *.
    apply commit_nonneg; auto. destruct g; [exact Hg | exact Hz].
  - apply commit_nonneg; auto.
    assert (H1 : store_nonneg match moving s with
                              | Some g => move_move g e (store s)
                              | None => store s
                              end)
      by (destruct (moving s); [now apply move_move_nonneg | exact Hs]).
    destruct (resizing s); [now apply resize_move_nonneg | exact H1].
  - assert (H1 : store_nonneg
                   (fst match moving s with
                        | Some g =>
                            let '(st', ended) :=
                              move_up combinePages dom g e (store s) in
                            (st', if ended then None else Some g)
                        | None => (store s, None)
                        end)).
    { destruct (moving s) as [g|]; [|exact Hs].
      pose proof (move_up_nonneg combinePages dom g e (store s) Hs) as H.
      destruct (move_up combinePages dom g e (store s)); exact H. }
    destruct (match moving s with
              | Some g => _
              | None => (store s, None)
              end) as [st1 mv]. simpl in H1.
    destruct (resizing s) as [g|].
    + pose proof (resize_up_nonneg textRefs g e st1 H1) as H.
      destruct (resize_up textRefs g e st1) as [st' ended]. simpl in H.
      apply commit_nonneg; auto. destruct ended; [exact I | exact Hz].
    + now apply commit_nonneg.
  - apply commit_nonneg; auto. now apply onKey_nonneg.
  - apply commit_nonneg; auto. now apply undo_nonneg.
  - apply commit_nonneg; auto. now apply redo_nonneg.
  - apply commit_nonneg; auto. now apply removeSelected_nonneg.
Qed.

(** X9.  No sequence of pointer-down, move and release events on objects
    and handles, key presses, toolbar undo, redo and delete ever gives an
    object a negative coordinate: when no object of the session (store,
    both history stacks, clipboard, the collection the key listener
    holds, the start box of a resize under way) has a negative [x], [y],
    [ex] or [ey], the same holds after the events. *)
Theorem events_keep_coordinates_nonnegative :
  forall (dom : Dom) (combinePages : bool) (textRefs : string -> option Q)
         (fresh : nat -> string) (evs : list Event) (s : Session),
    session_nonneg s ->
    session_nonneg (run dom combinePages textRefs fresh s evs) /\
    forall b, In b (st_boxes (store (run dom combinePages textRefs fresh s evs))) ->
              0 <= x b /\ 0 <= y b /\ 0 <= ex b /\ 0 <= ey b.
Proof.
  intros dom combinePages textRefs fresh evs.
  assert (H : forall s, session_nonneg s ->
                        session_nonneg (run dom combinePages textRefs fresh s evs)).
  { unfold run. induction evs as [|ev evs IH]; intros s Hs; simpl; [exact Hs|].
    apply IH. now apply step_nonneg. }
  intros s Hs. split; [now apply H|].
  destruct (H s Hs) as ((Hb & _) & _).
  rewrite Forall_forall in Hb. exact Hb.
Qed.

Lemma events_keep_coordinates_nonnegative_witness :
  let evs := [PointerDownBox (Sample.at_ 100 100) "b_1";
              PointerMove (Sample.at_ 20 150); PointerUp (Sample.at_ 20 150);
              Sample.key_copy; Sample.key_paste; ClickUndo] in
  map x (st_boxes (store (Sample.session evs))) = [40] /\
  forall b, In b (st_boxes (store (Sample.session evs))) ->
            0 <= x b /\ 0 <= y b /\ 0 <= ex b /\ 0 <= ey b.
Proof.
  intros evs.
  assert (Hs : session_nonneg (mount (Sample.store_of [Sample.comment] []))).
  { repeat split; simpl; repeat constructor; discriminate. }
  split; [reflexivity|].
  exact (proj2 (events_keep_coordinates_nonnegative
                  Sample.one_page false Sample.no_text_area Sample.fresh evs
                  _ Hs)).
Defined.

(** ** Release of a move gesture in the combined view *)

Lemma includes_cons k a l :
  includes k (a :: l) = String.eqb k a || includes k l.
Proof. reflexivity. Qed.

Lemma includes_app k l1 l2 :
  includes k (l1 ++ l2) = includes k l1 || includes k l2.
Proof. unfold includes. apply existsb_app. Qed.

Lemma dropped_id dom starts dx dy img b :
  id (dropped dom starts dx dy img b) = id b.
Proof.
  unfold dropped. destruct (is_draw b); [reflexivity|].
  destruct (lookup_start (id b) starts); [|reflexivity].
  destruct (Z.eqb (page b) (dataPageIndex img)); [reflexivity|].
  destruct (find_image (page b) (imgs dom)); reflexivity.
Qed.

Lemma drop_elem_id dom starts dx dy img sel b :
  id (drop_elem dom starts dx dy img sel b) = id b.
Proof.
  unfold drop_elem. destruct (includes (id b) sel);
    [apply dropped_id | reflexivity].
Qed.

Lemma findIndex_map_first k (g : Box -> Box) l i nb :
  (forall b, id (g b) = id b) ->
  findIndex k (map g l) = Some i -> nth_error (map g l) i = Some nb ->
  exists ob, find_box k l = Some ob /\ nb = g ob /\ id ob = k.
Proof.
  intros Hg. unfold find_box. revert i.
  induction l as [|c l IH]; intros i; simpl; [discriminate|].
  rewrite Hg. destruct (String.eqb (id c) k) eqn:E.
  - intros [= <-]. simpl. intros [= <-]. exists c.
    apply String.eqb_eq in E. auto.
  - destruct (findIndex k (map g l)) as [j|]; [|discriminate].
    simpl. intros [= <-]. simpl. apply IH. reflexivity.
Qed.

Lemma findIndex_map_none k (g : Box -> Box) l :
  (forall b, id (g b) = id b) ->
  findIndex k (map g l) = None -> ~ In k (map id l).
Proof.
  intros Hg. induction l as [|c l IH]; simpl; [tauto|].
  rewrite Hg. destruct (String.eqb (id c) k) eqn:E; [discriminate|].
  destruct (findIndex k (map g l)); [discriminate|].
  intros _ [H | H]; [|now apply IH].
  apply String.eqb_neq in E. contradiction.
Qed.

Lemma findIndex_in_range k l i :
  findIndex k l = Some i -> exists nb, nth_error l i = Some nb.
Proof.
  revert i. induction l as [|c l IH]; intros i; simpl; [discriminate|].
  destruct (String.eqb (id c) k); [intros [= <-]; simpl; eauto|].
  destruct (findIndex k l) as [j|]; [|discriminate].
  simpl. intros [= <-]. simpl. now apply IH.
Qed.

Lemma assign_map_first k (g : Box -> Box) v l i :
  NoDup (map id l) -> (forall b, id (g b) = id b) ->
  findIndex k (map g l) = Some i ->
  assign i v (map g l)
  = map (fun b => if String.eqb (id b) k then v else g b) l.
Proof.
  intros Hnd Hg. revert i.
  induction l as [|c l IH]; intros i; simpl; [discriminate|].
  inversion Hnd as [|? ? Hnotin Hnd']; subst.
  rewrite Hg. destruct (String.eqb (id c) k) eqn:E.
  - intros [= <-]. simpl. f_equal. apply String.eqb_eq in E. subst k.
    apply map_ext_in. intros b Hb.
    destruct (String.eqb (id b) (id c)) eqn:E'; [|reflexivity].
    apply String.eqb_eq in E'. exfalso. apply Hnotin. rewrite <- E'.
    now apply in_map.
  - destruct (findIndex k (map g l)) as [j|] eqn:Hj; [|discriminate].
    simpl. intros [= <-]. simpl. f_equal. now apply IH.
Qed.

Lemma find_box_unique k l ob b :
  NoDup (map id l) -> find_box k l = Some ob -> In b l -> id b = k -> b = ob.
Proof.
  intros Hnd Hf Hb Hid. unfold find_box in Hf.
  apply find_some in Hf as [Hin E]. apply String.eqb_eq in E.
  eapply NoDup_ids_unique; eauto. congruence.
Qed.

(** One turn of the loop, on a collection in which the objects named by
    [done] have been dropped already. *)
Lemma drop_one_is_map dom starts dx dy img prev done bid :
  NoDup (map id prev) ->
  (forall b, In b prev -> id b = bid -> is_draw b = false ->
             lookup_start bid starts <> None) ->
  drop_one dom starts dx dy img prev
           (map (drop_elem dom starts dx dy img done) prev) bid
  = Some (map (drop_elem dom starts dx dy img (bid :: done)) prev).
Proof.
  intros Hnd Hstart. unfold drop_one.
  set (g := drop_elem dom starts dx dy img done).
  assert (Hg : forall b, id (g b) = id b) by (intros b; apply drop_elem_id).
  assert (Hsame : forall v,
             (forall b, In b prev -> id b = bid ->
                        v = dropped dom starts dx dy img b) ->
             map (fun b => if String.eqb (id b) bid then v else g b) prev
             = map (drop_elem dom starts dx dy img (bid :: done)) prev).
  { intros v Hv. apply map_ext_in. intros b Hb.
    unfold drop_elem at 1. rewrite includes_cons.
    destruct (String.eqb (id b) bid) eqn:E; [|reflexivity].
    apply String.eqb_eq in E. simpl. now apply Hv. }
  assert (Hkeep : (forall b, In b prev -> id b = bid ->
                             g b = dropped dom starts dx dy img b) ->
                  map g prev
                  = map (drop_elem dom starts dx dy img (bid :: done)) prev).
  { intros Hv. apply map_ext_in. intros b Hb.
    unfold drop_elem. rewrite includes_cons.
    destruct (String.eqb (id b) bid) eqn:E; [|reflexivity].
    apply String.eqb_eq in E. simpl. now apply Hv. }
  destruct (findIndex bid (map g prev)) as [i|] eqn:Hi.
  2:{ f_equal. apply Hkeep. intros b Hb Hid. exfalso.
      apply (findIndex_map_none _ _ _ Hg Hi). rewrite <- Hid. now apply in_map. }
  destruct (findIndex_in_range _ _ _ Hi) as (nb & Hn). rewrite Hn.
  destruct (findIndex_map_first _ _ _ _ _ Hg Hi Hn) as (ob & Hf & Hnb & Hid).
  rewrite Hf.
  assert (Hin : In ob prev).
  { unfold find_box in Hf. now apply find_some in Hf. }
  assert (Huniq : forall b, In b prev -> id b = bid -> b = ob)
    by (intros b Hb E; eapply find_box_unique; eauto).
  assert (Hgob : g ob = ob \/ g ob = dropped dom starts dx dy img ob).
  { unfold g, drop_elem. destruct (includes (id ob) done); auto. }
  destruct (is_draw ob) eqn:Hd.
  { f_equal. apply Hkeep. intros b Hb E.
    rewrite (Huniq b Hb E).
    destruct Hgob as [-> | ->]; unfold dropped; now rewrite Hd. }
  destruct (lookup_start bid starts) as [sb|] eqn:Hl.
  2:{ exfalso. now apply (Hstart ob Hin Hid Hd). }
  destruct (Z.eqb (page ob) (dataPageIndex img)) eqn:Hp.
  { f_equal. rewrite (assign_map_first _ _ _ _ _ Hnd Hg Hi).
    apply Hsame. intros b Hb E. rewrite (Huniq b Hb E), Hnb.
    destruct Hgob as [-> | ->]; unfold dropped; rewrite Hd, Hid, Hl, Hp;
      reflexivity. }
  destruct (find_image (page ob) (imgs dom)) as [oi|] eqn:Ho.
  - f_equal. rewrite (assign_map_first _ _ _ _ _ Hnd Hg Hi).
    apply Hsame. intros b Hb E. rewrite (Huniq b Hb E), Hnb.
    destruct Hgob as [-> | ->]; unfold dropped; rewrite Hd, Hid, Hl, Hp, Ho;
      reflexivity.
  - f_equal. apply Hkeep. intros b Hb E. rewrite (Huniq b Hb E).
    destruct Hgob as [-> | ->]; unfold dropped; rewrite Hd, Hid, Hl, Hp, Ho;
      reflexivity.
Qed.

Lemma drop_loop_is_map dom starts dx dy img prev sel done :
  NoDup (map id prev) ->
  (forall b, In b prev -> includes (id b) sel = true -> is_draw b = false ->
             lookup_start (id b) starts <> None) ->
  drop_loop dom starts dx dy img prev sel
            (map (drop_elem dom starts dx dy img done) prev)
  = Some (map (drop_elem dom starts dx dy img (rev sel ++ done)) prev).
Proof.
  intros Hnd. revert done. induction sel as [|bid sel IH]; intros done Hstart;
    simpl; [reflexivity|].
  rewrite drop_one_is_map; [|exact Hnd|].
  - rewrite IH, <- app_assoc; [reflexivity|].
    intros b Hb Hs. apply Hstart; [exact Hb|].
    rewrite includes_cons, Hs. apply orb_true_r.
  - intros b Hb Hid Hd. rewrite <- Hid. apply Hstart; auto.
    rewrite includes_cons, Hid, String.eqb_refl. reflexivity.
Qed.

Lemma includes_rev k l : includes k (rev l) = includes k l.
Proof.
  induction l as [|a l IH]; simpl; [reflexivity|].
  rewrite includes_app, IH, includes_cons. simpl.
  rewrite orb_false_r. apply orb_comm.
Qed.

(** X10.  Release of a move gesture over a page image in the combined
    view, on a collection with unique ids in which every selected object
    other than a stroke has a start record: every such object is put at
    its start coordinates plus the pointer delta; one that comes from
    another page is moved to the page under the pointer and its [y] is
    re-based so that, unless the clamp at 0 applies, its distance from
    the top of the viewport is the one it had over its old page; strokes
    and unselected objects are left as they are. *)
Theorem drop_on_another_page_keeps_screen_position :
  forall (dom : Dom) (g : MoveGesture) (ev : PointerEvent)
         (targetImg : PageImage) (prev : list Box),
    NoDup (map id prev) ->
    (forall b, In b prev -> includes (id b) (mv_sel g) = true ->
               is_draw b = false ->
               lookup_start (id b) (mv_starts g) <> None) ->
    let dx := clientX ev - mv_startX g in
    let dy := clientY ev - mv_startY g in
    drop_update dom g ev targetImg prev
    = map (drop_elem dom (mv_starts g) dx dy targetImg (mv_sel g)) prev /\
    Forall2 (fun b b' =>
               (includes (id b) (mv_sel g) = false \/ is_draw b = true -> b' = b) /\
               forall sb oi,
                 includes (id b) (mv_sel g) = true -> is_draw b = false ->
                 lookup_start (id b) (mv_starts g) = Some sb ->
                 page b <> dataPageIndex targetImg ->
                 find_image (page b) (imgs dom) = Some oi ->
                 page b' = dataPageIndex targetImg /\
                 x b' == Js.max 0 (s_x sb + dx) /\
                 (top (rect targetImg) <= top (rect oi) + s_y sb + dy ->
                  top (rect targetImg) + y b'
                  == top (rect oi) + (s_y sb + dy)))
            prev (drop_update dom g ev targetImg prev).
Proof.
  intros dom g ev targetImg prev Hnd Hstart dx dy.
  assert (Hmap : drop_update dom g ev targetImg prev
                 = map (drop_elem dom (mv_starts g) dx dy targetImg (mv_sel g))
                       prev).
  { unfold drop_update. fold dx dy.
    assert (H0 : map (drop_elem dom (mv_starts g) dx dy targetImg []) prev = prev).
    { rewrite <- (map_id prev) at 2. apply map_ext. reflexivity. }
    pose proof (drop_loop_is_map dom (mv_starts g) dx dy targetImg prev
                  (mv_sel g) [] Hnd Hstart) as Hloop.
    rewrite H0 in Hloop. rewrite Hloop. simpl.
    apply map_ext. intros b. unfold drop_elem.
    now rewrite app_nil_r, includes_rev. }
  split; [exact Hmap|]. rewrite Hmap.
  apply map_Forall2. intros b. unfold drop_elem. split.
  - intros [-> | Hd]; [reflexivity|].
    destruct (includes (id b) (mv_sel g)); [|reflexivity].
    unfold dropped. now rewrite Hd.
  - intros sb oi -> Hd Hl Hp Ho. unfold dropped.
    apply Z.eqb_neq in Hp. rewrite Hd, Hl, Hp, Ho. simpl.
    split; [reflexivity|]. split; [reflexivity|].
    intros Hle. rewrite max_of_le; [ring|].
    apply (Qplus_le_l _ _ (top (rect targetImg))). ring_simplify.
    ring_simplify in Hle. exact Hle.
Qed.

Lemma drop_on_another_page_keeps_screen_position_witness :
  let below := page_below Sample.page0 1 in
  let dom := {| mounted := true; scrollLeft := 0; scrollTop := 0;
                imgs := [Sample.page0; below] |} in
  let prev := [Sample.comment; Sample.stroke] in
  let g := {| mv_sel := ["b_1"]; mv_starts := make_starts prev ["b_1"];
              mv_startX := 100; mv_startY := 100;
              mv_pointerId := Some 1%Z |} in
  map page (drop_update dom g (Sample.at_ 110 1200) below prev) = [1%Z; 0%Z] /\
  map y (drop_update dom g (Sample.at_ 110 1200) below prev) = [140; 0].
Proof.
  intros below dom prev g.
  assert (Hnd : NoDup (map id prev)).
  { simpl. repeat constructor; simpl; intuition discriminate. }
  assert (Hstart : forall b, In b prev -> includes (id b) (mv_sel g) = true ->
                             is_draw b = false ->
                             lookup_start (id b) (mv_starts g) <> None).
  { intros b [<- | [<- | []]]; simpl; discriminate. }
  destruct (drop_on_another_page_keeps_screen_position
              dom g (Sample.at_ 110 1200) below prev Hnd Hstart) as (Hmap & _).
  rewrite Hmap. split; reflexivity.
Defined.

(** ** Drawing a stroke *)

Lemma last_point_snoc l q : last_point (l ++ [q]) = Some q.
Proof.
  induction l as [|a l IH]; simpl; [reflexivity|].
  destruct (l ++ [q]) eqn:E; [now destruct l | exact IH].
Qed.

Lemma last_point_cons a l : exists b, last_point (a :: l) = Some b.
Proof.
  revert a. induction l as [|c l IH]; intros a; simpl; [eauto|].
  apply (IH c).
Qed.

Lemma spaced_snoc l q :
  spaced l -> (forall a, last_point l = Some a -> 2 * 2 <= dist2 a q) ->
  spaced (l ++ [q]).
Proof.
  induction l as [|a l IH]; simpl; [auto|].
  destruct l as [|b l]; simpl.
  - intros _ H. split; [now apply H | exact I].
  - intros [Hab Hs] H. split; [exact Hab|]. apply IH; assumption.
Qed.

Lemma segments_from_snoc pg sw prev l q :
  segments_from pg sw prev (l ++ [q])
  = segments_from pg sw prev l
    ++ [{| sg_page := pg;
           sg_from := match last_point l with Some a => Some a | None => prev end;
           sg_to := q; sg_width := sw |}].
Proof.
  revert prev. induction l as [|a l IH]; intros prev; simpl; [reflexivity|].
  rewrite IH. destruct l as [|b l]; [reflexivity|].
  destruct (last_point_cons b l) as (z & Hz). rewrite Hz. reflexivity.
Qed.

Lemma clamp_into_inside v o e : 0 <= e -> 0 <= clamp_into v o e <= e.
Proof.
  intros He. unfold clamp_into, Js.max, Js.min. split.
  - apply Q.le_max_l.
  - apply Q.max_lub; [exact He | apply Q.le_min_r].
Qed.

Lemma ltb_false a b : Js.ltb a b = false -> b <= a.
Proof.
  unfold Js.ltb. intros H. apply negb_false_iff in H.
  now apply Qle_bool_iff.
Qed.

Lemma ltb_true a b : Js.ltb a b = true -> a < b.
Proof.
  unfold Js.ltb. intros H. apply negb_true_iff in H.
  apply Qnot_le_lt. intros Hle. apply Qle_bool_iff in Hle. congruence.
Qed.

Lemma one_nonzero a : 1 <= a -> ~ a == 0.
Proof. intros H E. rewrite E in H. apply H. reflexivity. Qed.

Lemma stroke_width_ge_1 sw0 device pr : 1 <= stroke_width sw0 device pr.
Proof. unfold stroke_width. apply max_ge_l. Qed.

Lemma sub_nonneg a b : b <= a -> 0 <= a - b.
Proof.
  intros H. apply (Qplus_le_l _ _ b).
  setoid_replace (0 + b) with b by ring.
  setoid_replace (a - b + b) with a by ring. exact H.
Qed.

Lemma sub_le a b c : a <= b + c -> a - b <= c.
Proof.
  intros H. apply (Qplus_le_l _ _ b).
  setoid_replace (a - b + b) with a by ring.
  setoid_replace (c + b) with (b + c) by ring. exact H.
Qed.

Lemma image_at_inside ev l img :
  image_at ev l = Some img ->
  In img l /\
  0 <= clientX ev - left (rect img) <= width (rect img) /\
  0 <= clientY ev - top (rect img) <= height (rect img).
Proof.
  unfold image_at. intros H. apply find_some in H as [Hin H].
  apply andb_prop in H as [H H4]. apply andb_prop in H as [H H3].
  apply andb_prop in H as [H1 H2]. unfold Js.leb in *.
  apply Qle_bool_iff in H1, H2, H3, H4. unfold right in H2. unfold bottom in H4.
  split; [exact Hin|].
  split; split; auto using sub_nonneg, sub_le.
Qed.

Lemma not_touch_cases d : d <> Touch -> d = Pen \/ d = Mouse.
Proof. destruct d; [auto | contradiction | auto]. Qed.

Lemma press_starts_sampling dom eraserMode sw0 placing nid e0 p0 img rc :
  detectInputDevice (pointerType e0) <> Touch ->
  image_at (pp_event e0) (page_images dom) = Some img ->
  sampling rc nid (dataPageIndex img)
    (stroke_width sw0 (detectInputDevice (pointerType e0)) (pressure e0))
    {| px := clientX (pp_event e0) - left (rect img);
       py := clientY (pp_event e0) - top (rect img) |}
    (drawQueueRef p0)
    (pushHistory (render (pad_store p0)) (pad_store p0))
    (strokeCacheRef p0)
    (pointerId (pp_event e0))
    (handlePagePointerDown dom true eraserMode sw0 placing nid e0 p0).
Proof.
  intros Hd Hi. unfold handlePagePointerDown. simpl. rewrite Hi.
  destruct (not_touch_cases _ Hd) as [-> | ->];
    (eexists; exists []; simpl; repeat split; constructor).
Qed.

Lemma move_keeps_sampling canvasRefs sw0 current rc nid pg sw first q0 st ch
    ptr e p :
  canvasRefs pg = Some rc -> 0 <= width rc -> 0 <= height rc -> 1 <= sw ->
  sampling rc nid pg sw first q0 st ch ptr p ->
  sampling rc nid pg sw first q0 st ch ptr
    (handlePagePointerMove canvasRefs sw0 current e p).
Proof.
  intros Hc Hw Hh Hsw Hs.
  pose proof Hs as (s & rest & Ha & Hid & Hty & Hpg & Hwd & Hox & Hoy & Hpts
                    & Hin & Hsp & Hq & Hst & Hch & Hdr & Hptr).
  unfold handlePagePointerMove.
  destruct (foreign_pointer (pp_event e) p); [exact Hs|].
  rewrite Hdr. simpl. rewrite Ha, Hpg, Hc.
  set (x1 := clamp_into (clientX (pp_event e)) (left rc) (width rc)).
  set (y1 := clamp_into (clientY (pp_event e)) (top rc) (height rc)).
  destruct (last_point_cons first rest) as (l & Hl). rewrite <- Hpts in Hl.
  rewrite Hl.
  destruct (Js.ltb _ _) eqn:Hnear; [exact Hs|].
  apply ltb_false in Hnear.
  exists (set_points (points s ++ [ {| px := x1; py := y1 |} ]) s),
         (rest ++ [ {| px := x1; py := y1 |} ]).
  cbn [drawQueueRef queueDrawSegment with_stroke activeStrokeRef points
       set_points page id type strokeWidth offsetX offsetY pad_store
       strokeCacheRef drawingRef activePointerRef].
  split; [reflexivity|]. split; [exact Hid|]. split; [exact Hty|].
  split; [exact Hpg|]. split; [exact Hwd|]. split; [exact Hox|].
  split; [exact Hoy|]. split; [now rewrite Hpts|].
  split.
  { apply Forall_app. split; [exact Hin|]. constructor; [|constructor].
    unfold inside. cbn [px py].
    destruct (clamp_into_inside (clientX (pp_event e)) (left rc) _ Hw).
    destruct (clamp_into_inside (clientY (pp_event e)) (top rc) _ Hh).
    repeat split; assumption. }
  split.
  { apply spaced_snoc; [exact Hsp|].
    intros a Ea. rewrite Hl in Ea. injection Ea as <-. exact Hnear. }
  split.
  { rewrite Hq, <- app_assoc. f_equal.
    rewrite segments_from_snoc, Hl, Hwd.
    rewrite (or_of_nonzero sw sw0 (one_nonzero _ Hsw)). reflexivity. }
  split; [exact Hst|]. split; [exact Hch|]. split; [exact Hdr | exact Hptr].
Qed.

Lemma moves_keep_sampling canvasRefs sw0 current rc nid pg sw first q0 st ch
    ptr moves p :
  canvasRefs pg = Some rc -> 0 <= width rc -> 0 <= height rc -> 1 <= sw ->
  sampling rc nid pg sw first q0 st ch ptr p ->
  sampling rc nid pg sw first q0 st ch ptr
    (fold_left (fun q e => handlePagePointerMove canvasRefs sw0 current e q)
               moves p).
Proof.
  intros Hc Hw Hh Hsw. revert p.
  induction moves as [|e moves IH]; intros p Hp; simpl; [exact Hp|].
  apply IH. now apply move_keeps_sampling.
Qed.

(** X11.  In draw mode, a press with a pen or a mouse on a page image
    starts a stroke on the page of that image, of a width that is at
    least 1 (the setting, when at least 1, for a mouse), with the press
    point relative to the image as its first sample, which lies inside
    the image.  Through any sequence of move events every further sample
    lies inside the canvas of the page and consecutive samples are at
    least 2 apart; the segments queued for the live preview are a dot at
    the first sample and then one segment from each sample to the next;
    the store only received the snapshot pushed at the press and the
    stroke cache is as before. *)
Theorem stroke_samples_are_spaced_and_inside :
  forall (dom : Dom) (canvasRefs : Z -> option Rect) (eraserMode : bool)
         (strokeWidth0 : Q) (current : Z) (placing : bool) (nid : string)
         (e0 : PagePointer) (moves : list PagePointer) (p0 : Pad)
         (img : PageImage) (rc : Rect),
    detectInputDevice (pointerType e0) <> Touch ->
    image_at (pp_event e0) (page_images dom) = Some img ->
    canvasRefs (dataPageIndex img) = Some rc ->
    0 <= width rc -> 0 <= height rc ->
    let sw := stroke_width strokeWidth0 (detectInputDevice (pointerType e0))
                           (pressure e0) in
    let first := {| px := clientX (pp_event e0) - left (rect img);
                    py := clientY (pp_event e0) - top (rect img) |} in
    let p := fold_left
               (fun q e => handlePagePointerMove canvasRefs strokeWidth0 current e q)
               moves
               (handlePagePointerDown dom true eraserMode strokeWidth0 placing
                                      nid e0 p0) in
    sampling rc nid (dataPageIndex img) sw first (drawQueueRef p0)
             (pushHistory (render (pad_store p0)) (pad_store p0))
             (strokeCacheRef p0) (pointerId (pp_event e0)) p /\
    inside (rect img) first /\
    1 <= sw /\
    (detectInputDevice (pointerType e0) = Mouse -> 1 <= strokeWidth0 ->
     sw == strokeWidth0).
Proof.
  intros dom canvasRefs eraserMode sw0 current placing nid e0 moves p0 img rc
         Hd Hi Hc Hw Hh sw first p.
  split; [|split; [|split]].
  - unfold p.
    apply moves_keep_sampling;
      [exact Hc | exact Hw | exact Hh | apply stroke_width_ge_1
      | now apply press_starts_sampling].
  - destruct (image_at_inside _ _ _ Hi) as (_ & [H1 H2] & [H3 H4]).
    unfold inside, first. simpl. repeat split; assumption.
  - apply stroke_width_ge_1.
  - intros Hm Hs. unfold sw, stroke_width. rewrite Hm.
    rewrite Qmult_1_r. rewrite (max_of_le 1 sw0 Hs). now apply max_of_le.
Qed.

Lemma stroke_samples_are_spaced_and_inside_witness :
  let canvas := canvas_of Sample.page0 in
  let p := fold_left
             (fun q e => handlePagePointerMove canvas 4 0 e q)
             [mouse_at 111 110; mouse_at 113 110; mouse_at 2000 110]
             (handlePagePointerDown Sample.one_page true false 4 false "d_9"
                (mouse_at 110 110) (pad_of Sample.empty_store)) in
  exists s, activeStrokeRef p = Some s /\
            points s = [ {| px := 100; py := 100 |}; {| px := 103; py := 100 |};
                         {| px := 800; py := 100 |} ] /\
            spaced (points s).
Proof.
  intros canvas p.
  destruct (stroke_samples_are_spaced_and_inside
              Sample.one_page canvas false 4 0%Z false "d_9" (mouse_at 110 110)
              [mouse_at 111 110; mouse_at 113 110; mouse_at 2000 110]
              (pad_of Sample.empty_store) Sample.page0 (rect Sample.page0)
              ltac:(discriminate) eq_refl eq_refl
              ltac:(discriminate) ltac:(discriminate))
    as ((s & rest & Ha & _ & _ & _ & _ & _ & _ & _ & _ & Hsp & _) & _).
  exists s. split; [exact Ha|]. split; [|exact Hsp].
  fold canvas in Ha. fold p in Ha.
  assert (E : activeStrokeRef p
              = Some (set_points [ {| px := 100; py := 100 |};
                                   {| px := 103; py := 100 |};
                                   {| px := 800; py := 100 |} ] s)).
  { rewrite Ha. f_equal. vm_compute in Ha. injection Ha as <-. reflexivity. }
  rewrite Ha in E. injection E as E. rewrite E. reflexivity.
Defined.

Lemma same_pointer_not_foreign ev p :
  pointerId ev = activePointerRef p -> foreign_pointer ev p = false.
Proof.
  unfold foreign_pointer. intros <-.
  destruct (pointerId ev) as [q|]; [|reflexivity]. now rewrite Z.eqb_refl.
Qed.

Lemma build_cache_snoc bs s pg :
  is_draw s = true ->
  build_cache (bs ++ [s]) pg
  = if Z.eqb pg (page s) then build_cache bs pg ++ [s] else build_cache bs pg.
Proof.
  intros Hd. unfold build_cache. rewrite filter_app, map_app. simpl.
  rewrite Hd, (Z.eqb_sym (page s) pg). simpl.
  destruct (Z.eqb pg (page s)); simpl;
    [now rewrite cache_copy_id | now rewrite app_nil_r].
Qed.

(** X12.  The release of the pointer that drew a stroke appends that
    stroke once, at the end of the collection, with the samples taken,
    and ends the gesture: no stroke is under way, no pointer captured.
    The history holds the collection before the press, so that the
    toolbar undo brings it back; and when the stroke cache agreed with
    the collection before the press, it agrees with it after the
    release. *)
Theorem released_stroke_is_appended_once_and_undoable :
  forall (dom : Dom) (canvasRefs : Z -> option Rect) (eraserMode : bool)
         (strokeWidth0 : Q) (current : Z) (placing : bool) (nid : string)
         (e0 e1 : PagePointer) (moves : list PagePointer) (p0 : Pad)
         (img : PageImage) (rc : Rect),
    detectInputDevice (pointerType e0) <> Touch ->
    image_at (pp_event e0) (page_images dom) = Some img ->
    canvasRefs (dataPageIndex img) = Some rc ->
    0 <= width rc -> 0 <= height rc ->
    pointerId (pp_event e1) = pointerId (pp_event e0) ->
    let p := fold_left
               (fun q e => handlePagePointerMove canvasRefs strokeWidth0 current e q)
               moves
               (handlePagePointerDown dom true eraserMode strokeWidth0 placing
                                      nid e0 p0) in
    let up := handlePagePointerUp e1 p in
    exists s,
      activeStrokeRef p = Some s /\
      id s = nid /\ type s = Draw /\ page s = dataPageIndex img /\
      st_boxes (pad_store up) = st_boxes (pad_store p0) ++ [s] /\
      activeStrokeRef up = None /\
      active (drawingRef up) = false /\
      activePointerRef up = None /\
      historyRef (pad_store up)
      = st_boxes (pad_store p0) :: historyRef (pad_store p0) /\
      redoRef (pad_store up) = [] /\
      st_boxes (toolbarUndo (pad_store up)) = st_boxes (pad_store p0) /\
      (cache_synced p0 -> cache_synced up).
Proof.
  intros dom canvasRefs eraserMode sw0 current placing nid e0 e1 moves p0 img rc
         Hd Hi Hc Hw Hh Hptr p up.
  assert (Hs : sampling rc nid (dataPageIndex img)
                 (stroke_width sw0 (detectInputDevice (pointerType e0))
                               (pressure e0))
                 {| px := clientX (pp_event e0) - left (rect img);
                    py := clientY (pp_event e0) - top (rect img) |}
                 (drawQueueRef p0)
                 (pushHistory (render (pad_store p0)) (pad_store p0))
                 (strokeCacheRef p0) (pointerId (pp_event e0)) p).
  { unfold p.
    apply moves_keep_sampling;
      [exact Hc | exact Hw | exact Hh | apply stroke_width_ge_1
      | now apply press_starts_sampling]. }
  destruct Hs as (s & rest & Ha & Hid & Hty & Hpg & _ & _ & _ & Hpts & _ & _ & _
                  & Hst & Hch & Hdr & Hap).
  assert (Hup : up = with_drawing {| active := false; mode := None;
                                     dr_page := None |}
                       (with_pointer None
                          (with_stroke None
                             (with_store
                                (setBoxes (fun prev => prev ++ [s]) (pad_store p))
                                (fun pg => if Z.eqb pg (page s)
                                           then strokeCacheRef p pg ++ [s]
                                           else strokeCacheRef p pg)
                                p)))).
  { unfold up, handlePagePointerUp.
    rewrite same_pointer_not_foreign by (now rewrite Hap).
    rewrite Hdr. cbn [mode]. rewrite Ha, Hpts. reflexivity. }
  clearbody up p. subst up.
  exists s. cbn. rewrite Hst. cbn. rewrite json_clone_id.
  repeat split; try assumption.
  intros Hsync pg.
  cbn [strokeCacheRef pad_store with_drawing with_pointer with_stroke
       with_store st_boxes setBoxes pushHistory].
  rewrite Hch.
  rewrite build_cache_snoc by (unfold is_draw; now rewrite Hty).
  rewrite (Hsync pg). reflexivity.
Qed.

Lemma released_stroke_is_appended_once_and_undoable_witness :
  let canvas := canvas_of Sample.page0 in
  let p0 := pad_of (Sample.store_of [Sample.comment] []) in
  let p := fold_left
             (fun q e => handlePagePointerMove canvas 4 0 e q)
             [mouse_at 113 110]
             (handlePagePointerDown Sample.one_page true false 4 false "d_9"
                (mouse_at 110 110) p0) in
  let up := handlePagePointerUp (mouse_at 113 110) p in
  map id (st_boxes (pad_store up)) = ["b_1"; "d_9"] /\
  st_boxes (toolbarUndo (pad_store up)) = [Sample.comment] /\
  cache_synced up.
Proof.
  intros canvas p0 p up.
  destruct (released_stroke_is_appended_once_and_undoable
              Sample.one_page canvas false 4 0%Z false "d_9" (mouse_at 110 110)
              (mouse_at 113 110) [mouse_at 113 110] p0 Sample.page0
              (rect Sample.page0)
              ltac:(discriminate) eq_refl eq_refl
              ltac:(discriminate) ltac:(discriminate) eq_refl)
    as (s & _ & Hid & _ & _ & Hb & _ & _ & _ & _ & _ & Hu & Hsync).
  fold canvas in Hb, Hu, Hsync. fold p in Hb, Hu, Hsync. fold up in Hb, Hu, Hsync.
  split; [|split].
  - rewrite Hb, map_app. simpl. now rewrite Hid.
  - exact Hu.
  - apply Hsync. intros pg. reflexivity.
Defined.

(** ** Presses that start nothing *)

Lemma idle_move canvasRefs sw0 current e p :
  active (drawingRef p) = false ->
  handlePagePointerMove canvasRefs sw0 current e p = p.
Proof.
  intros H. unfold handlePagePointerMove.
  destruct (foreign_pointer (pp_event e) p); [reflexivity|].
  now rewrite H.
Qed.

Lemma idle_moves canvasRefs sw0 current moves p :
  active (drawingRef p) = false ->
  fold_left (fun q e => handlePagePointerMove canvasRefs sw0 current e q) moves p
  = p.
Proof.
  intros H. induction moves as [|e moves IH]; simpl; [reflexivity|].
  now rewrite idle_move.
Qed.

Lemma idle_up e p :
  mode (drawingRef p) = None ->
  pad_store (handlePagePointerUp e p) = pad_store p /\
  strokeCacheRef (handlePagePointerUp e p) = strokeCacheRef p /\
  activeStrokeRef (handlePagePointerUp e p) = activeStrokeRef p.
Proof.
  intros H. unfold handlePagePointerUp.
  destruct (foreign_pointer (pp_event e) p); [repeat split|].
  rewrite H. repeat split.
Qed.

(** X13.  With the pen or the eraser tool on and no gesture under way, a
    whole gesture (press, moves, release) draws and erases nothing when
    the press is a touch or falls outside every page image.  A touch
    leaves the store exactly as it was.  A press of a pen or a mouse
    outside the page images leaves the collection as it was but has
    already pushed a snapshot of it and emptied the redo stack. *)
Theorem presses_that_start_nothing :
  forall (dom : Dom) (canvasRefs : Z -> option Rect)
         (drawMode eraserMode : bool) (strokeWidth0 : Q) (current : Z)
         (placing : bool) (nid : string) (e0 e1 : PagePointer)
         (moves : list PagePointer) (p0 : Pad),
    drawMode || eraserMode = true ->
    active (drawingRef p0) = false -> mode (drawingRef p0) = None ->
    let p := fold_left
               (fun q e => handlePagePointerMove canvasRefs strokeWidth0 current e q)
               moves
               (handlePagePointerDown dom drawMode eraserMode strokeWidth0
                                      placing nid e0 p0) in
    let up := handlePagePointerUp e1 p in
    (detectInputDevice (pointerType e0) = Touch ->
     pad_store up = pad_store p0 /\ activeStrokeRef up = activeStrokeRef p0) /\
    (detectInputDevice (pointerType e0) <> Touch ->
     image_at (pp_event e0) (page_images dom) = None ->
     st_boxes (pad_store up) = st_boxes (pad_store p0) /\
     st_selectedIds (pad_store up) = st_selectedIds (pad_store p0) /\
     historyRef (pad_store up)
     = st_boxes (pad_store p0) :: historyRef (pad_store p0) /\
     redoRef (pad_store up) = [] /\
     activeStrokeRef up = activeStrokeRef p0).
Proof.
  intros dom canvasRefs drawMode eraserMode sw0 current placing nid e0 e1 moves
         p0 Hmode Hact Hnone p up.
  split.
  - intros Ht.
    assert (Hdown : handlePagePointerDown dom drawMode eraserMode sw0 placing
                      nid e0 p0 = with_pointer None p0).
    { unfold handlePagePointerDown. now rewrite Hmode, Ht. }
    unfold up, p. rewrite Hdown, idle_moves by exact Hact.
    destruct (idle_up e1 (with_pointer None p0) Hnone) as (H1 & _ & H3).
    split; assumption.
  - intros Hd Hmiss.
    assert (Hdown : handlePagePointerDown dom drawMode eraserMode sw0 placing
                      nid e0 p0
                    = with_store (pushHistory (render (pad_store p0)) (pad_store p0))
                                 (strokeCacheRef p0) p0).
    { unfold handlePagePointerDown. rewrite Hmode, Hmiss.
      destruct (not_touch_cases _ Hd) as [-> | ->]; reflexivity. }
    unfold up, p. rewrite Hdown, idle_moves by exact Hact.
    destruct (idle_up e1 (with_store (pushHistory (render (pad_store p0))
                                                  (pad_store p0))
                                     (strokeCacheRef p0) p0) Hnone)
      as (H1 & _ & H3).
    rewrite H1, H3. cbn. rewrite json_clone_id. repeat split.
Qed.

Lemma presses_that_start_nothing_witness :
  let canvas := canvas_of Sample.page0 in
  let st := Sample.store_of [Sample.comment] [] in
  let touch := {| pp_event := Sample.at_ 110 110; pointerType := "touch";
                  pressure := None |} in
  pad_store (handlePagePointerUp touch
               (handlePagePointerDown Sample.one_page true false 4 false "d_9"
                  touch (pad_of st))) = st /\
  historyRef (pad_store (handlePagePointerUp (mouse_at 5 5)
                           (handlePagePointerDown Sample.one_page true false 4
                              false "d_9" (mouse_at 5 5) (pad_of st))))
  = [[Sample.comment]].
Proof.
  intros canvas st touch.
  pose proof (presses_that_start_nothing Sample.one_page canvas true false 4 0%Z
                false "d_9" touch touch [] (pad_of st) eq_refl eq_refl eq_refl)
    as [Ht _].
  pose proof (presses_that_start_nothing Sample.one_page canvas true false 4 0%Z
                false "d_9" (mouse_at 5 5) (mouse_at 5 5) [] (pad_of st)
                eq_refl eq_refl eq_refl)
    as [_ Hm].
  split.
  - exact (proj1 (Ht eq_refl)).
  - destruct (Hm ltac:(discriminate) eq_refl) as (_ & _ & Hh & _). exact Hh.
Defined.

(** ** The queue of the live preview *)

Ltac queue_same := split; [reflexivity | left; split; reflexivity].

Lemma down_queue_step dom drawMode eraserMode sw0 placing nid e p :
  queue_step p (handlePagePointerDown dom drawMode eraserMode sw0 placing nid e p).
Proof.
  unfold handlePagePointerDown.
  destruct (drawMode || eraserMode).
  - destruct (detectInputDevice (pointerType e)); try queue_same;
      (destruct (image_at _ _); [|queue_same]);
      (destruct drawMode;
       [split; [reflexivity | right; split; [eexists|]; reflexivity]|]);
      destruct (eraseStrokeAt _ _ _ _ _) as [[c s] f]; queue_same.
  - destruct placing; queue_same.
Qed.

Lemma move_queue_step canvasRefs sw0 current e p :
  queue_step p (handlePagePointerMove canvasRefs sw0 current e p).
Proof.
  unfold handlePagePointerMove.
  destruct (foreign_pointer _ p); [queue_same|].
  destruct (negb (active (drawingRef p))); [queue_same|].
  destruct (mode (drawingRef p)) as [[|]|]; [| |queue_same].
  - destruct (activeStrokeRef p) as [s|]; [|queue_same].
    destruct (canvasRefs (page s)) as [rc|]; [|queue_same].
    destruct (match last_point (points s) with Some _ => _ | None => false end);
      [queue_same|].
    split; [reflexivity | right; split; [eexists|]; reflexivity].
  - destruct (canvasRefs _) as [rc|]; [|queue_same].
    destruct (eraseStrokeAt _ _ _ _ _) as [[c s] f]. queue_same.
Qed.

Lemma up_queue_step e p : queue_step p (handlePagePointerUp e p).
Proof.
  unfold handlePagePointerUp.
  destruct (foreign_pointer _ p); [queue_same|].
  destruct (mode (drawingRef p)) as [[|]|]; try queue_same.
  destruct (activeStrokeRef p) as [s|]; [|queue_same].
  destruct (points s); queue_same.
Qed.

Lemma queue_step_served p p' : queue_step p p' -> queue_served p -> queue_served p'.
Proof.
  intros (_ & [[Hq Hf] | [_ Hf]]) Hs; unfold queue_served in *.
  - rewrite Hq, Hf. exact Hs.
  - intros _. exact Hf.
Qed.

Lemma pad_step_served dom canvasRefs drawMode eraserMode sw0 current placing
    nid p ev :
  queue_served p ->
  queue_served (pad_step dom canvasRefs drawMode eraserMode sw0 current placing
                         nid p ev).
Proof.
  intros Hs. destruct ev as [e|e|e|]; simpl.
  - eapply queue_step_served; [apply down_queue_step | exact Hs].
  - eapply queue_step_served; [apply move_queue_step | exact Hs].
  - eapply queue_step_served; [apply up_queue_step | exact Hs].
  - intros H. now contradiction H.
Qed.



(** ** Ids and the stroke cache under page events *)

Lemma eraseStrokeAt_ext cache cache2 pageIdx ex0 ey0 st :
  (forall pg, cache pg = cache2 pg) ->
  snd (fst (eraseStrokeAt cache pageIdx ex0 ey0 st))
  = snd (fst (eraseStrokeAt cache2 pageIdx ex0 ey0 st)) /\
  forall pg, fst (fst (eraseStrokeAt cache pageIdx ex0 ey0 st)) pg
             = fst (fst (eraseStrokeAt cache2 pageIdx ex0 ey0 st)) pg.
Proof.
  intros H. unfold eraseStrokeAt. cbv zeta. rewrite (H pageIdx).
  destruct (cache2 pageIdx) as [|s0 ss]; [split; [reflexivity | exact H]|].
  destruct (map id (filter (intersects ex0 ey0) (s0 :: ss)));
    [split; [reflexivity | exact H]|].
  split; [reflexivity|]. intros pg. simpl.
  destruct (Z.eqb pg pageIdx); [reflexivity | apply H].
Qed.

Lemma erase_synced cache pageIdx ex0 ey0 st :
  NoDup (map id (st_boxes st)) ->
  (forall pg, cache pg = build_cache (st_boxes st) pg) ->
  let res := eraseStrokeAt cache pageIdx ex0 ey0 st in
  st_boxes (snd (fst res))
  = filter (fun b => negb (hit pageIdx ex0 ey0 b)) (st_boxes st) /\
  (forall pg, fst (fst res) pg = build_cache (st_boxes (snd (fst res))) pg).
Proof.
  intros Hnd Hsync res.
  destruct (eraseStrokeAt_ext cache (build_cache (st_boxes st)) pageIdx ex0 ey0 st
              Hsync) as [Hst Hc].
  fold res in Hst, Hc.
  pose proof (erase_at_boxes st pageIdx ex0 ey0 Hnd) as Hb.
  unfold erase_at in Hb. rewrite <- Hst in Hb.
  split; [exact Hb|]. intros pg. rewrite Hc, Hb, build_cache_after_erase.
  unfold eraseStrokeAt. cbv zeta.
  destruct (build_cache (st_boxes st) pageIdx) as [|s0 ss] eqn:E.
  - simpl. destruct (Z.eqb pg pageIdx) eqn:Ep; [|reflexivity].
    apply Z.eqb_eq in Ep. subst pg. exact E.
  - rewrite <- E.
    destruct (map id (filter (intersects ex0 ey0)
                        (build_cache (st_boxes st) pageIdx))) eqn:Er.
    + simpl. destruct (Z.eqb pg pageIdx) eqn:Ep; [|reflexivity].
      apply Z.eqb_eq in Ep. subst pg. apply map_eq_nil in Er.
      symmetry. apply filter_all_false. intros a Ha.
      now apply (filter_nil_all_false _ _ Er).
    + reflexivity.
Qed.

Lemma filter_ids_in (f : Box -> bool) l k :
  In k (map id (filter f l)) -> In k (map id l).
Proof.
  rewrite !in_map_iff. intros (b & E & Hb). apply filter_In in Hb as [Hb _].
  eauto.
Qed.

Lemma filter_ids_NoDup (f : Box -> bool) l :
  NoDup (map id l) -> NoDup (map id (filter f l)).
Proof.
  induction l as [|a l IH]; simpl; [auto|].
  intros H. inversion H as [|? ? Hn Hd]; subst.
  destruct (f a); simpl; [|auto].
  constructor; [|auto]. intros Hin. apply Hn. eapply filter_ids_in; eauto.
Qed.

Lemma pad_ids_ok_weaken fresh ids0 n p :
  pad_ids_ok fresh ids0 n p -> pad_ids_ok fresh ids0 (S n) p.
Proof.
  intros (Hnd & Hs & Hc & Ha). split; [exact Hnd|]. split; [exact Hs|]. split.
  - intros k Hk. destruct (Hc k Hk) as [H | (i & Hi & E)]; [now left|].
    right. exists i. split; [lia | exact E].
  - destruct (activeStrokeRef p) as [s|]; [|exact I].
    destruct Ha as (Hd & (i & Hi & E) & Hn). split; [exact Hd|].
    split; [|exact Hn]. exists i. split; [lia | exact E].
Qed.

(** An erase step inside a handler. *)
Lemma erase_ids_ok fresh ids0 n p pageIdx ex0 ey0 c s f :
  pad_ids_ok fresh ids0 n p ->
  eraseStrokeAt (strokeCacheRef p) pageIdx ex0 ey0 (pad_store p) = (c, s, f) ->
  forall p', pad_store p' = s -> strokeCacheRef p' = c ->
             activeStrokeRef p' = activeStrokeRef p ->
             pad_ids_ok fresh ids0 n p'.
Proof.
  intros (Hnd & Hs & Hc & Ha) E p' Hst Hch Hact.
  destruct (erase_synced (strokeCacheRef p) pageIdx ex0 ey0 (pad_store p) Hnd Hs)
    as [Hb Hsync].
  rewrite E in Hb, Hsync. simpl in Hb, Hsync.
  unfold pad_ids_ok, cache_synced. rewrite Hst, Hch, Hact, Hb.
  split; [now apply filter_ids_NoDup|].
  split; [intros pg; rewrite <- Hb; apply Hsync|].
  split.
  - intros k Hk. apply Hc. eapply filter_ids_in; eauto.
  - destruct (activeStrokeRef p) as [a|]; [|exact I].
    destruct Ha as (Hd & Hi & Hn). split; [exact Hd|]. split; [exact Hi|].
    intros Hin. apply Hn. eapply filter_ids_in; eauto.
Qed.

Lemma down_ids_ok dom drawMode eraserMode sw0 placing fresh ids0 n e p :
  drawMode || eraserMode = true ->
  (forall i j, fresh i = fresh j -> i = j) ->
  (forall i, ~ In (fresh i) ids0) ->
  pad_ids_ok fresh ids0 n p ->
  pad_ids_ok fresh ids0 (S n)
    (handlePagePointerDown dom drawMode eraserMode sw0 placing (fresh n) e p).
Proof.
  intros Hmode Hinj Hnew Hok. unfold handlePagePointerDown. rewrite Hmode.
  assert (Hsame : forall p', st_boxes (pad_store p') = st_boxes (pad_store p) ->
                             strokeCacheRef p' = strokeCacheRef p ->
                             activeStrokeRef p' = activeStrokeRef p ->
                             pad_ids_ok fresh ids0 (S n) p').
  { intros p' Hb Hc Ha. apply pad_ids_ok_weaken in Hok.
    unfold pad_ids_ok, cache_synced in *. now rewrite Hb, Hc, Ha. }
  assert (Hgo :
    pad_ids_ok fresh ids0 (S n)
      match image_at (pp_event e) (page_images dom) with
      | Some imgEl =>
          let r := rect imgEl in
          let tpi := dataPageIndex imgEl in
          let p2 := with_pointer (pointerId (pp_event e))
                      (with_store (pushHistory (render (pad_store p)) (pad_store p))
                                  (strokeCacheRef p) p) in
          let x0 := clientX (pp_event e) - left r in
          let y0 := clientY (pp_event e) - top r in
          if drawMode then
            let sw := stroke_width sw0 (detectInputDevice (pointerType e))
                                   (pressure e) in
            let stroke :=
              {| id := fresh n; type := Draw; page := tpi; x := 0; y := 0;
                 w := 0; h := 0; ex := 0; ey := 0;
                 fontSize := None; fontWeight := ""; text := "";
                 isEditing := false; fixedHeight := false;
                 points := [ {| px := x0; py := y0 |} ];
                 strokeWidth := sw; offsetX := 0; offsetY := 0;
                 group := None; score := 0%Z; src := "" |} in
            queueDrawSegment tpi None {| px := x0; py := y0 |} sw
              (with_drawing {| active := true; mode := Some ModeDraw;
                               dr_page := Some tpi |}
                 (with_stroke (Some stroke) p2))
          else
            let '(cache', st', _) :=
              eraseStrokeAt (strokeCacheRef p2) tpi x0 y0 (pad_store p2) in
            with_drawing {| active := true; mode := Some ModeErase;
                            dr_page := Some tpi |}
              (with_store st' cache' p2)
      | None => with_store (pushHistory (render (pad_store p)) (pad_store p))
                           (strokeCacheRef p) p
      end).
  { destruct (image_at (pp_event e) (page_images dom)) as [img|];
      [|now apply Hsame].
    cbv zeta. destruct drawMode.
    - pose proof Hok as (_ & _ & Hc0 & _).
      apply pad_ids_ok_weaken in Hok. destruct Hok as (Hnd & Hs & Hc & _).
      split; [exact Hnd|]. split; [exact Hs|]. split; [exact Hc|].
      cbn. split; [reflexivity|]. split; [exists n; split; [lia | reflexivity]|].
      intros Hin. destruct (Hc0 _ Hin) as [H | (i & Hi & E)].
      + now apply (Hnew n).
      + apply Hinj in E. lia.
    - destruct (eraseStrokeAt _ _ _ _ _) as [[c s] f] eqn:E.
      apply pad_ids_ok_weaken.
      assert (Hok1 : pad_ids_ok fresh ids0 n
                       (with_pointer (pointerId (pp_event e))
                          (with_store (pushHistory (render (pad_store p))
                                                   (pad_store p))
                                      (strokeCacheRef p) p))).
      { unfold pad_ids_ok, cache_synced in *. exact Hok. }
      eapply (erase_ids_ok _ _ _ _ _ _ _ _ _ _ Hok1 E); reflexivity. }
  destruct (detectInputDevice (pointerType e));
    [exact Hgo | now apply Hsame | exact Hgo].
Qed.

Lemma move_ids_ok canvasRefs sw0 current fresh ids0 n e p :
  pad_ids_ok fresh ids0 n p ->
  pad_ids_ok fresh ids0 n (handlePagePointerMove canvasRefs sw0 current e p).
Proof.
  intros Hok. unfold handlePagePointerMove.
  destruct (foreign_pointer _ p); [exact Hok|].
  destruct (negb (active (drawingRef p))); [exact Hok|].
  destruct (mode (drawingRef p)) as [[|]|]; [| |exact Hok].
  - destruct (activeStrokeRef p) as [s|] eqn:Ha; [|exact Hok].
    destruct (canvasRefs (page s)) as [rc|]; [|exact Hok].
    destruct (match last_point (points s) with Some _ => _ | None => false end);
      [exact Hok|].
    destruct Hok as (Hnd & Hs & Hc & Hact). rewrite Ha in Hact.
    split; [exact Hnd|]. split; [exact Hs|]. split; [exact Hc|]. exact Hact.
  - destruct (canvasRefs _) as [rc|]; [|exact Hok].
    destruct (eraseStrokeAt _ _ _ _ _) as [[c s] f] eqn:E.
    eapply (erase_ids_ok _ _ _ _ _ _ _ _ _ _ Hok E); reflexivity.
Qed.

Lemma up_ids_ok fresh ids0 n e p :
  pad_ids_ok fresh ids0 n p -> pad_ids_ok fresh ids0 n (handlePagePointerUp e p).
Proof.
  intros Hok. unfold handlePagePointerUp.
  destruct (foreign_pointer _ p); [exact Hok|].
  assert (Hdrop : forall q, pad_ids_ok fresh ids0 n q ->
            pad_ids_ok fresh ids0 n
              (with_drawing {| active := false; mode := None; dr_page := None |}
                 (with_pointer None q))).
  { intros q Hq. exact Hq. }
  apply Hdrop.
  destruct (mode (drawingRef p)) as [[|]|]; [|exact Hok|exact Hok].
  destruct Hok as (Hnd & Hs & Hc & Hact).
  destruct (activeStrokeRef p) as [s|] eqn:Ha.
  2:{ split; [exact Hnd|]. split; [exact Hs|]. split; [exact Hc | exact I]. }
  destruct Hact as (Hd & Hi & Hn).
  destruct (points s) eqn:Hp.
  { split; [exact Hnd|]. split; [exact Hs|]. split; [exact Hc | exact I]. }
  unfold pad_ids_ok, cache_synced.
  cbn [pad_store strokeCacheRef activeStrokeRef with_stroke with_store
       st_boxes setBoxes].
  split.
  { rewrite map_app. simpl.
    apply NoDup_app;
      [exact Hnd | repeat constructor; auto
      | intros k Hk [<- | []]; contradiction]. }
  split.
  { intros pg. rewrite build_cache_snoc by exact Hd. rewrite (Hs pg). reflexivity. }
  split; [|exact I].
  intros k Hk. rewrite map_app in Hk. apply in_app_or in Hk as [Hk | [<- | []]].
  - now apply Hc.
  - right. exact Hi.
Qed.

Lemma pad_run_ids_ok dom canvasRefs drawMode eraserMode sw0 current placing
    fresh ids0 evs n p :
  drawMode || eraserMode = true ->
  (forall i j, fresh i = fresh j -> i = j) ->
  (forall i, ~ In (fresh i) ids0) ->
  pad_ids_ok fresh ids0 n p ->
  exists m, pad_ids_ok fresh ids0 m
              (pad_run dom canvasRefs drawMode eraserMode sw0 current placing
                       fresh n p evs).
Proof.
  intros Hmode Hinj Hnew. revert n p.
  induction evs as [|ev evs IH]; intros n p Hok; simpl; [eauto|].
  apply IH. destruct ev as [e|e|e|]; simpl.
  - now apply down_ids_ok.
  - now apply pad_ids_ok_weaken, move_ids_ok.
  - now apply pad_ids_ok_weaken, up_ids_ok.
  - apply pad_ids_ok_weaken. exact Hok.
Qed.

(** X15.  While the pen or the eraser tool is on, under any sequence of
    presses, moves, releases and frames on the page, starting from a
    mounted editor whose ids are unique, the ids of the collection stay
    unique and the stroke cache stays the cache of the collection,
    provided the ids generated for new strokes are distinct from each
    other and from the ids of the start. *)
Theorem page_events_keep_ids_unique_and_cache_in_step :
  forall (dom : Dom) (canvasRefs : Z -> option Rect)
         (drawMode eraserMode : bool) (strokeWidth0 : Q) (current : Z)
         (placing : bool) (fresh : nat -> string) (st : Editor)
         (evs : list PadEvent),
    drawMode || eraserMode = true ->
    NoDup (map id (st_boxes st)) ->
    (forall i j, fresh i = fresh j -> i = j) ->
    (forall i, ~ In (fresh i) (map id (st_boxes st))) ->
    let p := pad_run dom canvasRefs drawMode eraserMode strokeWidth0 current
                     placing fresh O (pad_of st) evs in
    NoDup (map id (st_boxes (pad_store p))) /\ cache_synced p.
Proof.
  intros dom canvasRefs drawMode eraserMode sw0 current placing fresh st evs
         Hmode Hnd Hinj Hnew p.
  assert (H0 : pad_ids_ok fresh (map id (st_boxes st)) O (pad_of st)).
  { split; [exact Hnd|]. split; [intros pg; reflexivity|].
    split; [intros k Hk; now left | exact I]. }
  destruct (pad_run_ids_ok dom canvasRefs drawMode eraserMode sw0 current placing
              fresh _ evs O (pad_of st) Hmode Hinj Hnew H0)
    as (m & Hnd' & Hs & _).
  split; assumption.
Qed.

Lemma stroke_id_inj i j : stroke_id i = stroke_id j -> i = j.
Proof.
  unfold stroke_id. intros [= H]. revert j H.
  induction i as [|i IH]; intros [|j]; simpl; try discriminate; [reflexivity|].
  intros [= H]. f_equal. now apply IH.
Qed.

Lemma page_events_keep_ids_unique_and_cache_in_step_witness :
  let p := pad_run Sample.one_page (canvas_of Sample.page0) true false 4 0 false
                   stroke_id O (pad_of (Sample.store_of [Sample.comment] []))
                   [PageDown (mouse_at 110 110); PageMove (mouse_at 113 110);
                    PageUp (mouse_at 113 110); PageDown (mouse_at 200 200);
                    PageUp (mouse_at 200 200)] in
  map id (st_boxes (pad_store p)) = ["b_1"; "d"; "diii"] /\
  NoDup (map id (st_boxes (pad_store p))) /\ cache_synced p.
Proof.
  intros p. split; [reflexivity|].
  apply (page_events_keep_ids_unique_and_cache_in_step
           Sample.one_page (canvas_of Sample.page0) true false 4 0%Z false
           stroke_id (Sample.store_of [Sample.comment] [])).
  - reflexivity.
  - simpl. repeat constructor; simpl; intuition discriminate.
  - exact stroke_id_inj.
  - intros i [H | []]. discriminate H.
Defined.

(** ** Placing by a click on the page *)

Lemma update_by_id_fresh k f l b :
  ~ In k (map id l) ->
  update_by_id k f (l ++ [b]) = l ++ [if String.eqb (id b) k then f b else b].
Proof.
  intros H. unfold update_by_id. rewrite map_app. simpl.
  now rewrite not_in_ids_map.
Qed.

Lemma click_adds_more r st st1 st2 added more k :
  click_adds r st st1 added k ->
  st_boxes st2 = st_boxes st1 ++ more ->
  historyRef st2 = boxes r :: historyRef st1 ->
  redoRef st2 = [] -> clipboard st2 = clipboard st1 ->
  click_adds r st st2 (added ++ more) (S k).
Proof.
  intros (Hb & Hh & Hr & Hc) Hb2 Hh2 Hr2 Hc2. unfold click_adds.
  rewrite Hb2, Hb, Hh2, Hh, Hc2, Hc, app_assoc. auto.
Qed.

Lemma click_adds_same r st st1 st2 added more k :
  click_adds r st st1 added k ->
  st_boxes st2 = st_boxes st1 ++ more ->
  historyRef st2 = historyRef st1 ->
  redoRef st2 = redoRef st1 -> clipboard st2 = clipboard st1 ->
  click_adds r st st2 (added ++ more) k.
Proof.
  intros (Hb & Hh & Hr & Hc) Hb2 Hh2 Hr2 Hc2. unfold click_adds.
  rewrite Hb2, Hb, Hh2, Hh, Hr2, Hc2, Hc, app_assoc. auto.
Qed.

Lemma click_pushes r st : click_adds r st (pushHistory r st) [] O.
Proof.
  unfold click_adds. simpl. now rewrite app_nil_r, json_clone_id.
Qed.

Lemma click_adds_selected r st st' added k ids :
  click_adds r st st' added k ->
  click_adds r st (setSelectedIds ids st') added k.
Proof. intros H. exact H. Qed.

(** The object [addBox] appends. *)
Lemma addBox_adds dom current san r nid txt opts st0 st added k :
  click_adds r st0 st added k ->
  exists b,
    click_adds r st0 (addBox dom current san r nid txt opts st) (added ++ [b])
               (S k) /\
    id b = nid /\ type b = NoType /\
    page b = or_default (o_page opts) current /\
    x b = or_default (o_x opts) (fst (viewportPos dom 40 40)) /\
    y b = or_default (o_y opts) (snd (viewportPos dom 40 40)) /\
    w b = or_default (o_w opts) 240 /\ h b = or_default (o_h opts) 100 /\
    st_selectedIds (addBox dom current san r nid txt opts st)
    = if select opts then [nid] else st_selectedIds st.
Proof.
  intros H. eexists. split.
  - eapply click_adds_more; [exact H| | | |]; unfold addBox;
      destruct (select opts); simpl; try reflexivity;
      now rewrite json_clone_id.
  - unfold addBox. destruct (select opts); simpl; repeat split.
Qed.

Lemma addScoreMarker_adds dom current r nid pts opts st0 st added k :
  click_adds r st0 st added k ->
  exists b,
    click_adds r st0 (addScoreMarker dom current r nid pts opts st)
               (added ++ [b]) (S k) /\
    id b = nid /\ type b = Score /\
    page b = or_default (o_page opts) current /\
    x b = or_default (o_x opts) (fst (viewportPos dom 60 60)) /\
    y b = or_default (o_y opts) (snd (viewportPos dom 60 60)) /\
    w b = 60 /\ h b = 30 /\
    st_selectedIds (addScoreMarker dom current r nid pts opts st)
    = if select opts then [nid] else st_selectedIds st.
Proof.
  intros H. eexists. split.
  - eapply click_adds_more; [exact H| | | |]; unfold addScoreMarker;
      destruct (select opts); simpl; try reflexivity;
      now rewrite json_clone_id.
  - unfold addScoreMarker. destruct (select opts); simpl; repeat split.
Qed.

(** [put_at] on the object just appended, whose id is new. *)
Lemma put_at_last r st0 st added b k tpi x0 y0 :
  click_adds r st0 st (added ++ [b]) k ->
  ~ In (id b) (map id (st_boxes st0 ++ added)) ->
  click_adds r st0 (put_at tpi x0 y0 (id b) st)
             (added ++ [set_y y0 (set_x x0 (set_page tpi b))]) k /\
  st_selectedIds (put_at tpi x0 y0 (id b) st) = st_selectedIds st.
Proof.
  intros (Hb & Hh & Hr & Hc) Hn. split; [|reflexivity].
  unfold click_adds, put_at. simpl. rewrite Hb, app_assoc.
  rewrite update_by_id_fresh by exact Hn.
  rewrite String.eqb_refl, <- app_assoc. auto.
Qed.

Lemma stacked_app top l l' :
  stacked top (l ++ l') <-> stacked top l /\ stacked (bottom_of top l) l'.
Proof.
  revert top. induction l as [|b l IH]; intros top; simpl.
  - unfold bottom_of. simpl. tauto.
  - rewrite IH. unfold bottom_of. simpl. tauto.
Qed.

Lemma bottom_of_snoc top l b : bottom_of top (l ++ [b]) = y b + h b.
Proof. unfold bottom_of. now rewrite fold_left_app. Qed.

Lemma markerH_value : markerH = 29.
Proof. reflexivity. Qed.

Lemma bulk_one_state dom current san strip blank r fresh tpi x0 st0 top bk c
    added k :
  bulk_state r tpi st0 top bk added k ->
  exists more k',
    bulk_state r tpi st0 top
      (bulk_one dom current san strip blank r fresh tpi x0 bk c)
      (added ++ more) k'.
Proof.
  intros (Hadd & Hpg & Hpl & Hst & Hbot & Hsel). unfold bulk_one. cbv zeta.
  set (txt := strip (san (c_text c))).
  pose proof markerH_value as HmH.
  set (bk1 := if blank txt then bk else _).
  assert (Hbk1 : exists more1 k1,
             let added1 := added ++ more1 in
             click_adds r st0 (bk_store bk1) added1 k1 /\
             Forall (fun b => page b = tpi) added1 /\
             bk_placed bk1 = map id added1 /\
             stacked top added1 /\
             bottom_of top added1 <= bk_curY bk + 64 /\
             st_selectedIds (bk_store bk1) = st_selectedIds st0).
  { unfold bk1. destruct (blank txt).
    - exists [], k. cbv zeta. rewrite app_nil_r.
      split; [exact Hadd|]. split; [exact Hpg|]. split; [exact Hpl|].
      split; [exact Hst|]. split; [lra | exact Hsel].
    - destruct (addBox_adds dom current san r (fresh (bk_count bk)) txt
                  (opts_at tpi x0 (bk_curY bk) (Some 360) (Some 64) None true false)
                  st0 (bk_store bk) added k Hadd)
        as (b & Hadd' & Hid & _ & Hpage & _ & Hy & _ & Hh & Hs).
      simpl in Hpage, Hy, Hh. cbn [select opts_at] in Hs.
      exists [b], (S k). cbv zeta.
      split; [exact Hadd'|]. split.
      { apply Forall_app. split; [exact Hpg | now constructor]. }
      split; [cbn [bk_placed]; rewrite map_app, Hpl; simpl; now rewrite Hid|].
      split.
      { apply stacked_app. split; [exact Hst|]. simpl. rewrite Hy. auto. }
      split; [rewrite bottom_of_snoc, Hy, Hh; lra|].
      cbn [bk_store]. now rewrite Hs. }
  destruct Hbk1 as (more1 & k1 & Hbk1). cbv zeta in Hbk1.
  set (added1 := added ++ more1) in *.
  destruct Hbk1 as (Hadd1 & Hpg1 & Hpl1 & Hst1 & Hbot1 & Hsel1).
  clearbody bk1.
  destruct (String.eqb (c_type c) "score").
  - destruct (addScoreMarker_adds dom current r (fresh (bk_count bk1))
                (or_default (c_points c) 1%Z)
                (opts_at tpi (x0 + 4) (bk_curY bk + 64 + 2) None None None false
                         false)
                st0 (bk_store bk1) added1 k1 Hadd1)
      as (m & Hadd' & Hid & _ & Hpage & _ & Hy & _ & Hh & Hs).
    simpl in Hpage, Hy, Hh. cbn [select opts_at] in Hs.
    exists (more1 ++ [m]), (S k1). rewrite app_assoc. fold added1.
    split; [exact Hadd'|]. split.
    { apply Forall_app. split; [exact Hpg1 | now constructor]. }
    split; [cbn [bk_placed]; rewrite map_app, Hpl1; simpl; now rewrite Hid|].
    split.
    { apply stacked_app. split; [exact Hst1|]. simpl. rewrite Hy.
      split; [lra | exact I]. }
    split; [rewrite bottom_of_snoc, Hy, Hh; simpl; rewrite HmH; lra|].
    cbn [bk_store]. now rewrite Hs.
  - exists more1, k1. fold added1.
    split; [exact Hadd1|]. split; [exact Hpg1|]. split; [exact Hpl1|].
    split; [exact Hst1|]. split; [simpl; lra | exact Hsel1].
Qed.

Lemma bulk_all_state dom current san strip blank r fresh tpi x0 st0 top comments :
  forall bk added k,
    bulk_state r tpi st0 top bk added k ->
    exists more k',
      bulk_state r tpi st0 top
        (fold_left (bulk_one dom current san strip blank r fresh tpi x0)
                   comments bk) (added ++ more) k'.
Proof.
  induction comments as [|c comments IH]; intros bk added k H; simpl.
  - exists [], k. now rewrite app_nil_r.
  - destruct (bulk_one_state dom current san strip blank r fresh tpi x0 st0 top
                bk c added k H) as (m1 & k1 & H1).
    destruct (IH _ _ _ H1) as (m2 & k2 & H2).
    exists (m1 ++ m2), k2. now rewrite app_assoc.
Qed.

Lemma click_adds_undo r st st' added k :
  click_adds r st st' added k -> st_boxes (toolbarUndo st') = boxes r.
Proof.
  intros (_ & Hh & _). unfold toolbarUndo, undo. rewrite Hh. reflexivity.
Qed.

Lemma bulk_start dom current san r fresh tpi x0 y0 lbl st :
  exists b,
    bulk_state r tpi st y0
      {| bk_store := addBox dom current san r (fresh O) lbl
                       (opts_at tpi x0 y0 (Some 360) (Some 28) (Some 16) true
                                false)
                       (pushHistory r st);
         bk_count := 1%nat;
         bk_curY := y0 + (28 + 6);
         bk_placed := [fresh O] |}
      [b] 1 /\
    id b = fresh O /\ type b = NoType /\ text b = san lbl /\
    x b = x0 /\ y b = y0 /\ w b = 360 /\ h b = 28 /\ fixedHeight b = true.
Proof.
  destruct (addBox_adds dom current san r (fresh O) lbl
              (opts_at tpi x0 y0 (Some 360) (Some 28) (Some 16) true false)
              st (pushHistory r st) [] O (click_pushes r st))
    as (b & Hadd & Hid & Hty & Hpage & Hx & Hy & Hw & Hh & Hs).
  simpl in Hadd, Hpage, Hx, Hy, Hw, Hh. cbn [select opts_at] in Hs.
  exists b. split.
  - split; [exact Hadd|]. split; [now constructor|].
    split; [simpl; now rewrite Hid|].
    split; [simpl; rewrite Hy; split; [lra | exact I]|].
    split; [unfold bottom_of; simpl; rewrite Hy, Hh; lra|].
    cbn [bk_store]. now rewrite Hs.
  - repeat split; try assumption.
    + destruct Hadd as (Hb & _). simpl in Hb.
      apply app_inv_head in Hb. injection Hb as <-. reflexivity.
    + destruct Hadd as (Hb & _). simpl in Hb.
      apply app_inv_head in Hb. injection Hb as <-. reflexivity.
Qed.





(** ** A line with its cross moves as one *)

Lemma find_box_app_notin k l l' :
  ~ In k (map id l) -> find_box k (l ++ l') = find_box k l'.
Proof.
  unfold find_box. induction l as [|b l IH]; simpl; [reflexivity|].
  intros H. destruct (String.eqb (id b) k) eqn:E.
  - apply String.eqb_eq in E. exfalso. apply H. now left.
  - apply IH. intros Hin. apply H. now right.
Qed.

Lemma grouped_none gid l :
  (forall b, In b l -> group b <> Some gid) -> grouped gid l = [].
Proof.
  unfold grouped. induction l as [|b l IH]; simpl; [reflexivity|].
  intros H. destruct (group b) as [g'|] eqn:E.
  - destruct (String.eqb g' gid) eqn:E'.
    + apply String.eqb_eq in E'. subst g'. exfalso.
      apply (H b); [now left | exact E].
    + apply IH. intros c Hc. apply H. now right.
  - apply IH. intros c Hc. apply H. now right.
Qed.

Lemma grouped_app gid l l' :
  grouped gid (l ++ l') = grouped gid l ++ grouped gid l'.
Proof. unfold grouped. now rewrite filter_app, map_app. Qed.

Lemma make_starts_app_notin l l' sel :
  (forall b, In b l -> includes (id b) sel = false) ->
  make_starts (l ++ l') sel = make_starts l' sel.
Proof.
  unfold make_starts. rewrite fold_left_app. intros H. f_equal.
  induction l as [|b l IH] using rev_ind; [reflexivity|].
  rewrite fold_left_app. simpl.
  rewrite (H b) by (apply in_or_app; right; now left).
  apply IH. intros c Hc. apply H. apply in_or_app. now left.
Qed.

Lemma findIndex_app_notin k l l' :
  ~ In k (map id l) ->
  findIndex k (l ++ l') = option_map (fun i => (List.length l + i)%nat)
                                     (findIndex k l').
Proof.
  induction l as [|b l IH]; simpl.
  - intros _. destruct (findIndex k l'); reflexivity.
  - intros H. destruct (String.eqb (id b) k) eqn:E.
    + apply String.eqb_eq in E. exfalso. apply H. now left.
    + rewrite IH by (intros Hin; apply H; now right).
      destruct (findIndex k l'); reflexivity.
Qed.

Lemma assign_app i v l l' :
  assign (List.length l + i) v (l ++ l') = l ++ assign i v l'.
Proof.
  induction l as [|b l IH]; simpl; [reflexivity | now rewrite IH].
Qed.

Lemma not_in_includes l (ids : list string) :
  (forall k, In k ids -> ~ In k (map id l)) ->
  forall b, In b l -> includes (id b) ids = false.
Proof.
  intros H b Hb. destruct (includes (id b) ids) eqn:E; [|reflexivity].
  apply includes_In in E. exfalso. apply (H _ E). now apply in_map.
Qed.

(** Pointer down, without modifier keys, on an object of a group of at
    least two: the whole group is selected and moves. *)
Lemma pointer_down_on_group r dom e k st t gid :
  find_box k (boxes r) = Some t -> is_draw t = false ->
  group t = Some gid -> gid <> "" ->
  (2 <= List.length (grouped gid (boxes r)))%nat ->
  shiftKey e = false -> metaKey e = false -> ctrlKey e = false ->
  mounted dom = true ->
  onPointerDownBox r dom false e k st
  = (setSelectedIds (grouped gid (boxes r)) (pushHistory r st),
     Some {| mv_sel := grouped gid (boxes r);
             mv_starts := make_starts (boxes r) (grouped gid (boxes r));
             mv_startX := clientX e; mv_startY := clientY e;
             mv_pointerId := pointerId e |}).
Proof.
  intros Hf Hd Hg Hgid Hlen Hs Hm Hc Hmt. unfold onPointerDownBox.
  apply String.eqb_neq in Hgid. apply Nat.leb_le in Hlen.
  rewrite Hf, Hd, Hg, Hs, Hm, Hc, Hmt. cbv zeta. cbn [orb negb].
  rewrite Hgid, Hlen. reflexivity.
Qed.

Lemma round_25_2 : Js.round (25 / 2) = 13.
Proof. reflexivity. Qed.

(** X18.  The line and the cross that [addLineXSet] places form a group:
    the cross sits 182 to the right of and 30 above the origin of the
    line; a pointer-down without modifier keys on either of them selects
    both, and a move event of that gesture moves both by the same delta
    (each not below 0), leaving every other object where it is.  The ids
    generated are new and differ, the group id is not empty and no
    object has it yet, and the page container is mounted. *)
Theorem line_with_cross_moves_as_one :
  forall (dom : Dom) (current : Z) (gid lineId xId k : string)
         (e ev : PointerEvent) (st : Editor),
    mounted dom = true ->
    shiftKey e = false -> metaKey e = false -> ctrlKey e = false ->
    gid <> "" -> lineId <> xId ->
    ~ In lineId (map id (st_boxes st)) -> ~ In xId (map id (st_boxes st)) ->
    (forall b, In b (st_boxes st) -> group b <> Some gid) ->
    k = lineId \/ k = xId ->
    other_pointer (pointerId e) ev = false ->
    let st1 := addLineXSet dom current (render st) gid lineId xId st in
    let down := onPointerDownBox (render st1) dom false e k st1 in
    let dx := clientX ev - clientX e in
    let dy := clientY ev - clientY e in
    exists line glyph g,
      st_boxes st1 = st_boxes st ++ [line; glyph] /\
      id line = lineId /\ type line = Line /\
      id glyph = xId /\ text glyph = cross /\
      x glyph == x line + 182 /\ y glyph == y line - 30 /\
      snd down = Some g /\
      st_selectedIds (fst down) = [lineId; xId] /\
      st_boxes (move_move g ev (fst down))
      = st_boxes st ++ [moved_by dx dy line; moved_by dx dy glyph].
Proof.
  intros dom current gid lineId xId k e ev st Hmt Hs Hm Hc Hgid Hne Hnl Hnx
         Hng Hk Hptr st1 down dx dy.
  set (l := st_boxes st) in *.
  set (x0 := fst (viewportPos dom 80 160)).
  set (y0 := snd (viewportPos dom 80 160)).
  set (line := set_group (Some gid) (plain_box lineId Line current x0 y0 200 3)).
  set (glyph := glyph_box xId Text current (x0 + 200 - 18)
                  (y0 - Js.round (25 / 2) - 17) 40 40 25 cross (Some gid)).
  assert (Hb1 : st_boxes st1 = l ++ [line; glyph]) by reflexivity.
  assert (Hgrp : grouped gid (l ++ [line; glyph]) = [lineId; xId]).
  { rewrite grouped_app, grouped_none by exact Hng.
    unfold grouped. simpl. now rewrite String.eqb_refl. }
  assert (Hxl : String.eqb xId lineId = false)
    by (apply String.eqb_neq; congruence).
  assert (Hlx : String.eqb lineId xId = false) by (now apply String.eqb_neq).
  assert (Hfind : exists t, find_box k (l ++ [line; glyph]) = Some t /\
                            is_draw t = false /\ group t = Some gid).
  { destruct Hk as [-> | ->]; rewrite find_box_app_notin by assumption;
      unfold find_box; simpl.
    - rewrite String.eqb_refl. exists line. repeat split.
    - rewrite Hlx, String.eqb_refl. exists glyph. repeat split. }
  destruct Hfind as (t & Hf & Hd & Hg).
  assert (Hdown : down
                  = (setSelectedIds [lineId; xId]
                       (pushHistory (render st1) st1),
                     Some {| mv_sel := [lineId; xId];
                             mv_starts := make_starts (l ++ [line; glyph])
                                                      [lineId; xId];
                             mv_startX := clientX e; mv_startY := clientY e;
                             mv_pointerId := pointerId e |})).
  { unfold down.
    rewrite (pointer_down_on_group (render st1) dom e k st1 t gid);
      try assumption.
    - cbn [boxes render]. rewrite Hb1, Hgrp. reflexivity.
    - cbn [boxes render]. rewrite Hb1, Hgrp. simpl. lia. }
  assert (Hstarts : make_starts (l ++ [line; glyph]) [lineId; xId]
                    = [(xId, start_of glyph); (lineId, start_of line)]).
  { rewrite make_starts_app_notin.
    - unfold make_starts. simpl.
      now rewrite String.eqb_refl, Hxl, String.eqb_refl.
    - apply not_in_includes. intros k' [<- | [<- | []]]; assumption. }
  exists line, glyph,
    {| mv_sel := [lineId; xId];
       mv_starts := make_starts (l ++ [line; glyph]) [lineId; xId];
       mv_startX := clientX e; mv_startY := clientY e;
       mv_pointerId := pointerId e |}.
  split; [exact Hb1|]. split; [reflexivity|]. split; [reflexivity|].
  split; [reflexivity|]. split; [reflexivity|].
  split; [simpl; ring|]. split; [simpl; rewrite round_25_2; ring|].
  rewrite Hdown. split; [reflexivity|]. split; [reflexivity|].
  unfold move_move. cbn [mv_pointerId fst]. rewrite Hptr.
  cbn [st_boxes setBoxes setSelectedIds pushHistory].
  fold l. change (st_boxes st1) with (l ++ [line; glyph]).
  unfold move_update. cbn [mv_starts mv_sel mv_startX mv_startY].
  fold dx dy. rewrite Hstarts.
  assert (Hloop : move_loop [(xId, start_of glyph); (lineId, start_of line)]
                            dx dy [lineId; xId] (l ++ [line; glyph])
                  = Some (l ++ [moved_by dx dy line; moved_by dx dy glyph])).
  { assert (H1 : move_one [(xId, start_of glyph); (lineId, start_of line)]
                          dx dy (l ++ [line; glyph]) lineId
                 = Some (l ++ [moved_by dx dy line; glyph])).
    { unfold move_one.
      rewrite findIndex_app_notin by exact Hnl. simpl findIndex.
      rewrite String.eqb_refl. cbn [option_map].
      rewrite nth_error_app2 by lia.
      replace (List.length l + 0 - List.length l)%nat with O by lia.
      cbn [nth_error]. cbn [type line set_group plain_box lookup_start].
      rewrite Hxl, String.eqb_refl. rewrite assign_app. reflexivity. }
    assert (H2 : move_one [(xId, start_of glyph); (lineId, start_of line)]
                          dx dy (l ++ [moved_by dx dy line; glyph]) xId
                 = Some (l ++ [moved_by dx dy line; moved_by dx dy glyph])).
    { unfold move_one.
      rewrite findIndex_app_notin by exact Hnx. simpl findIndex.
      rewrite Hlx, String.eqb_refl. cbn [option_map].
      rewrite nth_error_app2 by lia.
      replace (List.length l + 1 - List.length l)%nat with 1%nat by lia.
      cbn [nth_error]. cbn [type glyph glyph_box lookup_start].
      rewrite String.eqb_refl. rewrite assign_app. reflexivity. }
    cbn [move_loop]. rewrite H1, H2. reflexivity. }
  rewrite Hloop. reflexivity.
Qed.

Lemma line_with_cross_moves_as_one_witness :
  let st := Sample.store_of [Sample.comment] [] in
  let st1 := addLineXSet Sample.one_page 0 (render st) "grp_1" "ln_9" "g_9" st in
  let down := onPointerDownBox (render st1) Sample.one_page false
                               (Sample.at_ 100 200) "g_9" st1 in
  exists g,
    snd down = Some g /\
    st_selectedIds (fst down) = ["ln_9"; "g_9"] /\
    map x (st_boxes st1) = [40; 80; 262] /\
    map x (st_boxes (move_move g (Sample.at_ 110 220) (fst down)))
    = [40; 90; 272].
Proof.
  intros st st1 down.
  destruct (line_with_cross_moves_as_one
              Sample.one_page 0%Z "grp_1" "ln_9" "g_9" "g_9"
              (Sample.at_ 100 200) (Sample.at_ 110 220) st
              eq_refl eq_refl eq_refl eq_refl
              ltac:(discriminate) ltac:(discriminate)
              ltac:(intros [H | []]; discriminate H)
              ltac:(intros [H | []]; discriminate H)
              ltac:(intros b [<- | []]; discriminate)
              (or_intror eq_refl) eq_refl)
    as (line & glyph & g & Hb & _ & _ & _ & _ & _ & _ & Hg & Hsel & Hmove).
  exists g. split; [exact Hg|]. split; [exact Hsel|]. split; [reflexivity|].
  refine (eq_trans (f_equal (map x) Hmove) _).
  assert (E : st_boxes st1 = [Sample.comment] ++ [line; glyph]) by exact Hb.
  vm_compute in E. injection E as <- <-. reflexivity.
Defined.

(** ** The size of a placed image *)

Lemma round_le (a : Q) (n : Z) :
  a < inject_Z n + (1 # 2) -> Js.round a <= inject_Z n.
Proof.
  intros H. unfold Js.round. rewrite <- Zle_Qle. apply Z.lt_succ_r.
  rewrite Zlt_Qlt.
  apply Qle_lt_trans with (a + (1 # 2)); [apply Qfloor_le|].
  unfold Z.succ. rewrite inject_Z_plus. change (inject_Z 1) with 1. lra.
Qed.

Lemma scaled_side a b s : 0 < a -> s <= b / a -> a * s <= b.
Proof.
  intros Ha Hs.
  setoid_replace b with (a * (b / a)) by (field; lra).
  apply Qmult_le_l; assumption.
Qed.

Lemma scaled_bound a s c b :
  a * s <= 220 -> 0 <= c -> 220 * c < b -> a * (s * c) < b.
Proof.
  intros Has Hc Hb. apply Qle_lt_trans with (220 * c); [|exact Hb].
  setoid_replace (a * (s * c)) with ((a * s) * c) by ring.
  now apply Qmult_le_compat_r.
Qed.

Lemma max_40_bounds a (n : Z) :
  40 <= inject_Z n -> a < inject_Z n + (1 # 2) ->
  40 <= Js.max 40 (Js.round a) /\ Js.max 40 (Js.round a) <= inject_Z n.
Proof.
  intros Hn Ha. split; [apply max_ge_l|].
  unfold Js.max. apply Q.max_lub; [exact Hn | now apply round_le].
Qed.

(** X19.  When the image of an [addImageBox] call has loaded, with a
    positive width and height, one image object is appended to the
    collection and selected, on the page of the request (the current
    page when the request names none); no history is pushed at that
    time.  Its sides are at least 40 and at most 330 for a mark, at most
    73 for a signature. *)
Theorem loaded_image_size_is_bounded :
  forall (dom : Dom) (current : Z) (req : ImageRequest) (iw ih : Q)
         (st : Editor),
    0 < iw -> 0 < ih ->
    let st' := image_onload dom current req iw ih st in
    exists b,
      st_boxes st' = st_boxes st ++ [b] /\
      id b = ir_id req /\ type b = Image /\ src b = ir_src req /\
      page b = or_default (ir_page req) current /\
      st_selectedIds st' = [ir_id req] /\
      historyRef st' = historyRef st /\ redoRef st' = redoRef st /\
      40 <= w b /\ 40 <= h b /\
      (ir_sign req = false -> w b <= 330 /\ h b <= 330) /\
      (ir_sign req = true -> w b <= 73 /\ h b <= 73).
Proof.
  intros dom current req iw ih st Hw Hh st'. unfold st', image_onload.
  set (scale0 := Js.min (Js.min (220 / iw) (220 / ih)) 1).
  assert (Hsw : iw * scale0 <= 220).
  { apply scaled_side; [exact Hw|]. unfold scale0, Js.min.
    eapply Qle_trans; [apply Q.le_min_l | apply Q.le_min_l]. }
  assert (Hsh : ih * scale0 <= 220).
  { apply scaled_side; [exact Hh|]. unfold scale0, Js.min.
    eapply Qle_trans; [apply Q.le_min_l | apply Q.le_min_r]. }
  clearbody scale0.
  destruct (or_default (ir_coords req) (40, 40)) as [x0 y0].
  match goal with
  | |- context [let '(x1, y1) := ?c in _] => destruct c as [x1 y1]
  end.
  eexists. split; [reflexivity|]. cbn.
  split; [reflexivity|]. split; [reflexivity|]. split; [reflexivity|].
  split; [reflexivity|]. split; [reflexivity|]. split; [reflexivity|].
  split; [reflexivity|].
  split; [apply max_ge_l|]. split; [apply max_ge_l|].
  split; intros ->.
  - split; apply (max_40_bounds _ 330); try discriminate;
      [apply (scaled_bound _ _ _ _ Hsw) | apply (scaled_bound _ _ _ _ Hsh)];
      (discriminate || reflexivity).
  - split; apply (max_40_bounds _ 73); try discriminate;
      [apply (scaled_bound _ _ _ _ Hsw) | apply (scaled_bound _ _ _ _ Hsh)];
      (discriminate || reflexivity).
Qed.

Lemma loaded_image_size_is_bounded_witness :
  let req := {| ir_id := "img_1"; ir_src := "/assets/stamps/circle.png";
                ir_sign := false; ir_coords := Some (100, 100);
                ir_page := Some 0%Z |} in
  let st' := image_onload Sample.one_page 0 req 1000 500
                          (Sample.store_of [Sample.comment] []) in
  map w (st_boxes st') = [240; 330] /\ map h (st_boxes st') = [100; 165] /\
  exists b, st_boxes st' = [Sample.comment] ++ [b] /\ w b <= 330 /\ h b <= 330.
Proof.
  intros req st'.
  destruct (loaded_image_size_is_bounded
              Sample.one_page 0%Z req 1000 500
              (Sample.store_of [Sample.comment] []) eq_refl eq_refl)
    as (b & Hb & _ & _ & _ & _ & _ & _ & _ & _ & _ & Hmark & _).
  split; [reflexivity|]. split; [reflexivity|].
  exists b. split; [exact Hb | exact (Hmark eq_refl)].
Defined.

(** ** Fitting heights settles in one step *)

Lemma fit_height_cases renderRefs b :
  ((type b = Image \/ fixedHeight b = true \/ renderRefs (id b) = None) /\
   fit_height renderRefs b = (b, false)) \/
  (exists m, type b <> Image /\ fixedHeight b = false /\
             renderRefs (id b) = Some m /\
             ((Js.ltb 1 (Qabs (h b - desired_height m)) = false /\
               fit_height renderRefs b = (b, false)) \/
              (Js.ltb 1 (Qabs (h b - desired_height m)) = true /\
               fit_height renderRefs b = (set_h (desired_height m) b, true)))).
Proof.
  unfold fit_height.
  destruct (type b) eqn:Ht; try (left; split; [auto | reflexivity]);
    (destruct (fixedHeight b) eqn:Hf; [left; split; [auto | reflexivity]|]);
    (destruct (renderRefs (id b)) as [m|] eqn:Hm;
     [|left; split; [auto | reflexivity]]);
    right; exists m;
    (split; [discriminate|]); (split; [reflexivity|]); (split; [reflexivity|]);
    (destruct (Js.ltb 1 (Qabs (h b - desired_height m)));
     [right | left]; split; reflexivity).
Qed.

Lemma fit_height_of_fitted renderRefs b m :
  type b <> Image -> fixedHeight b = false -> renderRefs (id b) = Some m ->
  fit_height renderRefs (set_h (desired_height m) b)
  = (set_h (desired_height m) b, false).
Proof.
  intros Ht Hf Hm. unfold fit_height.
  cbn [type fixedHeight id h set_h]. rewrite Hf, Hm.
  assert (Hz : Js.ltb 1 (Qabs (desired_height m - desired_height m)) = false).
  { unfold Js.ltb. apply negb_false_iff, Qle_bool_iff.
    setoid_replace (desired_height m - desired_height m) with 0 by ring.
    discriminate. }
  rewrite Hz. destruct (type b); reflexivity.
Qed.

Lemma fit_height_fst_twice renderRefs b :
  fit_height renderRefs (fst (fit_height renderRefs b))
  = (fst (fit_height renderRefs b), false).
Proof.
  destruct (fit_height_cases renderRefs b)
    as [[_ E] | (m & Ht & Hf & Hm & [[_ E] | [_ E]])];
    rewrite E; cbn [fst]; [exact E | exact E |].
  now apply fit_height_of_fitted.
Qed.

Lemma fit_height_settled renderRefs b :
  snd (fit_height renderRefs (fst (fit_height renderRefs b))) = false.
Proof. now rewrite fit_height_fst_twice. Qed.

Lemma existsb_snd_false renderRefs l :
  existsb snd (map (fit_height renderRefs)
                   (map fst (map (fit_height renderRefs) l))) = false.
Proof.
  induction l as [|b l IH]; simpl; [reflexivity|].
  now rewrite fit_height_settled, IH.
Qed.

Lemma existsb_snd_unchanged renderRefs l :
  existsb snd (map (fit_height renderRefs) l) = false ->
  map fst (map (fit_height renderRefs) l) = l.
Proof.
  induction l as [|b l IH]; simpl; [reflexivity|].
  intros H. apply orb_false_elim in H as [Hb Hl]. rewrite IH by exact Hl.
  f_equal.
  destruct (fit_height_cases renderRefs b)
    as [[_ E] | (m & _ & _ & _ & [[_ E] | [_ E]])];
    rewrite E in *; [reflexivity | reflexivity | discriminate Hb].
Qed.

Lemma fit_height_spec renderRefs b :
  let b' := fst (fit_height renderRefs b) in
  same_but_h b b' /\
  (type b = Image \/ fixedHeight b = true \/ renderRefs (id b) = None ->
   b' = b) /\
  (forall m, type b <> Image -> fixedHeight b = false ->
             renderRefs (id b) = Some m ->
             Qabs (h b' - desired_height m) <= 1 /\ 32 <= desired_height m).
Proof.
  cbv zeta. unfold same_but_h.
  assert (Hrefl : b = set_h (h b) b) by (destruct b; reflexivity).
  destruct (fit_height_cases renderRefs b)
    as [[Hc E] | (m & Ht & Hf & Hm & [[Hlt E] | [Hlt E]])];
    rewrite E; cbn [fst].
  - split; [exact Hrefl|]. split; [reflexivity|].
    intros m' Ht Hf Hm. destruct Hc as [H | [H | H]]; congruence.
  - split; [exact Hrefl|]. split; [reflexivity|].
    intros m' _ _ Hm'. rewrite Hm in Hm'. injection Hm' as <-.
    split; [now apply ltb_false in Hlt | apply max_ge_l].
  - split; [destruct b; reflexivity|].
    split; [intros [H | [H | H]]; congruence|].
    intros m' _ _ Hm'. rewrite Hm in Hm'. injection Hm' as <-.
    split; [|apply max_ge_l]. cbn [h set_h].
    setoid_replace (desired_height m - desired_height m) with 0 by ring.
    discriminate.
Qed.

(** X20.  The effect that fits heights changes nothing but heights:
    images, boxes of fixed height and boxes without a rendered element
    are left as they are, and every other box ends with a height within
    1 of the desired one, which is the measured content height plus 4
    and at least 32.  It settles in one step: run again on its own
    result with the same measurements it reports no change and hands
    back the very collection it was given, so that the effect does not
    trigger itself forever. *)
Theorem height_fitting_settles_in_one_step :
  forall (renderRefs : string -> option Q) (prev : list Box),
    let next := fst (autoHeight renderRefs prev) in
    autoHeight renderRefs next = (next, false) /\
    (snd (autoHeight renderRefs prev) = false -> next = prev) /\
    Forall2 (fun b b' =>
               same_but_h b b' /\
               (type b = Image \/ fixedHeight b = true \/
                renderRefs (id b) = None -> b' = b) /\
               (forall m, type b <> Image -> fixedHeight b = false ->
                          renderRefs (id b) = Some m ->
                          Qabs (h b' - desired_height m) <= 1 /\
                          32 <= desired_height m))
            prev next.
Proof.
  intros renderRefs prev next. unfold next, autoHeight. cbv zeta.
  destruct (existsb snd (map (fit_height renderRefs) prev)) eqn:E;
    cbn [fst snd].
  - split; [now rewrite existsb_snd_false|]. split; [discriminate|].
    rewrite map_map. apply map_Forall2. intros b. apply fit_height_spec.
  - split; [now rewrite E|]. split; [reflexivity|].
    rewrite <- (existsb_snd_unchanged renderRefs prev E) at 2.
    rewrite map_map. apply map_Forall2. intros b. apply fit_height_spec.
Qed.

Lemma height_fitting_settles_in_one_step_witness :
  let refs := fun k => if String.eqb k "b_1" then Some 50 else None in
  let next := fst (autoHeight refs [Sample.comment; Sample.line]) in
  map h next = [54; 3] /\ autoHeight refs next = (next, false).
Proof.
  intros refs next. split; [reflexivity|].
  exact (proj1 (height_fitting_settles_in_one_step
                  refs [Sample.comment; Sample.line])).
Defined.

(** ** Font controls *)

Lemma Forall2_map_in (R : Box -> Box -> Prop) (f : Box -> Box) l :
  (forall b, In b l -> R b (f b)) -> Forall2 R l (map f l).
Proof.
  induction l as [|b l IH]; simpl; intros H; constructor.
  - apply H. now left.
  - apply IH. intros c Hc. apply H. now right.
Qed.

Lemma set_fontSize_same b : b = set_fontSize (fontSize b) b.
Proof. destruct b; reflexivity. Qed.

Lemma or_ge_8 v : 8 <= v -> Js.or v 16 = v.
Proof.
  intros H. apply or_of_nonzero. intros E. rewrite E in H.
  apply H. reflexivity.
Qed.

(** X21.  The font buttons and the font size field change nothing but
    the font size of the selected objects, which is never set below 8;
    they push no history and do nothing when nothing is selected or when
    the field holds no number.  When every selected object has a font
    size of at least 8, enlarging by a step and then shrinking by the
    same step gives every object its font size back. *)
Theorem font_controls_keep_sizes_at_least_8 :
  forall (r : Render) (delta : Q) (n : Z) (st : Editor),
    Forall2 (font_set (selectedIds r)) (st_boxes st)
            (st_boxes (changeFontSize r delta st)) /\
    Forall2 (font_set (selectedIds r)) (st_boxes st)
            (st_boxes (setFontSize r (Some n) st)) /\
    setFontSize r None st = st /\
    historyRef (changeFontSize r delta st) = historyRef st /\
    historyRef (setFontSize r (Some n) st) = historyRef st /\
    (selectedIds r = [] ->
     changeFontSize r delta st = st /\ setFontSize r (Some n) st = st) /\
    (0 <= delta ->
     (forall b, In b (st_boxes st) -> includes (id b) (selectedIds r) = true ->
                exists f, fontSize b = Some f /\ 8 <= f) ->
     Forall2 same_font (st_boxes st)
             (st_boxes (changeFontSize r (- delta) (changeFontSize r delta st)))).
Proof.
  intros r delta n st.
  assert (Hone : forall v, Forall2 (font_set (selectedIds r)) (st_boxes st)
                   (map (fun b => if includes (id b) (selectedIds r)
                                  then set_fontSize (Some (Js.max 8 (v b))) b
                                  else b) (st_boxes st))).
  { intros v. apply map_Forall2. intros b. unfold font_set.
    destruct (includes (id b) (selectedIds r)); split; try discriminate;
      try reflexivity.
    intros _. eexists. split; [reflexivity | apply max_ge_l]. }
  split.
  { unfold changeFontSize. destruct (selectedIds r) eqn:E.
    - apply Forall2_refl_on. intros b. split; [reflexivity | discriminate].
    - apply (Hone (fun b => Js.or_undef (fontSize b) 16 + delta)). }
  split.
  { unfold setFontSize. destruct (selectedIds r) eqn:E.
    - apply Forall2_refl_on. intros b. split; [reflexivity | discriminate].
    - apply (Hone (fun _ => inject_Z n)). }
  split; [unfold setFontSize; now destruct (selectedIds r)|].
  split; [unfold changeFontSize; now destruct (selectedIds r)|].
  split; [unfold setFontSize; now destruct (selectedIds r)|].
  split.
  { intros E. unfold changeFontSize, setFontSize. now rewrite E. }
  intros Hd Hsz. unfold changeFontSize.
  destruct (selectedIds r) as [|k0 ks] eqn:E.
  - apply Forall2_refl_on. intros b. split; [apply set_fontSize_same|].
    destruct (fontSize b); [reflexivity | exact I].
  - rewrite <- E in Hsz |- *. cbn [st_boxes setBoxes]. rewrite map_map.
    apply Forall2_map_in. intros b Hb.
    destruct (includes (id b) (selectedIds r)) eqn:Hi.
    + cbn [id set_fontSize]. rewrite Hi.
      destruct (Hsz b Hb Hi) as (f & Hf & H8).
      split; [destruct b; reflexivity|].
      cbn [fontSize set_fontSize]. rewrite Hf. cbn [Js.or_undef].
      rewrite (or_ge_8 f H8).
      assert (Hup : Js.max 8 (f + delta) == f + delta)
        by (apply max_of_le; lra).
      rewrite or_ge_8 by apply max_ge_l.
      rewrite Hup. rewrite max_of_le by lra. ring.
    + rewrite Hi. split; [apply set_fontSize_same|].
      destruct (fontSize b); [reflexivity | exact I].
Qed.

Lemma font_controls_keep_sizes_at_least_8_witness :
  let st := Sample.store_of [Sample.comment; Sample.line] ["b_1"] in
  map fontSize (st_boxes (changeFontSize (render st) (- (10)) st))
  = [Some 8; None] /\
  Forall2 same_font (st_boxes st)
          (st_boxes (changeFontSize (render st) (- (1))
                       (changeFontSize (render st) 1 st))).
Proof.
  intros st. split; [reflexivity|].
  destruct (font_controls_keep_sizes_at_least_8 (render st) 1 0%Z st)
    as (_ & _ & _ & _ & _ & _ & Hback).
  apply Hback; [discriminate|].
  intros b [<- | [<- | []]]; [|discriminate].
  intros _. exists 14. split; [reflexivity | discriminate].
Defined.

(** ** Selecting by a click and the key listener *)

Lemma key_undo_keeps_stamp r fresh e st :
  undo_shortcut e = true ->
  selStamp (onKey r fresh false false e st) = selStamp st.
Proof.
  unfold undo_shortcut, onKey. intros E.
  apply andb_prop in E as [E Es]. apply andb_prop in E as [Ec Ez].
  replace (String.eqb (key e) "Escape" && false) with false
    by (now rewrite andb_false_r).
  destruct (selectedIds r); [reflexivity|].
  rewrite Ec, (toLowerCase_z_not_b _ Ez), Ez. simpl.
  apply negb_true_iff in Es. rewrite Es.
  unfold undo. destruct (historyRef st); reflexivity.
Qed.

Lemma commit_renews_listener st mv rz rref s :
  selStamp st <> keyStamp s ->
  keyRender (commit st mv rz rref s) = render st /\
  keyStamp (commit st mv rz rref s) = selStamp st /\
  store (commit st mv rz rref s) = st.
Proof.
  intros H. unfold commit. apply Nat.eqb_neq in H. rewrite H. auto.
Qed.

(** X22.  A click without modifier keys on an object selects that object
    alone and renews the key listener, which from then on holds the
    collection of the store.  With a snapshot on the undo stack, Ctrl+Z
    right after the click brings back that snapshot and Ctrl+Shift+Z
    after it the collection as it was at the click: after a click the
    keyboard round trip is exact.  (The key listener is the one of the
    selection last set, as in every session that started by mounting.) *)
Theorem click_renews_listener_and_keyboard_round_trip_is_exact :
  forall (dom : Dom) (combinePages : bool) (textRefs : string -> option Q)
         (fresh : nat -> string) (s : Session) (e : PointerEvent) (k : string)
         (e1 e2 : KeyEvent) (prev : list Box) (rest : list (list Box)),
    shiftKey e = false -> metaKey e = false -> ctrlKey e = false ->
    undo_shortcut e1 = true -> redo_shortcut e2 = true ->
    keyStamp s = selStamp (store s) ->
    historyRef (store s) = prev :: rest ->
    let s1 := clickBox e k s in
    let s2 := step dom combinePages textRefs fresh s1 (KeyDown false false e1) in
    let s3 := step dom combinePages textRefs fresh s2 (KeyDown false false e2) in
    st_selectedIds (store s1) = [k] /\
    st_boxes (store s1) = st_boxes (store s) /\
    keyRender s1 = render (store s1) /\
    st_boxes (store s2) = prev /\
    st_boxes (store s3) = st_boxes (store s).
Proof.
  intros dom combinePages textRefs fresh s e k e1 e2 prev rest Hs Hm Hc E1 E2
         Hstamp Hh s1 s2 s3.
  assert (Hclick : onClickBox e k (store s) = setSelectedIds [k] (store s)).
  { unfold onClickBox. now rewrite Hs, Hm, Hc. }
  destruct (commit_renews_listener (onClickBox e k (store s)) (moving s)
              (resizing s) (resizingRef s) s) as (Hk & Hks & Hst).
  { rewrite Hclick, Hstamp. simpl. lia. }
  fold (clickBox e k s) in Hk, Hks, Hst. fold s1 in Hk, Hks, Hst.
  rewrite Hclick in Hk, Hks, Hst.
  assert (Hsel : selectedIds (keyRender s1) <> []) by (rewrite Hk; discriminate).
  assert (Hh1 : historyRef (store s1) = prev :: rest) by (now rewrite Hst).
  destruct (key_undo_pushes_listener_collection (keyRender s1) fresh e1
              (store s1) prev rest E1 Hsel Hh1) as (Hb2 & _ & Hr2).
  pose proof (key_undo_keeps_stamp (keyRender s1) fresh e1 (store s1) E1) as Hst2.
  destruct (commit_keeps_listener
              (onKey (keyRender s1) fresh false false e1 (store s1))
              (moving s1) (resizing s1) (resizingRef s1) s1) as (Hk2 & _ & Hs2).
  { now rewrite Hst2, Hks, Hst. }
  change (commit (onKey (keyRender s1) fresh false false e1 (store s1))
                 (moving s1) (resizing s1) (resizingRef s1) s1) with s2
    in Hk2, Hs2.
  assert (Hsel2 : selectedIds (keyRender s2) <> []) by (now rewrite Hk2).
  assert (Hr2' : redoRef (store s2) = boxes (keyRender s1) :: redoRef (store s1))
    by (now rewrite Hs2).
  destruct (key_redo_pushes_listener_collection (keyRender s2) fresh e2
              (store s2) _ _ E2 Hsel2 Hr2') as (Hb3 & _).
  split; [now rewrite Hst|]. split; [now rewrite Hst|].
  split; [now rewrite Hk, Hst|]. split; [now rewrite Hs2|].
  unfold s3, step, commit.
  destruct (Nat.eqb _ _); cbn [store]; rewrite Hb3, Hk; reflexivity.
Qed.

Lemma click_renews_listener_and_keyboard_round_trip_is_exact_witness :
  let s := Sample.session Sample.drag_comment in
  let s1 := clickBox (Sample.at_ 110 120) "b_1" s in
  let s3 := run Sample.one_page false Sample.no_text_area Sample.fresh s1
                [Sample.key_undo; Sample.key_redo] in
  st_boxes (store s) = [Sample.moved_comment] /\
  st_boxes (store s3) = [Sample.moved_comment].
Proof.
  intros s s1 s3. split; [reflexivity|].
  exact (proj2 (proj2 (proj2 (proj2
           (click_renews_listener_and_keyboard_round_trip_is_exact
              Sample.one_page false Sample.no_text_area Sample.fresh s
              (Sample.at_ 110 120) "b_1" (Sample.ctrl "z" false)
              (Sample.ctrl "z" true) [Sample.comment] []
              eq_refl eq_refl eq_refl eq_refl eq_refl eq_refl eq_refl))))).
Defined.

Lemma keys_without_selection dom combinePages textRefs fresh ks :
  forall s,
    selectedIds (keyRender s) = [] ->
    keyStamp s = selStamp (store s) ->
    store (run dom combinePages textRefs fresh s (key_events ks)) = store s.
Proof.
  unfold run. induction ks as [|[[pl ta] e] ks IH]; intros s Hsel Hst;
    [reflexivity|].
  cbn [key_events map fold_left fst snd].
  assert (Hk : onKey (keyRender s) fresh pl ta e (store s) = store s).
  { unfold onKey. rewrite Hsel.
    destruct (String.eqb (key e) "Escape" && pl), ta; reflexivity. }
  cbn [step]. rewrite Hk.
  destruct (commit_keeps_listener (store s) (moving s) (resizing s)
              (resizingRef s) s (eq_sym Hst)) as (H1 & H2 & H3).
  fold (key_events ks). rewrite IH; [exact H3| |].
  - now rewrite H1.
  - now rewrite H2, H3.
Qed.

(** X23.  A press on the page outside of every object, with no drawing
    tool and no placing mode on, empties the selection and closes every
    editor, and the key listener installed after it holds the empty
    selection.  Whatever keys follow (Delete, the arrows, Ctrl+Z,
    Ctrl+Shift+Z, Ctrl+V, ...) then leave the collection, the selection,
    both stacks and the clipboard as they are: without a selection the
    keyboard does nothing, undo and paste included. *)
Theorem keys_do_nothing_after_a_press_on_the_empty_page :
  forall (dom : Dom) (combinePages : bool) (textRefs : string -> option Q)
         (fresh : nat -> string) (s : Session) (e : PagePointer)
         (ks : list (bool * bool * KeyEvent)),
    keyStamp s = selStamp (store s) ->
    let s1 := pressPage dom e s in
    let s2 := run dom combinePages textRefs fresh s1 (key_events ks) in
    st_selectedIds (store s1) = [] /\
    st_boxes (store s1) = map (set_isEditing false) (st_boxes (store s)) /\
    historyRef (store s1) = historyRef (store s) /\
    redoRef (store s1) = redoRef (store s) /\
    selectedIds (keyRender s1) = [] /\
    store s2 = store s1.
Proof.
  intros dom combinePages textRefs fresh s e ks Hst s1 s2.
  set (st' := setBoxes (map (set_isEditing false))
                (setSelectedIds [] (store s))).
  assert (Hp : pad_store (handlePagePointerDown dom false false 0 false ""
                            e (pad_of (store s))) = st') by reflexivity.
  destruct (commit_renews_listener st' (moving s) (resizing s)
              (resizingRef s) s) as (Hk & Hks & Hs1).
  { subst st'. cbn. rewrite Hst. lia. }
  assert (E1 : s1 = commit st' (moving s) (resizing s) (resizingRef s) s)
    by (unfold s1, pressPage; now rewrite Hp).
  rewrite <- E1 in Hk, Hks, Hs1.
  assert (Hsel : selectedIds (keyRender s1) = []) by (now rewrite Hk).
  repeat split; try (rewrite Hs1; reflexivity); [exact Hsel|].
  apply keys_without_selection; [exact Hsel | now rewrite Hks, Hs1].
Qed.

Lemma keys_do_nothing_after_a_press_on_the_empty_page_witness :
  let s := Sample.session Sample.drag_comment in
  let s1 := pressPage Sample.one_page (mouse_at 5 5) s in
  let s2 := run Sample.one_page false Sample.no_text_area Sample.fresh s1
                [Sample.key_undo; Sample.key_redo] in
  st_boxes (store s) = [Sample.moved_comment] /\
  historyRef (store s) = [[Sample.comment]] /\
  store s2 = store s1.
Proof.
  intros s s1 s2. split; [reflexivity|]. split; [reflexivity|].
  exact (proj2 (proj2 (proj2 (proj2 (proj2
           (keys_do_nothing_after_a_press_on_the_empty_page
              Sample.one_page false Sample.no_text_area Sample.fresh s
              (mouse_at 5 5)
              [(false, false, Sample.ctrl "z" false);
               (false, false, Sample.ctrl "z" true)] eq_refl)))))).
Defined.

(** ** The pages of the answer list *)

Lemma ceiling_pages (n ps : Z) :
  (0 < ps)%Z -> (0 <= n)%Z ->
  let c := Qceiling (inject_Z n / inject_Z ps) in
  ((c - 1) * ps < n <= c * ps)%Z.
Proof.
  intros Hps Hn c.
  assert (Hq : 0 < inject_Z ps) by (change (inject_Z 0 < inject_Z ps); rewrite <- Zlt_Qlt; exact Hps).
  assert (Hnz : ~ inject_Z ps == 0) by (intros E; rewrite E in Hq; discriminate).
  pose proof (Qle_ceiling (inject_Z n / inject_Z ps)) as Hle.
  pose proof (Qceiling_lt (inject_Z n / inject_Z ps)) as Hlt.
  fold c in Hle, Hlt.
  assert (Hmul : inject_Z n / inject_Z ps * inject_Z ps == inject_Z n)
    by (field; exact Hnz).
  split.
  - rewrite Zlt_Qlt, inject_Z_mult, <- Hmul.
    apply Qmult_lt_compat_r; [exact Hq|].
    exact Hlt.
  - rewrite Zle_Qle, inject_Z_mult, <- Hmul.
    apply Qmult_le_compat_r; [exact Hle | now apply Qlt_le_weak].
Qed.

Lemma totalPages_covers {A} (l : list A) ps :
  (0 < ps)%Z ->
  (1 <= totalPages l ps)%Z /\
  (Z.of_nat (List.length l) <= totalPages l ps * ps)%Z /\
  (l <> [] -> ((totalPages l ps - 1) * ps < Z.of_nat (List.length l))%Z).
Proof.
  intros Hps. unfold totalPages.
  pose proof (ceiling_pages (Z.of_nat (List.length l)) ps Hps
                (Nat2Z.is_nonneg _)) as [H1 H2]. cbv zeta in H1, H2.
  set (c := Qceiling _) in *.
  split; [lia|]. split; [nia|].
  intros Hl. assert (0 < Z.of_nat (List.length l))%Z.
  { destruct l; [congruence | simpl; lia]. }
  destruct (Z.max_spec 1 c) as [[_ ->]|[_ ->]]; [exact H1 | lia].
Qed.

Lemma page_is_chunk {A} (l : list A) ps page :
  (0 < ps)%Z ->
  pagedAnswers l ps page
  = firstn (Z.to_nat ps) (skipn (Z.to_nat (startIdx l ps page)) l) /\
  (0 <= startIdx l ps page)%Z /\
  (l <> [] -> (startIdx l ps page < Z.of_nat (List.length l))%Z).
Proof.
  intros Hps. destruct (totalPages_covers l ps Hps) as (H1 & H2 & H3).
  assert (Hc : (1 <= pageClamped l ps page <= totalPages l ps)%Z)
    by (unfold pageClamped; lia).
  assert (H0 : (0 <= startIdx l ps page)%Z) by (unfold startIdx; nia).
  split; [|split; [exact H0|]].
  - unfold pagedAnswers, slice. cbv zeta.
    set (k := startIdx l ps page) in *. set (len := Z.of_nat (List.length l)).
    assert ((k <? 0)%Z = false) as -> by (apply Z.ltb_ge; lia).
    assert ((k + ps <? 0)%Z = false) as -> by (apply Z.ltb_ge; lia).
    destruct (Z.le_gt_cases len k) as [Hk|Hk].
    + rewrite (Z.min_r k len) by lia. rewrite (Z.min_r (k + ps) len) by lia.
      rewrite !skipn_all2 by lia. now rewrite !firstn_nil.
    + rewrite (Z.min_l k len) by lia.
      destruct (Z.le_gt_cases (k + ps) len) as [He|He].
      * rewrite (Z.min_l (k + ps) len) by lia. f_equal. lia.
      * rewrite (Z.min_r (k + ps) len) by lia.
        rewrite !firstn_all2; [reflexivity | |]; rewrite length_skipn; lia.
  - intros Hl. specialize (H3 Hl). unfold startIdx. nia.
Qed.

Lemma chunks_concat {A} (l : list A) (ps : nat) (t : nat) :
  List.concat (map (fun j => firstn ps (skipn (j * ps) l)) (seq 0 t))
  = firstn (t * ps) l.
Proof.
  induction t as [|t IH]; [reflexivity|].
  rewrite seq_S, map_app, concat_app, IH. cbn [map List.concat Nat.add].
  rewrite app_nil_r.
  rewrite <- (firstn_skipn (t * ps) (firstn (S t * ps) l)).
  rewrite firstn_firstn, Nat.min_l by lia.
  f_equal. rewrite skipn_firstn_comm. f_equal. lia.
Qed.

(** X24.  With a positive page size the pages of the answer list, first
    to last, hold every visible answer exactly once and in order.
    Whatever the page number held in the state, the page shown is one of
    them: it has at most [pageSize] rows, at least one row when there is
    an answer to show, and as many rows as the counter above the table
    says.  From a page number in range the buttons stay in range, the
    next button is disabled exactly on the last page and the previous
    one exactly on the first, and previous undoes next. *)
Theorem pages_show_every_answer_once :
  forall (A : Type) (l : list A) (pageSize : Z),
    (0 < pageSize)%Z ->
    List.concat (all_pages l pageSize) = l /\
    (forall page,
        (1 <= pageClamped l pageSize page <= totalPages l pageSize)%Z /\
        (Z.of_nat (List.length (pagedAnswers l pageSize page)) <= pageSize)%Z /\
        (l <> [] -> pagedAnswers l pageSize page <> []) /\
        (l <> [] ->
         Z.of_nat (List.length (pagedAnswers l pageSize page))
         = shownTo l pageSize page - shownFrom l pageSize page + 1)%Z /\
        (l = [] ->
         shownFrom l pageSize page = 0%Z /\ shownTo l pageSize page = 0%Z)) /\
    (forall page,
        (1 <= page <= totalPages l pageSize)%Z ->
        pageClamped l pageSize page = page /\
        (1 <= clickNext l pageSize page <= totalPages l pageSize)%Z /\
        (1 <= clickPrev l pageSize page <= totalPages l pageSize)%Z /\
        (nextDisabled l pageSize page = true <-> page = totalPages l pageSize) /\
        (prevDisabled l pageSize page = true <-> page = 1%Z) /\
        (nextDisabled l pageSize page = false ->
         clickPrev l pageSize (clickNext l pageSize page) = page)).
Proof.
  intros A l ps Hps.
  destruct (totalPages_covers l ps Hps) as (HT1 & HT2 & HT3).
  assert (Hclamp : forall page, (1 <= page <= totalPages l ps)%Z ->
                                pageClamped l ps page = page)
    by (intros page Hp; unfold pageClamped; lia).
  split; [|split].
  - unfold all_pages. rewrite <- seq_shift, map_map.
    rewrite (map_ext_in _ (fun j => firstn (Z.to_nat ps)
                                      (skipn (j * Z.to_nat ps) l))).
    + rewrite chunks_concat. apply firstn_all2. nia.
    + intros j Hj. apply in_seq in Hj.
      destruct (page_is_chunk l ps (Z.of_nat (S j)) Hps) as (-> & _).
      unfold startIdx. rewrite Hclamp by lia. do 2 f_equal. nia.
  - intros page.
    destruct (page_is_chunk l ps page Hps) as (Hpg & H0 & Hlt).
    assert (Hlen : Z.of_nat (List.length (pagedAnswers l ps page))
                   = Z.min ps (Z.of_nat (List.length l) - startIdx l ps page)
                     \/ l = []).
    { destruct l as [|a l']; [now right | left].
      specialize (Hlt ltac:(discriminate)).
      rewrite Hpg, length_firstn, length_skipn. lia. }
    split; [unfold pageClamped; lia|].
    split; [destruct Hlen as [->| ->]; [lia|]|].
    { rewrite Hpg, skipn_nil, firstn_nil. simpl. lia. }
    split; [|split].
    + intros Hl E. specialize (Hlt Hl). destruct Hlen as [Hlen|]; [|easy].
      rewrite E in Hlen. simpl in Hlen. lia.
    + intros Hl. specialize (Hlt Hl). destruct Hlen as [Hlen|]; [|easy].
      rewrite Hlen. unfold shownTo, shownFrom.
      destruct l; [easy|]. lia.
    + intros ->. unfold shownFrom, shownTo. simpl. split; [reflexivity|].
      unfold startIdx in *. simpl in *. lia.
  - intros page Hp. pose proof (Hclamp page Hp) as Hc.
    unfold clickNext, clickPrev, nextDisabled, prevDisabled.
    rewrite Hc. split; [reflexivity|].
    split; [destruct (Z.leb_spec (totalPages l ps) page); lia|].
    split; [destruct (Z.leb_spec page 1); lia|].
    split; [rewrite Z.leb_le; lia|].
    split; [rewrite Z.leb_le; lia|].
    intros Hn. rewrite Hn. apply Z.leb_gt in Hn.
    rewrite Hclamp by lia.
    destruct (Z.leb_spec (Z.min (totalPages l ps) (page + 1)) 1); lia.
Qed.

Lemma pages_show_every_answer_once_witness :
  all_pages [1; 2; 3; 4; 5]%Z 2 = [[1; 2]; [3; 4]; [5]]%Z /\
  List.concat (all_pages [1; 2; 3; 4; 5]%Z 2) = [1; 2; 3; 4; 5]%Z.
Proof.
  split; [reflexivity|].
  exact (proj1 (pages_show_every_answer_once Z [1; 2; 3; 4; 5]%Z 2 eq_refl)).
Defined.

(** ** Export: every capture fits its page *)

Lemma fit_scale pw ph iw ih :
  0 < pw -> 0 < ph -> 0 < iw -> 0 < ih ->
  let scale := Js.min (pw / iw) (ph / ih) in
  0 < iw * scale /\ iw * scale <= pw /\ 0 < ih * scale /\ ih * scale <= ph /\
  (iw * scale == pw \/ ih * scale == ph).
Proof.
  intros Hpw Hph Hiw Hih scale.
  assert (Ha : 0 < pw / iw) by (apply Qlt_shift_div_l; lra).
  assert (Hb : 0 < ph / ih) by (apply Qlt_shift_div_l; lra).
  assert (Hs : 0 < scale).
  { unfold scale, Js.min. apply Q.min_glb_lt; assumption. }
  assert (Hw : iw * scale <= pw)
    by (apply scaled_side; [exact Hiw | apply Q.le_min_l]).
  assert (Hh : ih * scale <= ph)
    by (apply scaled_side; [exact Hih | apply Q.le_min_r]).
  split; [apply Qmult_lt_0_compat; assumption|].
  split; [exact Hw|].
  split; [apply Qmult_lt_0_compat; assumption|].
  split; [exact Hh|].
  unfold scale, Js.min.
  destruct (Q.min_spec (pw / iw) (ph / ih)) as [[_ ->]|[_ ->]];
    [left | right]; field; lra.
Qed.

Lemma placeFrom_pages pw ph cs :
  forall idx done cur,
    pdf_pages (placeFrom pw ph (S idx) cs) done cur
    = done ++ [cur]
      ++ map (fun cv => [AddImage (cv_data cv) 0 0
                           (cv_width cv * Js.min (pw / cv_width cv)
                                                 (ph / cv_height cv))
                           (cv_height cv * Js.min (pw / cv_width cv)
                                                  (ph / cv_height cv))]) cs.
Proof.
  induction cs as [|cv cs IH]; intros idx done cur; [reflexivity|].
  cbn [placeFrom placeCanvas app pdf_pages map]. rewrite IH.
  now rewrite <- app_assoc.
Qed.

(** X25.  The export lays the captured pages out one per page of the
    document, in order: with a page and captures of positive size,
    every capture is drawn alone on its page at the top left corner,
    scaled as a whole (the ratio of its sides is kept) to lie inside the
    page and to touch its right or its bottom side.  Without captures
    the document is still made of its one blank page. *)
Theorem export_fits_each_capture_on_its_page :
  forall (pageWidth pageHeight : Q) (canvases : list Canvas),
    0 < pageWidth -> 0 < pageHeight ->
    Forall (fun cv => 0 < cv_width cv /\ 0 < cv_height cv) canvases ->
    let pages := pdf_pages (placeCanvases pageWidth pageHeight canvases) [] [] in
    match canvases with
    | [] => pages = [[]]
    | _ => Forall2 (fits_page pageWidth pageHeight) canvases pages
    end.
Proof.
  intros pw ph cs Hpw Hph Hcs pages. unfold pages, placeCanvases.
  destruct cs as [|cv cs]; [reflexivity|].
  cbn [placeFrom placeCanvas app pdf_pages]. rewrite placeFrom_pages.
  cbn [app].
  assert (Hall : forall l,
             Forall (fun cv => 0 < cv_width cv /\ 0 < cv_height cv) l ->
             Forall2 (fits_page pw ph) l
               (map (fun cv => [AddImage (cv_data cv) 0 0
                           (cv_width cv * Js.min (pw / cv_width cv)
                                                 (ph / cv_height cv))
                           (cv_height cv * Js.min (pw / cv_width cv)
                                                  (ph / cv_height cv))]) l)).
  { induction 1 as [|c l [Hw Hh] _ IH]; constructor; [|exact IH].
    destruct (fit_scale pw ph (cv_width c) (cv_height c) Hpw Hph Hw Hh)
      as (H1 & H2 & H3 & H4 & H5).
    eexists _, _. split; [reflexivity|].
    repeat (split; [assumption|]). split; [ring | exact H5]. }
  exact (Hall (cv :: cs) Hcs).
Qed.

Lemma export_fits_each_capture_on_its_page_witness :
  let a4w := 59528 # 100 in
  let a4h := 84189 # 100 in
  let cs := [ {| cv_data := "p1"; cv_width := 1600; cv_height := 2000 |};
              {| cv_data := "p2"; cv_width := 2000; cv_height := 1000 |} ] in
  Forall2 (fits_page a4w a4h) cs (pdf_pages (placeCanvases a4w a4h cs) [] []).
Proof.
  intros a4w a4h cs.
  apply (export_fits_each_capture_on_its_page a4w a4h cs);
    [reflexivity | reflexivity |].
  repeat constructor.
Defined.

(** ** The editing time as text *)

Lemma digits_no_colon d : no_colon (DecimalString.NilEmpty.string_of_uint d).
Proof. induction d; simpl; auto. Qed.

Lemma decimal_no_colon n : no_colon (decimal n).
Proof.
  unfold decimal, DecimalString.NilZero.string_of_uint.
  destruct (N.to_uint (Z.to_N n)) eqn:E; try (rewrite <- E; apply digits_no_colon).
  simpl. auto.
Qed.

Lemma no_colon_app a b : no_colon a -> no_colon b -> no_colon (a ++ b).
Proof. induction a; simpl; intuition. Qed.

Lemma repeat_zero_no_colon n : no_colon (repeat_char "0" n).
Proof. induction n; simpl; auto. Qed.

Lemma pad_no_colon n s : no_colon s -> no_colon (padStart n "0" s).
Proof. intros H. apply no_colon_app; [apply repeat_zero_no_colon | exact H]. Qed.

Lemma fields_last a : no_colon a -> fields a = [a].
Proof.
  induction a as [|c a IH]; [reflexivity|]. intros [Hc Ha].
  simpl. rewrite Hc, (IH Ha). reflexivity.
Qed.

Lemma fields_app a b :
  no_colon a -> fields (a ++ ":" ++ b) = a :: fields b.
Proof.
  induction a as [|c a IH]; [reflexivity|]. intros [Hc Ha].
  simpl. rewrite Hc. simpl in IH. rewrite (IH Ha). reflexivity.
Qed.

Lemma number_of_decimal n : (0 <= n)%Z -> number_of (decimal n) = Some n.
Proof.
  intros Hn. unfold number_of, decimal.
  rewrite DecimalString.NilZero.usu.
  - rewrite DecimalN.Unsigned.of_to. f_equal. lia.
  - destruct (Z.to_N n); [discriminate|]. simpl.
    apply DecimalPos.Unsigned.to_uint_nonnil.
Qed.

Lemma decimal_nonempty n : decimal n <> EmptyString.
Proof.
  unfold decimal, DecimalString.NilZero.string_of_uint.
  destruct (N.to_uint (Z.to_N n)); discriminate.
Qed.

Lemma number_of_zero_first s :
  s <> EmptyString -> number_of (String "0" s) = number_of s.
Proof.
  intros Hs. unfold number_of, DecimalString.NilZero.uint_of_string.
  destruct s as [|c s]; [congruence|].
  change (DecimalString.NilEmpty.uint_of_string (String "0" (String c s)))
    with (DecimalString.uint_of_char "0" (DecimalString.NilEmpty.uint_of_string (String c s))).
  destruct (DecimalString.NilEmpty.uint_of_string (String c s)); reflexivity.
Qed.

Lemma number_of_pad n :
  (0 <= n)%Z -> number_of (padStart 2 "0" (decimal n)) = Some n.
Proof.
  intros Hn. pose proof (decimal_nonempty n) as Hne.
  pose proof (number_of_decimal n Hn) as Hd. unfold padStart.
  destruct (decimal n) as [|c [|c' s]]; [congruence| |exact Hd].
  cbn [String.length Nat.sub repeat_char append].
  now rewrite number_of_zero_first.
Qed.

Lemma length_append (a b : string) :
  String.length (a ++ b) = (String.length a + String.length b)%nat.
Proof. induction a; simpl; congruence. Qed.

Lemma length_pad n c s :
  String.length (padStart n c s) = Nat.max n (String.length s).
Proof.
  unfold padStart. rewrite length_append.
  assert (H : forall k, String.length (repeat_char c k) = k)
    by (induction k; simpl; congruence).
  rewrite H. lia.
Qed.

Lemma two_digits n :
  (0 <= n < 100)%Z -> (String.length (decimal n) <= 2)%nat.
Proof.
  intros Hn.
  assert (H : forallb (fun k => (String.length (decimal (Z.of_nat k)) <=? 2)%nat)
                      (seq 0 100) = true) by (vm_compute; reflexivity).
  rewrite forallb_forall in H.
  specialize (H (Z.to_nat n)). rewrite Z2Nat.id in H by lia.
  apply Nat.leb_le, H, in_seq. lia.
Qed.

(** X26.  The text made of a whole number of seconds reads back as that
    number (as 0 for a negative one): it has three fields of decimal
    digits separated by colons, hours, minutes below 60 and seconds
    below 60.  It has at least 8 characters, and exactly 8 below a
    hundred hours. *)
Theorem formatted_time_reads_back :
  forall total : Z,
    (total <= MAX_SAFE_INTEGER)%Z ->
    seconds_of (formatSeconds total) = Some (Z.max 0 total) /\
    (8 <= String.length (formatSeconds total))%nat /\
    ((total < 360000)%Z -> String.length (formatSeconds total) = 8%nat).
Proof.
  intros total _. unfold formatSeconds. cbv zeta.
  set (s := Z.max 0 total).
  assert (Hs : (0 <= s)%Z) by (unfold s; lia).
  assert (Hh : (0 <= s / 3600)%Z) by (apply Z.div_pos; lia).
  assert (Hm : (0 <= s mod 3600 / 60 < 60)%Z).
  { pose proof (Z.mod_pos_bound s 3600 eq_refl).
    split; [apply Z.div_pos; lia | apply Z.div_lt_upper_bound; lia]. }
  assert (Hc : (0 <= s mod 60 < 60)%Z) by (apply Z.mod_pos_bound; lia).
  assert (Hsum : (s / 3600 * 3600 + s mod 3600 / 60 * 60 + s mod 60 = s)%Z).
  { pose proof (Z.div_mod s 3600 ltac:(lia)).
    pose proof (Z.div_mod (s mod 3600) 60 ltac:(lia)).
    pose proof (Z.rem_mul_r s 60 60 ltac:(lia) ltac:(lia)) as Hr.
    change (60 * 60)%Z with 3600%Z in Hr.
    pose proof (Z.mod_pos_bound (s mod 3600) 60 eq_refl).
    pose proof (Z.mod_pos_bound s 60 eq_refl).
    lia. }
  split; [|split].
  - unfold seconds_of.
    rewrite fields_app by apply pad_no_colon, decimal_no_colon.
    rewrite fields_app by apply pad_no_colon, decimal_no_colon.
    rewrite fields_last by apply pad_no_colon, decimal_no_colon.
    cbn [map]. rewrite !number_of_pad by lia.
    destruct (Z.ltb_spec (s mod 3600 / 60) 60); [|lia].
    destruct (Z.ltb_spec (s mod 60) 60); [|lia].
    cbn [andb]. now rewrite Hsum.
  - rewrite !length_append, !length_pad. simpl String.length. lia.
  - intros Ht. rewrite !length_append, !length_pad. simpl String.length.
    assert (s / 3600 < 100)%Z by (apply Z.div_lt_upper_bound; lia).
    pose proof (two_digits (s / 3600) ltac:(lia)).
    pose proof (two_digits (s mod 3600 / 60) ltac:(lia)).
    pose proof (two_digits (s mod 60) ltac:(lia)). lia.
Qed.

Lemma formatted_time_reads_back_witness :
  formatSeconds 3725 = "01:02:05" /\
  seconds_of (formatSeconds 3725) = Some 3725%Z.
Proof.
  split; [reflexivity|].
  exact (proj1 (formatted_time_reads_back 3725 ltac:(discriminate))).
Defined.

(** ** The preview next to the pointer *)

Lemma clamp_between lo hi v :
  lo <= hi ->
  lo <= Js.min hi (Js.max lo v) /\ Js.min hi (Js.max lo v) <= hi /\
  (lo <= v -> v <= hi -> Js.min hi (Js.max lo v) == v).
Proof.
  intros H. unfold Js.min, Js.max.
  split; [apply Q.min_glb; [exact H | apply Q.le_max_l]|].
  split; [apply Q.le_min_l|].
  intros Hl Hh. rewrite (Q.max_r lo v Hl). now apply Q.min_r.
Qed.

(** X27.  In a window of at least 256 by 316 the preview, 240 wide and
    300 high, is put wholly inside the window with a margin of 8 on every
    side, and 12 right of and below the pointer whenever it fits there.
    In any window it never passes the right or the bottom margin: in a
    smaller window it is the left or the top margin that gives way. *)
Theorem preview_stays_inside_the_window :
  forall innerWidth innerHeight cx cy : Q,
    let p := computePopoverPosAtMouse innerWidth innerHeight cx cy in
    (~ innerWidth == 0 -> fst p + 240 <= innerWidth - 8) /\
    (~ innerHeight == 0 -> snd p + 300 <= innerHeight - 8) /\
    (256 <= innerWidth -> 8 <= fst p) /\
    (316 <= innerHeight -> 8 <= snd p) /\
    (256 <= innerWidth -> 8 <= cx + 12 -> cx + 12 + 240 <= innerWidth - 8 ->
     fst p == cx + 12) /\
    (316 <= innerHeight -> 8 <= cy + 12 -> cy + 12 + 300 <= innerHeight - 8 ->
     snd p == cy + 12) /\
    (innerWidth == 0 -> 8 <= fst p /\ fst p <= 952) /\
    (innerHeight == 0 -> 8 <= snd p /\ snd p <= 492).
Proof.
  intros iw ih cx cy p. unfold p, computePopoverPosAtMouse. cbn [fst snd].
  assert (Hor : forall v d, ~ v == 0 -> Js.or v d = v)
    by (intros; now apply or_of_nonzero).
  assert (Hor0 : forall v d, v == 0 -> Js.or v d = d).
  { intros v d E. unfold Js.or, Js.truthy.
    now rewrite (proj2 (Qeq_bool_iff v 0) E). }
  assert (Hmin : forall a b, Js.min a b <= a) by (intros; apply Q.le_min_l).
  repeat split.
  - intros Hn. rewrite (Hor _ _ Hn). specialize (Hmin (iw - 240 - 8)
      (Js.max 8 (cx + 12))). lra.
  - intros Hn. rewrite (Hor _ _ Hn). specialize (Hmin (ih - 300 - 8)
      (Js.max 8 (cy + 12))). lra.
  - intros Hw. rewrite Hor by (intros E; rewrite E in Hw; now apply Hw).
    apply clamp_between. lra.
  - intros Hh. rewrite Hor by (intros E; rewrite E in Hh; now apply Hh).
    apply clamp_between. lra.
  - intros Hw Hl Hr. rewrite Hor by (intros E; rewrite E in Hw; now apply Hw).
    apply clamp_between; lra.
  - intros Hh Hl Hr. rewrite Hor by (intros E; rewrite E in Hh; now apply Hh).
    apply clamp_between; lra.
  - rewrite (Hor0 _ _ H). apply clamp_between. discriminate.
  - rewrite (Hor0 _ _ H).
    destruct (clamp_between 8 (1200 - 240 - 8) (cx + 12) ltac:(discriminate))
      as (_ & Hle & _). lra.
  - rewrite (Hor0 _ _ H). apply clamp_between. discriminate.
  - rewrite (Hor0 _ _ H).
    destruct (clamp_between 8 (800 - 300 - 8) (cy + 12) ltac:(discriminate))
      as (_ & Hle & _). lra.
Qed.

Lemma preview_stays_inside_the_window_witness :
  computePopoverPosAtMouse 1000 700 900 100 = (752, 112) /\
  8 <= fst (computePopoverPosAtMouse 1000 700 900 100).
Proof.
  split; [reflexivity|].
  exact (proj1 (proj2 (proj2 (preview_stays_inside_the_window 1000 700 900 100)))
           ltac:(discriminate)).
Defined.

(** ** Painting the strokes *)

Lemma vertices_app a b : vertices (a ++ b) = vertices a ++ vertices b.
Proof. unfold vertices. apply flat_map_app. Qed.

Lemma vertices_lines (f : Point -> Q * Q) l :
  vertices (map (fun p => LineTo (fst (f p)) (snd (f p))) l) = map f l.
Proof.
  induction l as [|p l IH]; [reflexivity|].
  cbn [map]. change (vertices (?c :: ?r)) with (vertices [c] ++ vertices r).
  rewrite IH. cbn. now destruct (f p).
Qed.

Lemma painted_at_placed_points stroke :
  vertices (drawStrokeOnContext stroke) = placed_points stroke.
Proof.
  unfold drawStrokeOnContext, placed_points.
  destruct (points stroke) as [|p0 [|p1 rest]]; [reflexivity | reflexivity |].
  cbv zeta. rewrite !vertices_app.
  set (f := fun p => (px p + Js.or (offsetX stroke) 0,
                      py p + Js.or (offsetY stroke) 0)).
  change (map (fun p => LineTo (px p + Js.or (offsetX stroke) 0)
                               (py p + Js.or (offsetY stroke) 0)) (p1 :: rest))
    with (map (fun p => LineTo (fst (f p)) (snd (f p))) (p1 :: rest)).
  rewrite vertices_lines. cbn. now rewrite app_nil_r.
Qed.

Lemma intersects_near ex0 ey0 stroke :
  intersects ex0 ey0 stroke = existsb (near ex0 ey0) (placed_points stroke).
Proof.
  unfold intersects, placed_points. cbv zeta.
  induction (points stroke) as [|p l IH]; [reflexivity|].
  cbn [existsb map]. now rewrite IH.
Qed.

Lemma widths_app a b : widths (a ++ b) = widths a ++ widths b.
Proof. unfold widths. apply flat_map_app. Qed.

Lemma widths_lines (g h : Point -> Q) l :
  widths (map (fun p => LineTo (g p) (h p)) l) = [].
Proof. induction l as [|p l IH]; [reflexivity | exact IH]. Qed.

Lemma widths_of_stroke stroke :
  points stroke <> [] ->
  widths (drawStrokeOnContext stroke) = [Js.or (strokeWidth stroke) 3].
Proof.
  unfold drawStrokeOnContext. intros Hp.
  destruct (points stroke) as [|p0 [|p1 rest]]; [congruence | reflexivity |].
  cbv zeta. rewrite !widths_app, widths_lines. reflexivity.
Qed.

Lemma shifted_points (dx dy : Q) (ox oy ox' oy' : Q) l :
  ox' == ox + dx -> oy' == oy + dy ->
  Forall2 (shifted_by dx dy)
          (map (fun p => (px p + ox, py p + oy)) l)
          (map (fun p => (px p + ox', py p + oy')) l).
Proof.
  intros Hx Hy. induction l as [|p l IH]; constructor; [|exact IH].
  unfold shifted_by. cbn [fst snd]. rewrite Hx, Hy. split; ring.
Qed.

(** X28.  A stroke is painted where the eraser looks for it.  What is
    painted for a stroke passes through its samples shifted by its
    offset, in order, and nowhere else: nothing for a stroke without
    samples, a dot for a single sample, one path otherwise, with the
    stroke's width (3 when it has none).  The eraser touches a stroke
    exactly when a painted place is within the erase radius of the
    pointer.  A pasted copy of a stroke is painted 20 right of and 20
    below the original, place by place, and as wide.  With the cache
    built from the collection, a page with a canvas shows the strokes of
    that page in the order of the collection, then the stroke under way
    when it is on that page. *)
Theorem strokes_are_painted_where_the_eraser_looks :
  forall (stroke : Box) (ex0 ey0 : Q) (nid : string)
         (canvasRefs : Z -> option Rect) (bs : list Box)
         (active : option Box) (pageIdx : Z),
    vertices (drawStrokeOnContext stroke) = placed_points stroke /\
    (points stroke = [] -> drawStrokeOnContext stroke = []) /\
    (points stroke <> [] ->
     widths (drawStrokeOnContext stroke) = [Js.or (strokeWidth stroke) 3]) /\
    intersects ex0 ey0 stroke
    = existsb (near ex0 ey0) (vertices (drawStrokeOnContext stroke)) /\
    (type stroke = Draw ->
     Forall2 (shifted_by 20 20)
             (vertices (drawStrokeOnContext stroke))
             (vertices (drawStrokeOnContext (paste_clone nid stroke))) /\
     widths (drawStrokeOnContext (paste_clone nid stroke))
     = widths (drawStrokeOnContext stroke)) /\
    (canvasRefs pageIdx <> None ->
     vertices (renderPageCanvas canvasRefs (build_cache bs) active pageIdx)
     = flat_map placed_points
         (filter (fun b => is_draw b && Z.eqb (page b) pageIdx) bs
          ++ match active with
             | Some s => if Z.eqb (page s) pageIdx then [s] else []
             | None => []
             end)).
Proof.
  intros stroke ex0 ey0 nid canvasRefs bs active pageIdx.
  split; [apply painted_at_placed_points|].
  split; [intros H; unfold drawStrokeOnContext; now rewrite H|].
  split; [apply widths_of_stroke|].
  split; [rewrite painted_at_placed_points; apply intersects_near|].
  split.
  - intros Ht. rewrite !painted_at_placed_points.
    assert (Hc : paste_clone nid stroke
                 = set_offset (Js.or (offsetX stroke) 0 + 20)
                              (Js.or (offsetY stroke) 0 + 20)
                              (set_id nid stroke)).
    { unfold paste_clone. cbv zeta. rewrite json_clone_box_id.
      cbn [type set_id]. now rewrite Ht. }
    rewrite Hc. split.
    + unfold placed_points. cbn [points offsetX offsetY set_offset set_id].
      apply shifted_points; now rewrite or_zero.
    + destruct (points stroke) as [|p0 ps] eqn:Hp.
      * unfold drawStrokeOnContext.
        cbn [points set_offset set_id]. now rewrite Hp.
      * rewrite !widths_of_stroke; [reflexivity | congruence |].
        cbn [points set_offset set_id]. congruence.
  - intros Hcv. unfold renderPageCanvas.
    destruct (canvasRefs pageIdx); [|congruence].
    change (vertices (ClearRect :: ?r)) with (vertices r).
    rewrite vertices_app, flat_map_app. f_equal.
    + unfold build_cache. rewrite map_cache_copy.
      induction (filter _ bs) as [|b l IH]; [reflexivity|].
      cbn [flat_map]. rewrite vertices_app, IH.
      now rewrite painted_at_placed_points.
    + destruct active as [s|]; [|reflexivity].
      destruct (Z.eqb (page s) pageIdx); [|reflexivity].
      cbn [flat_map]. rewrite app_nil_r. apply painted_at_placed_points.
Qed.

Lemma strokes_are_painted_where_the_eraser_looks_witness :
  let copy := paste_clone "d_2" Sample.stroke in
  Forall2 (shifted_by 20 20)
          (vertices (drawStrokeOnContext Sample.stroke))
          (vertices (drawStrokeOnContext copy)) /\
  widths (drawStrokeOnContext copy) = widths (drawStrokeOnContext Sample.stroke).
Proof.
  exact (proj1 (proj2 (proj2 (proj2 (proj2
           (strokes_are_painted_where_the_eraser_looks
              Sample.stroke 0 0 "d_2" (fun _ => None) [] None 0%Z)))))
           eq_refl).
Defined.
